(** * FlowKey: the workflow-diagram generation pipeline

    A shallow embedding of [src/config/workflow.ts] (prompt selection,
    script validation, script cleaning) and of the retry orchestrator of
    [src/lib/gemini.ts], followed by the properties of the pipeline.

    JavaScript strings are sequences of code units; they are modelled as
    lists of [ascii], one 8-bit code unit per character (the Latin-1
    range), with the JavaScript notions of white space, line terminator
    and case mapping on that range. *)

From Stdlib Require Import Ascii String List Arith Bool Lia.
Import ListNotations.
Open Scope string_scope.
Open Scope list_scope.
Open Scope nat_scope.

Set Implicit Arguments.

(* ================================================================== *)
(** ** JavaScript string primitives *)
(* ================================================================== *)

Module JsString.

Definition jsstring := list ascii.

(** A string literal of the source. *)
Definition lit (s : string) : jsstring := list_ascii_of_string s.

Definition code (c : ascii) : nat := nat_of_ascii c.

(** WhiteSpace and LineTerminator code points below 256:
    TAB, LF, VT, FF, CR, SP and NBSP. *)
Definition isLineTerminator (c : ascii) : bool :=
  (code c =? 10) || (code c =? 13).

Definition isWhiteSpace (c : ascii) : bool :=
  (code c =? 9) || (code c =? 10) || (code c =? 11) || (code c =? 12)
  || (code c =? 13) || (code c =? 32) || (code c =? 160).

(** [String.prototype.toLowerCase] on one code unit: A-Z and the
    Latin-1 capitals (all of 192..222 but the multiplication sign). *)
Definition toLowerCaseChar (c : ascii) : ascii :=
  let n := code c in
  if ((65 <=? n) && (n <=? 90))
     || ((192 <=? n) && (n <=? 222) && negb (n =? 215))
  then ascii_of_nat (n + 32) else c.

Definition toLowerCase (s : jsstring) : jsstring := map toLowerCaseChar s.

(** The Canonicalize operation of a regular expression with the [i]
    flag and without the [u] flag: the upper-case mapping when it is a
    single code unit, except that a non-ASCII character is never mapped
    to an ASCII one.  Below 256 only a-z and the Latin-1 small letters
    224..254 (but the division sign) change: the sharp s maps to two
    letters, and the micro sign and y-diaeresis map to code points that
    no other character below 256 canonicalizes to. *)
Definition canonicalize (c : ascii) : ascii :=
  let n := code c in
  if ((97 <=? n) && (n <=? 122))
     || ((224 <=? n) && (n <=? 254) && negb (n =? 247))
  then ascii_of_nat (n - 32) else c.

Fixpoint dropWhile (p : ascii -> bool) (s : jsstring) : jsstring :=
  match s with
  | [] => []
  | c :: s' => if p c then dropWhile p s' else s
  end.

Definition trimStart (s : jsstring) : jsstring := dropWhile isWhiteSpace s.
Definition trimEnd (s : jsstring) : jsstring := rev (trimStart (rev s)).

(** [String.prototype.trim] *)
Definition trim (s : jsstring) : jsstring := trimEnd (trimStart s).

(** Strict equality [===] on strings. *)
Fixpoint strEq (s t : jsstring) : bool :=
  match s, t with
  | [], [] => true
  | c :: s', d :: t' => Ascii.eqb c d && strEq s' t'
  | _, _ => false
  end.

(** [s.startsWith(p)] *)
Fixpoint startsWith (s p : jsstring) : bool :=
  match p, s with
  | [], _ => true
  | d :: p', c :: s' => Ascii.eqb c d && startsWith s' p'
  | _ :: _, [] => false
  end.

(** [s.includes(sub)] *)
Fixpoint includes (s sub : jsstring) : bool :=
  startsWith s sub ||
  match s with
  | [] => false
  | _ :: s' => includes s' sub
  end.

(** Truthiness of a string: the empty string is the only falsy one. *)
Definition truthy (s : jsstring) : bool :=
  match s with [] => false | _ :: _ => true end.

(** [parts.join(sep)] *)
Fixpoint join (sep : jsstring) (parts : list jsstring) : jsstring :=
  match parts with
  | [] => []
  | [p] => p
  | p :: ps => p ++ sep ++ join sep ps
  end.

(** [array.includes(x)] on an array of strings. *)
Definition arrayIncludes (xs : list jsstring) (x : jsstring) : bool :=
  existsb (strEq x) xs.

End JsString.
Import JsString.

(* ================================================================== *)
(** ** Regular expressions: a backtracking matcher *)
(* ================================================================== *)

Module RegExp.

(** The fragment of the pattern syntax the source uses. *)
Inductive regex : Type :=
| Eps                          (* the empty pattern *)
| Chr (c : ascii)              (* a pattern character *)
| Cls (p : ascii -> bool)      (* [.], [\s], a bracket class *)
| Cat (r1 r2 : regex)          (* r1 r2 *)
| Alt (r1 r2 : regex)          (* r1|r2 *)
| Star (greedy : bool) (r : regex)   (* r* and r*? *)
| Opt (r : regex)              (* r? *)
| Grp (n : nat) (r : regex)    (* the n-th capturing group *)
| Bol                          (* ^ *)
| Eol.                         (* $ *)

Record flags := { ignoreCase : bool; multiline : bool }.

Definition noFlags := {| ignoreCase := false; multiline := false |}.
Definition flagI := {| ignoreCase := true; multiline := false |}.
Definition flagM := {| ignoreCase := false; multiline := true |}.

(** The matcher state: the character before the current position (none
    at the start of the input), the input from the current position on,
    and the captures made so far. *)
Record mstate := {
  before : option ascii;
  rest : jsstring;
  caps : list (nat * jsstring)
}.

Definition cont := mstate -> option mstate.

Definition charMatches (fl : flags) (c x : ascii) : bool :=
  if ignoreCase fl then Ascii.eqb (canonicalize c) (canonicalize x)
  else Ascii.eqb c x.

Definition step (st : mstate) (x : ascii) (s' : jsstring) : mstate :=
  {| before := Some x; rest := s'; caps := caps st |}.

Definition atLineStart (fl : flags) (st : mstate) : bool :=
  match before st with
  | None => true
  | Some c => multiline fl && isLineTerminator c
  end.

Definition atLineEnd (fl : flags) (st : mstate) : bool :=
  match rest st with
  | [] => true
  | c :: _ => multiline fl && isLineTerminator c
  end.

(** The iterations of a starred pattern whose body is matched by
    [body]: an iteration that consumes nothing is rejected, so at most
    as many iterations are made as there are characters left; [n]
    bounds that number.  A greedy star tries one more iteration before
    the continuation, a lazy one the continuation first. *)
Fixpoint starLoop (body : mstate -> cont -> option mstate)
         (greedy : bool) (k : cont) (n : nat) (st : mstate)
  : option mstate :=
  match n with
  | 0 => k st
  | S n' =>
      let again (_ : unit) :=
        body st (fun st' =>
          if length (rest st') <? length (rest st)
          then starLoop body greedy k n' st' else None) in
      if greedy then
        match again tt with
        | Some res => Some res
        | None => k st
        end
      else
        match k st with
        | Some res => Some res
        | None => again tt
        end
  end.

(** [rmatch fl r st k]: match [r] at [st], then continue with [k];
    the alternatives are tried in the order of a backtracking matcher
    (left alternative first, greedy quantifiers longest first, lazy
    ones shortest first).  A class is tested on the character itself:
    the only class the source uses under the [i] flag is [\s], and no
    other character has the canonical form of a white-space one. *)
Fixpoint rmatch (fl : flags) (r : regex) (st : mstate) (k : cont)
  : option mstate :=
  match r with
  | Eps => k st
  | Chr c =>
      match rest st with
      | x :: s' => if charMatches fl c x then k (step st x s') else None
      | [] => None
      end
  | Cls p =>
      match rest st with
      | x :: s' => if p x then k (step st x s') else None
      | [] => None
      end
  | Cat r1 r2 => rmatch fl r1 st (fun st' => rmatch fl r2 st' k)
  | Alt r1 r2 =>
      match rmatch fl r1 st k with
      | Some res => Some res
      | None => rmatch fl r2 st k
      end
  | Star greedy r' =>
      starLoop (rmatch fl r') greedy k (length (rest st)) st
  | Opt r' =>
      match rmatch fl r' st k with
      | Some res => Some res
      | None => k st
      end
  | Grp n r' =>
      rmatch fl r' st (fun st' =>
        k {| before := before st';
             rest := rest st';
             caps := (n, firstn (length (rest st) - length (rest st'))
                                (rest st)) :: caps st' |})
  | Bol => if atLineStart fl st then k st else None
  | Eol => if atLineEnd fl st then k st else None
  end.

(** The outcome of a successful match: where it starts, the matched
    text, the text after it and the captures. *)
Record matchResult := {
  index : nat;
  matched : jsstring;
  after : jsstring;
  groups : list (nat * jsstring)
}.

Definition matchAt (fl : flags) (r : regex) (prev : option ascii)
           (s : jsstring) : option mstate :=
  rmatch fl r {| before := prev; rest := s; caps := [] |} Some.

(** [RegExp.prototype.exec] without the [g] flag: the first position,
    from the left, at which the pattern matches. *)
Fixpoint execFrom (fl : flags) (r : regex) (prev : option ascii)
         (s : jsstring) (idx : nat) : option matchResult :=
  match matchAt fl r prev s with
  | Some st =>
      Some {| index := idx;
              matched := firstn (length s - length (rest st)) s;
              after := rest st;
              groups := caps st |}
  | None =>
      match s with
      | [] => None
      | c :: s' => execFrom fl r (Some c) s' (S idx)
      end
  end.

Definition exec (fl : flags) (r : regex) (s : jsstring)
  : option matchResult :=
  execFrom fl r None s 0.

(** [re.test(s)] *)
Definition test (fl : flags) (r : regex) (s : jsstring) : bool :=
  match exec fl r s with Some _ => true | None => false end.

(** The value of capture [n] in a match; [None] is [undefined]. *)
Fixpoint group (n : nat) (gs : list (nat * jsstring)) : option jsstring :=
  match gs with
  | [] => None
  | (m, v) :: gs' => if m =? n then Some v else group n gs'
  end.

(** [s.replace(re, '')] without the [g] flag: the first match is
    removed. *)
Definition replaceEmpty (fl : flags) (r : regex) (s : jsstring)
  : jsstring :=
  match exec fl r s with
  | Some m => firstn (index m) s ++ after m
  | None => s
  end.

(** [s.match(re)] with the [g] flag: all the matches from the left, the
    search resuming after each one (one further on after an empty one).
    [skip] counts the characters still covered by the previous match. *)
Fixpoint matchGlobal (fl : flags) (r : regex) (prev : option ascii)
         (s : jsstring) (skip : nat) {struct s} : list jsstring :=
  match skip with
  | S k =>
      match s with
      | [] => []
      | c :: s' => matchGlobal fl r (Some c) s' k
      end
  | 0 =>
      match matchAt fl r prev s with
      | Some st =>
          let m := firstn (length s - length (rest st)) s in
          m :: match s with
               | [] => []
               | c :: s' => matchGlobal fl r (Some c) s' (length m - 1)
               end
      | None =>
          match s with
          | [] => []
          | c :: s' => matchGlobal fl r (Some c) s' 0
          end
      end
  end.

(** [(s.match(re) || []).length] for a pattern with the [g] flag. *)
Definition countMatches (fl : flags) (r : regex) (s : jsstring) : nat :=
  length (matchGlobal fl r None s 0).

(** The pattern of a literal run of characters. *)
Fixpoint chars (s : jsstring) : regex :=
  match s with
  | [] => Eps
  | [c] => Chr c
  | c :: s' => Cat (Chr c) (chars s')
  end.

Definition str (s : string) : regex := chars (lit s).

(** [.]: any character but a line terminator. *)
Definition dot : regex := Cls (fun c => negb (isLineTerminator c)).
(** [\s] *)
Definition space : regex := Cls isWhiteSpace.
(** [[\s\S]]: any character. *)
Definition anyChar : regex := Cls (fun c => isWhiteSpace c || negb (isWhiteSpace c)).

End RegExp.
Import RegExp.

Declare Scope regex_scope.
Delimit Scope regex_scope with re.
Infix ";;" := Cat (at level 61, right associativity) : regex_scope.
Infix "<|>" := Alt (at level 62, right associativity) : regex_scope.

(* ================================================================== *)
(** ** [src/config/workflow.ts] *)
(* ================================================================== *)

Module Workflow.

Local Open Scope regex_scope.

Record MermaidGenerationConfig := {
  maxRetryAttempts : nat;
  generationTimeoutMs : nat;
  validDiagramTypes : list jsstring;
  minScriptLength : nat;
  maxScriptLength : nat
}.

Definition mermaidGenerationConfig : MermaidGenerationConfig := {|
  maxRetryAttempts := 3;
  generationTimeoutMs := 30000;
  validDiagramTypes := map lit
    [ "graph"; "flowchart"; "sequenceDiagram"; "classDiagram";
      "stateDiagram"; "erDiagram"; "journey"; "gantt";
      "pie"; "quadrantChart"; "requirement"; "gitgraph";
      "mindmap"; "timeline"; "zenuml"; "sankey" ];
  minScriptLength := 20;
  maxScriptLength := 5000
|}.

Definition newline : jsstring := ["010"%char].

(** The text of a template literal, given line by line. *)
Definition textLines (ls : list string) : jsstring :=
  join newline (map lit ls).

Definition primary (conversation : jsstring) : jsstring :=
  textLines
    [ "Generate a valid Mermaid diagram script based on this conversation.";
      EmptyString;
      "CRITICAL REQUIREMENTS:";
      "1. Start with a valid diagram type: flowchart TD, graph LR, sequenceDiagram, etc.";
      "2. Use square brackets for all node labels: NodeName[Description]";
      "3. Use proper arrow syntax: A --> B or A -- label --> B";
      "4. No spaces in node IDs (use camelCase or underscores)";
      "5. All brackets must be balanced";
      "6. Use %% for comments (separate lines only)";
      "7. No HTML tags or markdown in labels";
      EmptyString;
      "RETURN ONLY the raw Mermaid script, nothing else.";
      "If no meaningful diagram can be created, return: NO_DIAGRAM";
      EmptyString;
      "Conversation:";
      EmptyString ]
  ++ conversation.

Definition secondary (conversation : jsstring) : jsstring :=
  textLines
    [ "Create a simple Mermaid flowchart for this conversation:";
      EmptyString;
      EmptyString ]
  ++ conversation
  ++ textLines
    [ EmptyString;
      EmptyString;
      "Requirements:";
      "- Start with: flowchart TD";
      "- Use format: NodeName[Description] --> OtherNode[Description]";
      "- Keep it simple and focused";
      "- Return only the Mermaid script or NO_DIAGRAM" ].

Definition fallback (conversation : jsstring) : jsstring :=
  textLines
    [ "Generate a basic flowchart showing the main steps discussed:";
      EmptyString;
      EmptyString ]
  ++ conversation
  ++ textLines
    [ EmptyString;
      EmptyString;
      "Format:";
      "flowchart TD";
      "  A[Step 1] --> B[Step 2]";
      "  ";
      "Return only valid Mermaid syntax or NO_DIAGRAM" ].

Record UserMessages := {
  generationStarted : jsstring;
  retryingGeneration : jsstring;
  generationSuccess : jsstring;
  noDiagramPossible : jsstring;
  generationFailed : jsstring;
  validationFailed : jsstring;
  authenticationError : jsstring;
  rateLimitError : jsstring;
  networkError : jsstring;
  timeoutError : jsstring;
  noContentError : jsstring
}.

Definition userMessages : UserMessages := {|
  generationStarted := lit "Generating workflow diagram...";
  retryingGeneration := lit "Retrying with simplified approach...";
  generationSuccess := lit "Workflow diagram generated successfully!";
  noDiagramPossible := lit "Unable to create a meaningful workflow diagram from this conversation. Please try discussing specific processes or steps.";
  generationFailed := lit "Failed to generate workflow diagram. Please try again.";
  validationFailed := lit "Generated diagram contains syntax errors and cannot be displayed.";
  authenticationError := lit "Authentication failed. Please check your API configuration.";
  rateLimitError := lit "Rate limit exceeded. Please wait a moment before trying again.";
  networkError := lit "Network error occurred. Please check your connection and try again.";
  timeoutError := lit "Diagram generation timed out. Please try again with a simpler request.";
  noContentError := lit "No conversation content available for diagram generation."
|}.

(** [Object.values(userMessages)], in property order. *)
Definition userMessageValues : list jsstring :=
  [ generationStarted userMessages; retryingGeneration userMessages;
    generationSuccess userMessages; noDiagramPossible userMessages;
    generationFailed userMessages; validationFailed userMessages;
    authenticationError userMessages; rateLimitError userMessages;
    networkError userMessages; timeoutError userMessages;
    noContentError userMessages ].

(** The attempt number is 1-based; every number other than 1 and 2
    takes the [default] branch. *)
Definition getPromptForAttempt (attemptNumber : nat)
           (conversation : jsstring) : jsstring :=
  match attemptNumber with
  | 1 => primary conversation
  | 2 => secondary conversation
  | _ => fallback conversation
  end.

(** The patterns of [validateMermaidScript]. *)

(** [/\[.*?\]/] *)
Definition reBrackets : regex :=
  Chr "["%char ;; Star false dot ;; Chr "]"%char.

(** [/-->|->|<--|<-/] *)
Definition reArrows : regex :=
  str "-->" <|> str "->" <|> str "<--" <|> str "<-".

(** [/\[/g] and [/\]/g] *)
Definition reOpen : regex := Chr "["%char.
Definition reClose : regex := Chr "]"%char.

(** [/\.\.\.[^[\]]*?\]/]: incomplete node references *)
Definition reIncompleteNode : regex :=
  str "..." ;;
  Star false (Cls (fun c => negb (Ascii.eqb c "["%char || Ascii.eqb c "]"%char))) ;;
  Chr "]"%char.

(** [/\[.*?; %%/]: inline comments after brackets *)
Definition reInlineComment : regex :=
  Chr "["%char ;; Star false dot ;; str "; %%".

(** [/^\s*-->|<--\s*$/m]: arrows without nodes *)
Definition reDanglingArrow : regex :=
  (Bol ;; Star true space ;; str "-->") <|> (str "<--" ;; Star true space ;; Eol).

Definition validateMermaidScript (script : jsstring) : bool :=
  if negb (truthy script) then false else
  let trimmed := trim script in
  (* Check length constraints *)
  if (length trimmed <? minScriptLength mermaidGenerationConfig)
     || (maxScriptLength mermaidGenerationConfig <? length trimmed)
  then false else
  (* Check for valid diagram type at start *)
  let hasValidDiagramType :=
    existsb (fun type => startsWith (toLowerCase trimmed) (toLowerCase type))
            (validDiagramTypes mermaidGenerationConfig) in
  if negb hasValidDiagramType then false else
  (* Check for basic syntax patterns *)
  let hasBrackets := test noFlags reBrackets trimmed in
  let hasArrows := test noFlags reArrows trimmed in
  if negb hasBrackets && negb hasArrows
     && negb (includes trimmed (lit "participant"))
     && negb (includes trimmed (lit "class"))
  then false else
  (* Check for balanced brackets *)
  let openBrackets := countMatches noFlags reOpen trimmed in
  let closeBrackets := countMatches noFlags reClose trimmed in
  if negb (openBrackets =? closeBrackets) then false else
  (* Check for common syntax errors *)
  let hasInvalidPatterns :=
    existsb (fun pattern : flags * regex =>
               test (fst pattern) (snd pattern) trimmed)
            [ (noFlags, reIncompleteNode);
              (noFlags, reInlineComment);
              (flagM, reDanglingArrow) ] in
  negb hasInvalidPatterns.

(** The patterns of [cleanMermaidScript]. *)

(** [/^\s*```(?:mermaid)?\s*([\s\S]*?)\s*```\s*$/] *)
Definition wrapperRegex : regex :=
  Bol ;; Star true space ;; str "```" ;; Opt (str "mermaid") ;;
  Star true space ;; Grp 1 (Star false anyChar) ;; Star true space ;;
  str "```" ;; Star true space ;; Eol.

(** [( diagram| script)?:?\s*], the common tail of the first three
    prefixes; the group has number [n]. *)
Definition mermaidTail (n : nat) : regex :=
  str " mermaid" ;; Opt (Grp n (str " diagram" <|> str " script")) ;;
  Opt (Chr ":"%char) ;; Star true space.

Definition prefixesToRemove : list regex :=
  [ (* /^here'?s?( a| the)? mermaid( diagram| script)?:?\s*/i *)
    Bol ;; str "here" ;; Opt (Chr "'"%char) ;; Opt (Chr "s"%char) ;;
      Opt (Grp 1 (str " a" <|> str " the")) ;; mermaidTail 2;
    (* /^this is( a| the)? mermaid( diagram| script)?:?\s*/i *)
    Bol ;; str "this is" ;;
      Opt (Grp 1 (str " a" <|> str " the")) ;; mermaidTail 2;
    (* /^generated? mermaid( diagram| script)?:?\s*/i *)
    Bol ;; str "generate" ;; Opt (Chr "d"%char) ;; mermaidTail 1;
    (* /^workflow( diagram)?:?\s*/i *)
    Bol ;; str "workflow" ;; Opt (Grp 1 (str " diagram")) ;;
      Opt (Chr ":"%char) ;; Star true space;
    (* /^diagram:?\s*/i *)
    Bol ;; str "diagram" ;; Opt (Chr ":"%char) ;; Star true space ].

Definition cleanMermaidScript (rawScript : jsstring) : jsstring :=
  if negb (truthy rawScript) then [] else
  let cleaned := trim rawScript in
  (* Remove markdown code block wrappers *)
  let cleaned :=
    match exec noFlags wrapperRegex cleaned with
    | Some m =>
        match group 1 (groups m) with
        | Some g => if truthy g then trim g else cleaned
        | None => cleaned
        end
    | None => cleaned
    end in
  (* Remove common AI response prefixes *)
  let cleaned :=
    fold_left (fun acc prefix => replaceEmpty flagI prefix acc)
              prefixesToRemove cleaned in
  trim cleaned.

End Workflow.
Import Workflow.

(* ================================================================== *)
(** ** [src/lib/gemini.ts]: the retry orchestrator *)
(* ================================================================== *)

Module Gemini.

(** [ChatMessageRole] of [types/chat]. *)
Inductive ChatMessageRole := user | assistant | system | mermaid.

(** The fields of a chat message that the pipeline reads. *)
Record ChatMessage := {
  role : ChatMessageRole;
  content : jsstring
}.

Definition roleText (r : ChatMessageRole) : jsstring :=
  match r with
  | user => lit "user"
  | assistant => lit "assistant"
  | system => lit "system"
  | mermaid => lit "mermaid"
  end.

Definition isUserOrAssistant (message : ChatMessage) : bool :=
  match role message with
  | user | assistant => true
  | _ => false
  end.

(** A thrown value: an [Error] with its message, or a value that is not
    an instance of [Error]. *)
Inductive Thrown :=
| ErrorObj (message : jsstring)
| OtherValue.

(** [import.meta.env.VITE_GEMINI_API_KEY]; [None] is [undefined]. *)
Record Env := { VITE_GEMINI_API_KEY : option jsstring }.

Definition validateApiKey (env : Env) : bool :=
  match VITE_GEMINI_API_KEY env with
  | None => false
  | Some apiKey =>
      truthy apiKey && negb (strEq (trim apiKey) []) && (10 <? length apiKey)
  end.

(** One chunk of a streamed response: the parts of its first candidate,
    or [None] when [candidates], [candidates[0]], its [content] or its
    [parts] is missing; a part may have no [text]. *)
Record Part := { text : option jsstring }.
Definition Chunk := option (list Part).

(** How one call of [genAI.models.generateContentStream], raced against
    the timer of [generationTimeoutMs], settles: the stream completes
    first, the request or the stream fails first, or the timer fires
    first. *)
Inductive BackendOutcome :=
| Streamed (chunks : list Chunk)
| Rejected (e : Thrown)
| TimerFirst.

(** The backend, as met by the orchestrator: the outcome of the request
    of a given attempt with a given prompt. *)
Definition Backend := nat -> jsstring -> BackendOutcome.

(** The calls the orchestrator makes, in order. *)
Inductive Event :=
| Request (attempt : nat) (prompt : jsstring)
| CleanCall (rawScript : jsstring)
| ValidateCall (script : jsstring).

Definition Trace := list Event.

(** Computations that extend the trace of calls and either return a
    value or throw. *)
Definition M (A : Type) : Type := Trace -> Trace * (A + Thrown).

Definition ret {A} (a : A) : M A := fun tr => (tr, inl a).
Definition throw {A} (e : Thrown) : M A := fun tr => (tr, inr e).
Definition emit (ev : Event) : M unit := fun tr => (tr ++ [ev], inl tt).
Definition bind {A B} (m : M A) (f : A -> M B) : M B :=
  fun tr =>
    match m tr with
    | (tr', inl a) => f a tr'
    | (tr', inr e) => (tr', inr e)
    end.
Definition tryCatch {A} (m : M A) (handler : Thrown -> M A) : M A :=
  fun tr =>
    match m tr with
    | (tr', inl a) => (tr', inl a)
    | (tr', inr e) => handler e tr'
    end.
Definition run {A} (m : M A) : Trace * (A + Thrown) := m [].

Notation "'let*' x ':=' m 'in' f" := (bind m (fun x => f))
  (at level 10, x name, m at level 100, f at level 200).
Notation "m1 >> m2" := (bind m1 (fun _ => m2))
  (at level 100, right associativity).

Definition NO_DIAGRAM : jsstring := lit "NO_DIAGRAM".

Definition emptyResponseMessage : jsstring :=
  lit "Empty response received from Gemini API".

Definition unexpectedErrorMessage : jsstring :=
  lit "An unexpected error occurred while communicating with the AI service.".

(** The text accumulated from the chunks of a stream. *)
Definition partText (aiResponse : jsstring) (part : Part) : jsstring :=
  match text part with
  | Some t => if truthy t then aiResponse ++ t else aiResponse
  | None => aiResponse
  end.

Definition chunkText (aiResponse : jsstring) (chunk : Chunk) : jsstring :=
  match chunk with
  | Some parts => fold_left partText parts aiResponse
  | None => aiResponse
  end.

Definition accumulate (chunks : list Chunk) : jsstring :=
  fold_left chunkText chunks [].

Definition attemptMermaidGeneration (backend : Backend)
           (conversationContent : jsstring) (attemptNumber : nat)
  : M jsstring :=
  let prompt := getPromptForAttempt attemptNumber conversationContent in
  emit (Request attemptNumber prompt) >>
  match backend attemptNumber prompt with
  | TimerFirst => throw (ErrorObj (timeoutError userMessages))
  | Rejected e => throw e
  | Streamed chunks =>
      let result := trim (accumulate chunks) in
      if negb (truthy result)
      then throw (ErrorObj emptyResponseMessage)
      else ret result
  end.

Definition handleGeminiApiError (error : Thrown) : Thrown :=
  match error with
  | ErrorObj msg =>
      let message := toLowerCase msg in
      (* Authentication errors *)
      if includes message (lit "api key")
         || includes message (lit "authentication")
         || includes message (lit "unauthorized")
      then ErrorObj (authenticationError userMessages)
      (* Rate limiting errors *)
      else if includes message (lit "rate limit")
              || includes message (lit "quota")
              || includes message (lit "too many requests")
      then ErrorObj (rateLimitError userMessages)
      (* Network errors *)
      else if includes message (lit "network")
              || includes message (lit "connection")
              || includes message (lit "timeout")
      then ErrorObj (networkError userMessages)
      else error
  | OtherValue => ErrorObj unexpectedErrorMessage
  end.

Definition handleMermaidGenerationError (error : Thrown) : Thrown :=
  match error with
  | ErrorObj message =>
      if arrayIncludes userMessageValues message then error
      else handleGeminiApiError error
  | OtherValue => ErrorObj (generationFailed userMessages)
  end.

Definition callClean (rawScript : jsstring) : M jsstring :=
  emit (CleanCall rawScript) >> ret (cleanMermaidScript rawScript).

Definition callValidate (script : jsstring) : M bool :=
  emit (ValidateCall script) >> ret (validateMermaidScript script).

(** The body of the [for] loop for one attempt: [Some s] when the
    function returns [s], [None] when the loop goes on to the next
    attempt. *)
Definition attemptBody (backend : Backend) (conversationContent : jsstring)
           (attempt : nat) : M (option jsstring) :=
  tryCatch
    (let* script :=
       attemptMermaidGeneration backend conversationContent attempt in
     if strEq script NO_DIAGRAM then ret (Some NO_DIAGRAM)
     else
       let* cleanedScript := callClean script in
       let* valid := callValidate cleanedScript in
       if valid then ret (Some cleanedScript)
       else if attempt =? maxRetryAttempts mermaidGenerationConfig
            then throw (ErrorObj (validationFailed userMessages))
            else ret None)
    (fun error =>
       if attempt =? maxRetryAttempts mermaidGenerationConfig
       then throw error
       else ret None).

(** The [for] loop, [remaining] iterations before its end: it is
    entered with [attempt = 1] and [remaining = maxRetryAttempts], and
    [attempt + remaining] stays [maxRetryAttempts + 1], so the loop
    test [attempt <= maxRetryAttempts] holds exactly while [remaining]
    is not zero.  After the loop the function throws. *)
Fixpoint attemptLoop (backend : Backend) (conversationContent : jsstring)
         (remaining attempt : nat) : M jsstring :=
  match remaining with
  | 0 => throw (ErrorObj (generationFailed userMessages))
  | S remaining' =>
      let* outcome := attemptBody backend conversationContent attempt in
      match outcome with
      | Some script => ret script
      | None =>
          attemptLoop backend conversationContent remaining' (S attempt)
      end
  end.

Definition conversationContentOf (messages : list ChatMessage) : jsstring :=
  join (newline ++ newline)
       (map (fun message => roleText (role message) ++ lit ": " ++ content message)
            messages).

Definition generateMermaidScriptFromConversation (env : Env)
           (backend : Backend) (conversationHistory : list ChatMessage)
  : M jsstring :=
  tryCatch
    (if negb (validateApiKey env)
     then throw (ErrorObj (authenticationError userMessages))
     else
       let userAndAssistantMessages :=
         filter isUserOrAssistant conversationHistory in
       if length userAndAssistantMessages =? 0
       then throw (ErrorObj (noContentError userMessages))
       else
         let conversationContent :=
           conversationContentOf userAndAssistantMessages in
         attemptLoop backend conversationContent
                     (maxRetryAttempts mermaidGenerationConfig) 1)
    (fun error => throw (handleMermaidGenerationError error)).

End Gemini.
Import Gemini.

(* ================================================================== *)
(** ** Vocabulary of the properties, and concrete scenarios *)
(* ================================================================== *)

(** [x] occurs in [s] as a substring. *)
Definition substringOf (x s : jsstring) : Prop :=
  exists pre post, s = pre ++ x ++ post.

Definition isRequest (ev : Event) : bool :=
  match ev with Request _ _ => true | _ => false end.

(** The conversation text the orchestrator builds from a history. *)
Definition contentOf (conversationHistory : list ChatMessage) : jsstring :=
  conversationContentOf (filter isUserOrAssistant conversationHistory).

(** What the [catch] clause of an iteration does with an error. *)
Definition caught (attempt : nat) (e : Thrown) (tr : Trace)
  : Trace * (option jsstring + Thrown) :=
  if attempt =? maxRetryAttempts mermaidGenerationConfig
  then (tr, inr e) else (tr, inl None).

(** The values the orchestrator may return: the sentinel, or the result
    of a call of the cleaner that the validator accepts. *)
Definition acceptable (tr : Trace) (s : jsstring) : Prop :=
  s = NO_DIAGRAM
  \/ exists raw, In (CleanCall raw) tr
                 /\ s = cleanMermaidScript raw
                 /\ validateMermaidScript s = true.

(** The errors an iteration may end with. *)
Definition attemptError (backend : Backend) (conversationContent : jsstring)
           (attempt : nat) (e : Thrown) : Prop :=
  e = ErrorObj (validationFailed userMessages)
  \/ e = ErrorObj (timeoutError userMessages)
  \/ e = ErrorObj emptyResponseMessage
  \/ backend attempt (getPromptForAttempt attempt conversationContent)
     = Rejected e.

(** An authentication error, as [handleGeminiApiError] recognises it. *)
Definition isAuthenticationError (e : Thrown) : bool :=
  match e with
  | ErrorObj msg =>
      let message := toLowerCase msg in
      includes message (lit "api key")
      || includes message (lit "authentication")
      || includes message (lit "unauthorized")
  | OtherValue => false
  end.

(** A fenced code block around [s]: white space, the opening fence, the
    tag, white space, [s], white space, the closing fence, white
    space. *)
Definition fenced (ws1 tag ws2 s ws3 ws4 : jsstring) : jsstring :=
  ws1 ++ lit "```" ++ tag ++ ws2 ++ s ++ ws3 ++ lit "```" ++ ws4.

(** The state of the matcher after the characters [w] have been
    consumed, [s'] being what is left of the input. *)
Definition lastBefore (b : option ascii) (w : jsstring) : option ascii :=
  fold_left (fun _ c => Some c) w b.

Definition advance (st : mstate) (w s' : jsstring) : mstate :=
  {| before := lastBefore (before st) w; rest := s'; caps := caps st |}.

(** The part of [wrapperRegex] after its capturing group. *)
Definition closingFence : regex :=
  (Star true space ;; str "```" ;; Star true space ;; Eol)%re.

(** The first two characters of the diagram types, in lower case. *)
Definition typeStarts : list (ascii * ascii) :=
  map (fun type => (nth 0 (toLowerCase type) zero,
                    nth 1 (toLowerCase type) zero))
      (validDiagramTypes mermaidGenerationConfig).

(** The first two characters of the prefix patterns and of the
    [mermaid] tag. *)
Definition patternStarts : list (ascii * ascii) :=
  [ ("h", "e"); ("t", "h"); ("g", "e"); ("w", "o"); ("d", "i");
    ("m", "e") ]%char.

(** The first two characters of a text whose lower-case form starts
    with a diagram type. *)
Definition typedStart (x1 x2 : ascii) : Prop :=
  In (toLowerCaseChar x1, toLowerCaseChar x2) typeStarts.


Module Scenario.

(** A known-good script. *)
Definition loginFlow : jsstring :=
  textLines [ "flowchart TD"; "  A[Start] --> B[Login]" ].

Definition env : Env :=
  {| VITE_GEMINI_API_KEY := Some (lit "AIzaSy-example-key") |}.

Definition noKey : Env := {| VITE_GEMINI_API_KEY := None |}.

Definition conversation : list ChatMessage :=
  [ {| role := user; content := lit "I want a login flow" |} ].

(** A stream that delivers [s] in one chunk of one part. *)
Definition streamOf (s : jsstring) : BackendOutcome :=
  Streamed [ Some [ {| text := Some s |} ] ].

(** Every response is empty. *)
Definition emptyBackend : Backend := fun _ _ => Streamed [].

Definition keyRejected : Thrown :=
  ErrorObj (lit "API key not valid. Please pass a valid API key.").

(** The credentials are rejected on the first attempt only. *)
Definition rejectsFirst : Backend :=
  fun attempt _ =>
    if attempt =? 1 then Rejected keyRejected else streamOf loginFlow.

(** The credentials are rejected on every attempt. *)
Definition rejectsAll : Backend := fun _ _ => Rejected keyRejected.

(** Unusable text on the first attempt, the sentinel on the second. *)
Definition sentinelSecond : Backend :=
  fun attempt _ =>
    if attempt =? 2 then streamOf (lit " NO_DIAGRAM ")
    else streamOf (lit "no diagram here").

Definition goodBackend : Backend := fun _ _ => streamOf loginFlow.

End Scenario.
Import Scenario.

(* ================================================================== *)
(** ** [src/lib/gemini.ts]: chat completion and the legacy helpers *)
(* ================================================================== *)

Module GeminiChat.

Local Open Scope regex_scope.

(** The phrases of [stripMermaidWrappers], each a pattern [/^phrase/i]. *)
Definition phrasesToRemove : list regex :=
  map (fun phrase => Bol ;; str phrase)
    [ "here's a mermaid diagram:";
      "here is a mermaid diagram:";
      "this is a mermaid diagram:";
      "the mermaid diagram is:";
      "here's the workflow:";
      "here is the workflow:";
      "the workflow diagram:";
      "generated mermaid script:";
      "mermaid script:";
      "diagram:";
      "workflow:";
      "here's the diagram:";
      "here is the diagram:" ].

Definition stripMermaidWrappers (script : jsstring) : jsstring :=
  if negb (truthy script) then [] else
  let cleaned := trim script in
  let cleaned :=
    match exec noFlags wrapperRegex cleaned with
    | Some m =>
        match group 1 (groups m) with
        | Some g => if truthy g then trim g else cleaned
        | None => cleaned
        end
    | None => cleaned
    end in
  (* Remove any remaining conversational text *)
  fold_left (fun acc phrase => trim (replaceEmpty flagI phrase acc))
            phrasesToRemove cleaned.

(** [SearchError] of [types/search]; the time stamp is the reading of the
    clock when the error is built. *)
Inductive SearchErrorType :=
| api_error | network_error | validation_error | unknown.

Record SearchError := {
  message : jsstring;
  type : SearchErrorType;
  timestamp : nat
}.

(** [now] is what [new Date()] reads. *)
Definition handleGeminiError (now : nat) (error : Thrown) : SearchError :=
  match error with
  | ErrorObj msg =>
      if strEq msg (authenticationError userMessages) then
        {| message := authenticationError userMessages;
           type := api_error; timestamp := now |}
      else if strEq msg (rateLimitError userMessages) then
        {| message := rateLimitError userMessages;
           type := api_error; timestamp := now |}
      else if strEq msg (networkError userMessages) then
        {| message := networkError userMessages;
           type := network_error; timestamp := now |}
      else {| message := msg; type := api_error; timestamp := now |}
  | OtherValue =>
      {| message := generationFailed userMessages;
         type := unknown; timestamp := now |}
  end.

(** One chunk of the stream of a chat completion, as far as the code
    reads it: [candidates] may be missing, and so may the [content] of a
    candidate and the [parts] of a content. *)
Record Content := { parts : option (list Part) }.
Record Candidate := { content : option Content }.
Record ChatChunk := { candidates : option (list Candidate) }.

(** One entry of the request: the role and the text of its one part. *)
Record RequestContent := {
  requestRole : jsstring;
  requestText : jsstring
}.

(** How the request of a chat completion settles: the stream completes
    with its chunks, or the request or the stream fails. *)
Inductive ChatOutcome :=
| ChatStreamed (chunks : list ChatChunk)
| ChatRejected (e : Thrown).

Definition ChatBackend := list RequestContent -> ChatOutcome.

Definition noResponseMessage : jsstring :=
  lit "No response content received from Gemini API".

(** The loop over the chunks of the stream.  A chunk without
    [candidates], or whose first candidate has no [content] or no
    [parts], is skipped; reading the [content] of the first candidate of
    an empty [candidates], or the [text] of the first part of an empty
    [parts], is a [TypeError], here [typeError]. *)
Fixpoint processChunks (typeError : Thrown) (chunks : list ChatChunk)
         (fullResponse : jsstring) : jsstring + Thrown :=
  match chunks with
  | [] => inl fullResponse
  | chunk :: chunks' =>
      match candidates chunk with
      | None => processChunks typeError chunks' fullResponse
      | Some [] => inr typeError
      | Some (candidate :: _) =>
          match content candidate with
          | None => processChunks typeError chunks' fullResponse
          | Some c =>
              match parts c with
              | None => processChunks typeError chunks' fullResponse
              | Some [] => inr typeError
              | Some (part :: _) =>
                  processChunks typeError chunks'
                    (match text part with
                     | Some t => if truthy t then fullResponse ++ t
                                 else fullResponse
                     | None => fullResponse
                     end)
              end
          end
      end
  end.

Definition requestContents (messages : list ChatMessage)
  : list RequestContent :=
  map (fun message =>
         {| requestRole :=
              match role message with
              | assistant => lit "model"
              | r => roleText r
              end;
            requestText := Gemini.content message |})
      (filter isUserOrAssistant messages).

(** The result is the list of the requests made and what the function
    returns or throws. *)
Definition generateGeminiCompletion (env : Env) (typeError : Thrown)
           (backend : ChatBackend) (messages : list ChatMessage)
  : list (list RequestContent) * (jsstring + Thrown) :=
  if negb (validateApiKey env) then
    ([], inr (handleGeminiApiError
                (ErrorObj (authenticationError userMessages))))
  else
    let contents := requestContents messages in
    match backend contents with
    | ChatRejected e => ([contents], inr (handleGeminiApiError e))
    | ChatStreamed chunks =>
        match processChunks typeError chunks [] with
        | inr e => ([contents], inr (handleGeminiApiError e))
        | inl fullResponse =>
            if negb (truthy fullResponse)
            then ([contents],
                  inr (handleGeminiApiError (ErrorObj noResponseMessage)))
            else ([contents], inl fullResponse)
        end
    end.

End GeminiChat.

(* ================================================================== *)
(** ** The callers in the home page component *)
(* ================================================================== *)

Module HomePage.

Import GeminiChat.

(** The [catch] clause of [handleGenerateWorkflow]: the message shown
    for a thrown value. *)
Definition workflowErrorMessage (error : Thrown) : jsstring :=
  match error with
  | ErrorObj msg =>
      if arrayIncludes userMessageValues msg then msg
      else generationFailed userMessages
  | OtherValue => generationFailed userMessages
  end.

(** What [handleGenerateWorkflow] leaves in the conversation and in the
    error state: the content and the script of the diagram message, and
    the error shown. *)
Record WorkflowOutcome := {
  diagramContent : option jsstring;
  diagramScript : option jsstring;
  shownError : option SearchError;
  requestsMade : Trace
}.

Definition handleGenerateWorkflow (env : Env) (backend : Backend)
           (now : nat) (conversation : list ChatMessage) : WorkflowOutcome :=
  if length conversation =? 0 then
    {| diagramContent := None; diagramScript := None;
       shownError := Some {| message := noContentError userMessages;
                             type := validation_error;
                             timestamp := now |};
       requestsMade := [] |}
  else
    match run (generateMermaidScriptFromConversation env backend
                                                     conversation) with
    | (tr, inl mermaidScript) =>
        if strEq mermaidScript NO_DIAGRAM then
          {| diagramContent := Some (noDiagramPossible userMessages);
             diagramScript := Some NO_DIAGRAM;
             shownError := None; requestsMade := tr |}
        else
          {| diagramContent := Some (generationSuccess userMessages);
             diagramScript := Some mermaidScript;
             shownError := None; requestsMade := tr |}
    | (tr, inr error) =>
        let errorMessage := workflowErrorMessage error in
        {| diagramContent := Some errorMessage;
           diagramScript := None;
           shownError := Some {| message := errorMessage;
                                 type := api_error;
                                 timestamp := now |};
           requestsMade := tr |}
    end.

(** The [catch] clause of [handleSearch]: the error shown for a thrown
    value. *)
Definition searchErrorOf (now : nat) (err : Thrown) : SearchError :=
  let geminiError := handleGeminiError now err in
  {| message := message geminiError;
     type := match type geminiError with
             | unknown => unknown
             | _ => api_error
             end;
     timestamp := now |}.

End HomePage.

(* ================================================================== *)
(** ** The navigation configuration *)
(* ================================================================== *)

Module Navigation.

(** The icons of [lucide-react] that the configuration uses. *)
Inductive LucideIcon := Plus | Home | History.

Inductive Variant := default | accent | userVariant.

Record NavigationItem := {
  id : jsstring;
  icon : LucideIcon;
  label : jsstring;
  path : jsstring;
  variant : option Variant;
  isActive : option bool;
  ariaLabel : option jsstring
}.

Definition mainNavigationItems : list NavigationItem :=
  [ {| id := lit "new-chat"; icon := Plus; label := lit "New Chat";
       path := lit "/"; variant := Some accent; isActive := None;
       ariaLabel := Some (lit "Start a new chat conversation") |};
    {| id := lit "home"; icon := Home; label := lit "Home";
       path := lit "/"; variant := None; isActive := Some true;
       ariaLabel := Some (lit "Go to home page") |};
    {| id := lit "history"; icon := History; label := lit "History";
       path := lit "/history"; variant := None; isActive := None;
       ariaLabel := Some (lit "View chat history") |} ].

Definition bottomNavigationItems : list NavigationItem := [].

Definition allNavigationItems : list NavigationItem :=
  mainNavigationItems ++ bottomNavigationItems.

Definition findNavigationItemById (id' : jsstring) : option NavigationItem :=
  find (fun item => strEq (id item) id') allNavigationItems.

Definition updateActiveNavigationItem (activeId : jsstring)
  : list NavigationItem :=
  map (fun item =>
         {| id := id item; icon := icon item; label := label item;
            path := path item; variant := variant item;
            isActive := Some (strEq (id item) activeId);
            ariaLabel := ariaLabel item |})
      allNavigationItems.

End Navigation.

(* ================================================================== *)
(** ** [src/lib/historyStorage.ts] *)
(* ================================================================== *)

Module HistoryStorage.

Inductive HistoryType := search | chat | interaction.

Record Metadata := {
  resultCount : option nat;
  duration : option nat;
  messageCount : option nat;
  conversationId : option jsstring
}.

(** [HistoryItem] of [types/history]; a time stamp is a number of
    milliseconds, and the messages of a conversation have the fields of
    [ChatMessage] above. *)
Record HistoryItem := {
  id : jsstring;
  title : jsstring;
  description : option jsstring;
  timestamp : nat;
  type : HistoryType;
  conversation : list ChatMessage;
  metadata : option Metadata
}.

Definition MAX_HISTORY_ITEMS : nat := 100.

(** What local storage holds under the key of the history: nothing, a
    text that [JSON.parse] rejects or that is not the text of an array,
    or the text of an array of history items, as [saveHistoryItems]
    writes it; the model keeps the items the text stands for. *)
Inductive Stored :=
| Absent
| Unreadable
| Items (items : list HistoryItem).

Definition loadHistoryItems (st : Stored) : list HistoryItem :=
  match st with
  | Items items => items
  | _ => []
  end.

(** [writes] tells whether [localStorage.setItem] succeeds; when it
    throws, the error is logged and the storage is as before. *)
Definition saveHistoryItems (writes : bool) (st : Stored)
           (items : list HistoryItem) : Stored :=
  if writes then Items (firstn MAX_HISTORY_ITEMS items) else st.

(** [array.findIndex(p)]; [None] is [-1]. *)
Fixpoint findIndex {A : Type} (p : A -> bool) (l : list A) : option nat :=
  match l with
  | [] => None
  | x :: l' => if p x then Some 0
               else match findIndex p l' with
                    | Some i => Some (S i)
                    | None => None
                    end
  end.

(** [array[i] = x] for an index within the array. *)
Fixpoint setAt {A : Type} (i : nat) (x : A) (l : list A) : list A :=
  match l, i with
  | [], _ => []
  | _ :: l', 0 => x :: l'
  | y :: l', S i' => y :: setAt i' x l'
  end.

Definition stamped (now : nat) (item : HistoryItem) : HistoryItem :=
  {| id := id item; title := title item; description := description item;
     timestamp := now; type := type item;
     conversation := conversation item; metadata := metadata item |}.

(** [now] is what [new Date()] reads. *)
Definition upsertHistoryItem (writes : bool) (now : nat) (st : Stored)
           (item : HistoryItem) : Stored :=
  let currentItems := loadHistoryItems st in
  match findIndex (fun existing => strEq (id existing) (id item))
                  currentItems with
  | Some existingIndex =>
      saveHistoryItems writes st
        (setAt existingIndex (stamped now item) currentItems)
  | None =>
      saveHistoryItems writes st (stamped now item :: currentItems)
  end.

Definition addHistoryItem := upsertHistoryItem.

Definition deleteHistoryItem (writes : bool) (st : Stored) (id' : jsstring)
  : Stored :=
  let currentItems := loadHistoryItems st in
  let filteredItems :=
    filter (fun item => negb (strEq (id item) id')) currentItems in
  saveHistoryItems writes st filteredItems.

Definition clearHistoryItems (st : Stored) : Stored := Absent.

Definition getHistoryItemCount (st : Stored) : nat :=
  length (loadHistoryItems st).

Definition findHistoryItemById (st : Stored) (id' : jsstring)
  : option HistoryItem :=
  find (fun item => strEq (id item) id') (loadHistoryItems st).

Definition historyTypeEq (a b : HistoryType) : bool :=
  match a, b with
  | search, search | chat, chat | interaction, interaction => true
  | _, _ => false
  end.

Definition getHistoryItemsByType (st : Stored) (type' : HistoryType)
  : list HistoryItem :=
  filter (fun item => historyTypeEq (type item) type') (loadHistoryItems st).

End HistoryStorage.

(* ================================================================== *)
(** ** The error snippet of the chat message component *)
(* ================================================================== *)

Module ChatMessageView.

Local Open Scope regex_scope.

Definition isDigit (c : ascii) : bool :=
  (48 <=? code c) && (code c <=? 57).

(** [/line (\d+)/] *)
Definition reLine : regex :=
  str "line " ;; Grp 1 (Cls isDigit ;; Star true (Cls isDigit)).

(** [parseInt] on a run of decimal digits. *)
Definition parseInt (digits : jsstring) : nat :=
  fold_left (fun n c => 10 * n + (code c - 48)) digits 0.

(** [s.split(sep)] for a separator of one character. *)
Fixpoint split (sep : ascii) (s : jsstring) : list jsstring :=
  match s with
  | [] => [[]]
  | c :: s' =>
      if Ascii.eqb c sep then [] :: split sep s'
      else match split sep s' with
           | line :: lines => (c :: line) :: lines
           | [] => [[c]]
           end
  end.

(** [s.substring(0, n)] *)
Definition substring0 (n : nat) (s : jsstring) : jsstring := firstn n s.

(** [message] is [error.message], [None] when there is none. *)
Definition extractErrorSnippet (message : option jsstring)
           (script : jsstring) : jsstring :=
  match message with
  | Some msg =>
      match exec noFlags reLine msg with
      | Some lineMatch =>
          match group 1 (groups lineMatch) with
          | Some digits =>
              let lines := split "010"%char script in
              match parseInt digits with
              | 0 => substring0 100 script
              | S lineNumber =>
                  match nth_error lines lineNumber with
                  | Some line => line
                  | None => substring0 100 script
                  end
              end
          | None => substring0 100 script
          end
      | None => substring0 100 script
      end
  | None => substring0 100 script
  end.

End ChatMessageView.

(** The requests of a trace, in order: attempt number and prompt. *)
Definition requestsOf (tr : Trace) : list (nat * jsstring) :=
  flat_map (fun ev => match ev with
                      | Request attempt prompt => [(attempt, prompt)]
                      | _ => []
                      end) tr.

(** The executor of an attempt ends with a text that the orchestrator
    accepts: the sentinel, or a text whose cleaned form is valid. *)
Definition attemptAccepts (backend : Backend) (conversationContent : jsstring)
           (attempt : nat) : bool :=
  match backend attempt (getPromptForAttempt attempt conversationContent) with
  | Streamed chunks =>
      let result := trim (accumulate chunks) in
      truthy result
      && (strEq result NO_DIAGRAM
          || validateMermaidScript (cleanMermaidScript result))
  | _ => false
  end.

Unset Implicit Arguments.

(* ================================================================== *)
(** ** Properties of the string primitives *)
(* ================================================================== *)

Section StringFacts.

Lemma dropWhile_split (p : ascii -> bool) (s : jsstring) :
  exists w, s = w ++ dropWhile p s /\ forallb p w = true.
Proof.
  induction s as [|c s IH]; simpl.
  - exists []. split; reflexivity.
  - destruct (p c) eqn:Hc.
    + destruct IH as [w [Hs Hw]]. exists (c :: w). simpl.
      rewrite Hc, Hw. split; [congruence | reflexivity].
    + exists []. split; reflexivity.
Qed.

Lemma dropWhile_head (p : ascii -> bool) (s : jsstring) c t :
  dropWhile p s = c :: t -> p c = false.
Proof.
  induction s as [|d s IH]; simpl; [discriminate|].
  destruct (p d) eqn:Hd; [assumption|].
  intros E. injection E as -> _. assumption.
Qed.

Lemma dropWhile_length (p : ascii -> bool) (s : jsstring) :
  length (dropWhile p s) <= length s.
Proof.
  induction s as [|c s IH]; simpl; [lia|].
  destruct (p c); simpl; lia.
Qed.

Lemma dropWhile_count (p : ascii -> bool) (s : jsstring) (c : ascii) :
  p c = false ->
  count_occ ascii_dec (dropWhile p s) c = count_occ ascii_dec s c.
Proof.
  intros Hc. induction s as [|d s IH]; simpl; [reflexivity|].
  destruct (p d) eqn:Hd; [|reflexivity].
  rewrite IH. destruct (ascii_dec d c) as [->|]; [congruence | reflexivity].
Qed.

Lemma dropWhile_all (p : ascii -> bool) (w s : jsstring) :
  forallb p w = true -> dropWhile p (w ++ s) = dropWhile p s.
Proof.
  induction w as [|c w IH]; simpl; [reflexivity|].
  intros H. apply andb_true_iff in H as [Hc Hw]. rewrite Hc. auto.
Qed.

Lemma dropWhile_stop (p : ascii -> bool) (c : ascii) (s : jsstring) :
  p c = false -> dropWhile p (c :: s) = c :: s.
Proof. intros H. simpl. rewrite H. reflexivity. Qed.

Lemma forallb_rev (p : ascii -> bool) (s : jsstring) :
  forallb p (rev s) = forallb p s.
Proof.
  induction s as [|d s IH]; simpl; [reflexivity|].
  rewrite forallb_app, IH. simpl. rewrite andb_true_r. apply andb_comm.
Qed.

Lemma count_occ_rev (s : jsstring) (c : ascii) :
  count_occ ascii_dec (rev s) c = count_occ ascii_dec s c.
Proof.
  induction s as [|d s IH]; simpl; [reflexivity|].
  rewrite count_occ_app, IH. simpl.
  destruct (ascii_dec d c); lia.
Qed.

Lemma trim_length (s : jsstring) : length (trim s) <= length s.
Proof.
  unfold trim, trimEnd, trimStart.
  rewrite length_rev.
  etransitivity; [apply dropWhile_length|].
  rewrite length_rev. apply dropWhile_length.
Qed.

Lemma trim_count (s : jsstring) (c : ascii) :
  isWhiteSpace c = false ->
  count_occ ascii_dec (trim s) c = count_occ ascii_dec s c.
Proof.
  intros Hc. unfold trim, trimEnd, trimStart.
  rewrite count_occ_rev, dropWhile_count, count_occ_rev, dropWhile_count;
    auto.
Qed.

(** A text with white space around it is trimmed to the text, when the
    text itself is not empty and neither starts nor ends with white
    space. *)
Lemma trim_padded (l u r : jsstring) :
  forallb isWhiteSpace l = true -> forallb isWhiteSpace r = true ->
  u <> [] ->
  dropWhile isWhiteSpace u = u ->
  dropWhile isWhiteSpace (rev u) = rev u ->
  trim (l ++ u ++ r) = u.
Proof.
  intros Hl Hr Hne Hu Hv. unfold trim, trimEnd, trimStart.
  rewrite dropWhile_all by assumption.
  destruct u as [|c u']; [congruence|].
  assert (Hc : isWhiteSpace c = false)
    by (eapply dropWhile_head; exact Hu).
  rewrite <- app_comm_cons, dropWhile_stop by assumption.
  rewrite app_comm_cons, rev_app_distr.
  rewrite dropWhile_all by (rewrite forallb_rev; assumption).
  rewrite Hv. apply rev_involutive.
Qed.

Lemma dropWhile_idem (p : ascii -> bool) (s : jsstring) :
  dropWhile p (dropWhile p s) = dropWhile p s.
Proof.
  induction s as [|c s IH]; simpl; [reflexivity|].
  destruct (p c) eqn:Hc; [assumption|]. simpl. rewrite Hc. reflexivity.
Qed.

(** The trimmed text is the text without a white-space prefix and a
    white-space suffix, and it has no white space at its two ends. *)
Lemma trim_split (s : jsstring) :
  exists l r,
    s = l ++ trim s ++ r
    /\ forallb isWhiteSpace l = true /\ forallb isWhiteSpace r = true
    /\ dropWhile isWhiteSpace (trim s) = trim s
    /\ dropWhile isWhiteSpace (rev (trim s)) = rev (trim s).
Proof.
  unfold trim, trimEnd, trimStart.
  destruct (dropWhile_split isWhiteSpace s) as [l [Hs Hl]].
  remember (dropWhile isWhiteSpace s) as u eqn:Eu.
  destruct (dropWhile_split isWhiteSpace (rev u)) as [r [Hu Hr]].
  remember (dropWhile isWhiteSpace (rev u)) as v eqn:Ev.
  assert (Eu' : u = rev v ++ rev r).
  { rewrite <- (rev_involutive u), Hu, rev_app_distr. reflexivity. }
  exists l, (rev r). repeat split.
  - rewrite Hs at 1. rewrite <- Eu'. reflexivity.
  - assumption.
  - rewrite forallb_rev. assumption.
  - destruct (rev v) as [|c t] eqn:Erv; [reflexivity|].
    apply dropWhile_stop. apply (dropWhile_head isWhiteSpace s c (t ++ rev r)).
    rewrite <- Eu, Eu'. reflexivity.
  - rewrite rev_involutive, Ev. apply dropWhile_idem.
Qed.

Lemma trim_idem (s : jsstring) : trim (trim s) = trim s.
Proof.
  destruct (trim_split s) as [l [r [_ [_ [_ [H1 H2]]]]]].
  unfold trim at 1. unfold trimEnd, trimStart.
  rewrite H1, H2. apply rev_involutive.
Qed.

End StringFacts.

(* ================================================================== *)
(** ** Properties of the matcher *)
(* ================================================================== *)

Section MatcherFacts.

Variable fl : flags.

Lemma advance_nil (st : mstate) : advance st [] (rest st) = st.
Proof. destruct st. reflexivity. Qed.

Lemma advance_nil_eq (st : mstate) (s : jsstring) :
  rest st = s -> advance st [] s = st.
Proof. intros <-. apply advance_nil. Qed.

Lemma advance_step (st : mstate) (x : ascii) (mid w s' : jsstring) :
  advance (step st x mid) w s' = advance st (x :: w) s'.
Proof. reflexivity. Qed.

(** A starred character class, one iteration unfolded. *)
Lemma star_cls_unfold (g : bool) (p : ascii -> bool) (st : mstate)
      (k : cont) :
  rmatch fl (Star g (Cls p)) st k =
  match rest st with
  | x :: s' =>
      if p x then
        if g then
          match rmatch fl (Star g (Cls p)) (step st x s') k with
          | Some res => Some res
          | None => k st
          end
        else
          match k st with
          | Some res => Some res
          | None => rmatch fl (Star g (Cls p)) (step st x s') k
          end
      else k st
  | [] => k st
  end.
Proof.
  cbn [rmatch]. destruct (rest st) as [|x s'] eqn:E; [reflexivity|].
  cbn [length starLoop]. cbn [rmatch]. rewrite E.
  destruct (p x).
  - cbn [step rest length].
    assert (Hlt : (length s' <? S (length s')) = true)
      by (apply Nat.ltb_lt; lia).
    rewrite Hlt. reflexivity.
  - destruct g; [reflexivity|]. destruct (k st); reflexivity.
Qed.

(** A greedy starred class that runs over [w] and stops there: the
    continuation is first tried after all of [w]. *)
Lemma star_greedy_run (p : ascii -> bool) (k : cont) (w s' : jsstring)
      res :
  forallb p w = true ->
  match s' with [] => True | x :: _ => p x = false end ->
  forall st, rest st = w ++ s' ->
  k (advance st w s') = Some res ->
  rmatch fl (Star true (Cls p)) st k = Some res.
Proof.
  intros Hw Hstop. induction w as [|c w IH]; intros st Hrest Hk.
  - cbn [app] in Hrest. rewrite star_cls_unfold.
    rewrite <- Hrest, advance_nil in Hk. rewrite Hrest.
    destruct s' as [|x s'']; [exact Hk|]. rewrite Hstop. exact Hk.
  - cbn [forallb] in Hw. apply andb_true_iff in Hw as [Hc Hw].
    rewrite star_cls_unfold. cbn [app] in Hrest. rewrite Hrest, Hc.
    rewrite (IH Hw (step st c (w ++ s')) eq_refl Hk). reflexivity.
Qed.

(** A lazy starred class: the continuation is tried after each prefix
    of the input in turn, the shortest first. *)
Lemma star_lazy_run (p : ascii -> bool) (k : cont) (w s' : jsstring)
      res :
  forallb p w = true ->
  forall st, rest st = w ++ s' ->
  (forall w1 w2, w = w1 ++ w2 -> w2 <> [] ->
                 k (advance st w1 (w2 ++ s')) = None) ->
  k (advance st w s') = Some res ->
  rmatch fl (Star false (Cls p)) st k = Some res.
Proof.
  intros Hw. induction w as [|c w IH]; intros st Hrest Hfail Hk.
  - cbn [app] in Hrest. rewrite star_cls_unfold.
    rewrite <- Hrest, advance_nil in Hk. rewrite Hk.
    destruct (rest st) as [|x s'']; [reflexivity|].
    destruct (p x); reflexivity.
  - cbn [forallb] in Hw. apply andb_true_iff in Hw as [Hc Hw].
    rewrite star_cls_unfold. cbn [app] in Hrest. rewrite Hrest, Hc.
    assert (H0 : k st = None).
    { specialize (Hfail [] (c :: w) eq_refl). cbn [app] in Hfail.
      rewrite <- Hrest, advance_nil in Hfail. apply Hfail. discriminate. }
    rewrite H0.
    apply (IH Hw (step st c (w ++ s')) eq_refl); [|exact Hk].
    intros w1 w2 E Hne. rewrite advance_step.
    apply Hfail; [|exact Hne]. rewrite E. reflexivity.
Qed.

(** What a starred class has consumed when the match succeeds. *)
Lemma star_cls_inv (g : bool) (p : ascii -> bool) (k : cont) res :
  forall s st, rest st = s ->
  rmatch fl (Star g (Cls p)) st k = Some res ->
  exists w s', s = w ++ s' /\ forallb p w = true
               /\ k (advance st w s') = Some res.
Proof.
  induction s as [|x s IH]; intros st Hrest; rewrite star_cls_unfold, Hrest.
  - intros Hk. exists [], []. rewrite (advance_nil_eq st [] Hrest). auto.
  - assert (Hhere : k st = Some res ->
                    exists w s', x :: s = w ++ s' /\ forallb p w = true
                                 /\ k (advance st w s') = Some res).
    { intros Hk. exists [], (x :: s).
      rewrite (advance_nil_eq st (x :: s) Hrest). auto. }
    assert (Hnext : rmatch fl (Star g (Cls p)) (step st x s) k = Some res ->
                    p x = true ->
                    exists w s', x :: s = w ++ s' /\ forallb p w = true
                                 /\ k (advance st w s') = Some res).
    { intros Hm Hx. destruct (IH (step st x s) eq_refl Hm)
        as [w [s' [E [Hw Hk]]]].
      exists (x :: w), s'. cbn [forallb app]. rewrite Hx, Hw, E.
      rewrite advance_step in Hk. auto. }
    destruct (p x) eqn:Hx; [|exact Hhere].
    destruct g.
    + destruct (rmatch fl (Star true (Cls p)) (step st x s) k) eqn:Hm.
      * intros E. injection E as ->. auto.
      * exact Hhere.
    + destruct (k st) eqn:Hk.
      * intros E. injection E as ->. auto.
      * intros Hm. auto.
Qed.

Lemma opt_take (r : regex) (st : mstate) (k : cont) res :
  rmatch fl r st k = Some res -> rmatch fl (Opt r) st k = Some res.
Proof. intros H. cbn [rmatch]. rewrite H. reflexivity. Qed.

Lemma opt_skip (r : regex) (st : mstate) (k : cont) :
  rmatch fl r st k = None -> rmatch fl (Opt r) st k = k st.
Proof. intros H. cbn [rmatch]. rewrite H. reflexivity. Qed.

End MatcherFacts.

Section LiteralFacts.

Lemma lastBefore_app (b : option ascii) (w1 w2 : jsstring) :
  lastBefore (lastBefore b w1) w2 = lastBefore b (w1 ++ w2).
Proof. unfold lastBefore. rewrite fold_left_app. reflexivity. Qed.

Lemma advance_app (st : mstate) (w1 mid w2 s' : jsstring) :
  advance (advance st w1 mid) w2 s' = advance st (w1 ++ w2) s'.
Proof. unfold advance. cbn. rewrite lastBefore_app. reflexivity. Qed.

Lemma rmatch_cat (fl : flags) (r1 r2 : regex) (st : mstate) (k : cont) :
  rmatch fl (Cat r1 r2) st k
  = rmatch fl r1 st (fun st' => rmatch fl r2 st' k).
Proof. reflexivity. Qed.

(** A literal run of characters, matched case-sensitively. *)
Lemma chars_run (p s' : jsstring) (k : cont) :
  forall st, rest st = p ++ s' ->
  rmatch noFlags (chars p) st k = k (advance st p s').
Proof.
  induction p as [|c p IH]; intros st Hrest.
  - cbn [chars rmatch]. rewrite (advance_nil_eq st s' Hrest). reflexivity.
  - destruct p as [|c' p'].
    + cbn [chars rmatch]. rewrite Hrest. cbn [app].
      unfold charMatches. cbn [ignoreCase noFlags].
      rewrite Ascii.eqb_refl. reflexivity.
    + change (chars (c :: c' :: p'))
        with (Cat (Chr c) (chars (c' :: p'))).
      cbn [rmatch]. rewrite Hrest. cbn [app].
      unfold charMatches at 1. cbn [ignoreCase noFlags].
      rewrite Ascii.eqb_refl.
      apply (IH (step st c ((c' :: p') ++ s')) eq_refl).
Qed.

Lemma chars_inv (p : jsstring) (k : cont) res :
  forall st, rmatch noFlags (chars p) st k = Some res ->
  exists s', rest st = p ++ s' /\ k (advance st p s') = Some res.
Proof.
  induction p as [|c p IH]; intros st.
  - cbn [chars rmatch]. intros Hk. exists (rest st).
    rewrite advance_nil. auto.
  - assert (Hchr : forall k',
               match rest st with
               | x :: s' =>
                   if charMatches noFlags c x then k' (step st x s')
                   else None
               | [] => None
               end = Some res ->
               exists s', rest st = c :: s' /\ k' (step st c s') = Some res).
    { intros k'. destruct (rest st) as [|x s']; [discriminate|].
      unfold charMatches. cbn [ignoreCase noFlags].
      destruct (Ascii.eqb c x) eqn:E; [|discriminate].
      apply Ascii.eqb_eq in E. subst x. eauto. }
    destruct p as [|c' p'].
    + cbn [chars rmatch]. intros H. apply (Hchr k) in H as [s' [E Hk]].
      exists s'. auto.
    + change (chars (c :: c' :: p'))
        with (Cat (Chr c) (chars (c' :: p'))).
      cbn [rmatch]. intros H.
      apply (Hchr (fun st' => rmatch noFlags (chars (c' :: p')) st' k))
        in H as [s1 [E H]].
      apply IH in H as [s' [E' Hk]]. cbn [rest step] in E'.
      exists s'. rewrite E, E'. auto.
Qed.

Lemma chars_fail (c1 c2 c3 : ascii) (p : jsstring) (fl : flags)
      (x1 x2 : ascii) (s' : jsstring) (st : mstate) (k : cont) :
  rest st = x1 :: x2 :: s' ->
  charMatches fl c1 x1 && charMatches fl c2 x2 = false ->
  rmatch fl (chars (c1 :: c2 :: c3 :: p)) st k = None.
Proof.
  intros Hrest Hblk.
  change (chars (c1 :: c2 :: c3 :: p))
    with (Cat (Chr c1) (Cat (Chr c2) (chars (c3 :: p)))).
  cbn [rmatch]. rewrite Hrest.
  destruct (charMatches fl c1 x1); [|reflexivity].
  cbn [step rest]. cbn [andb] in Hblk. rewrite Hblk. reflexivity.
Qed.

End LiteralFacts.

Section WrapperFacts.

Local Open Scope regex_scope.

Lemma backtick_not_space : isWhiteSpace "`"%char = false.
Proof. reflexivity. Qed.

Lemma firstn_app_exact (a b : jsstring) :
  firstn (length (a ++ b) - length b) (a ++ b) = a.
Proof.
  rewrite length_app. replace (length a + length b - length b)
    with (length a + 0) by lia.
  rewrite firstn_app_2. cbn. apply app_nil_r.
Qed.

(** The closing fence matches white space followed by the fence at the
    end of the input. *)
Lemma closingFence_run (a : jsstring) (k : cont) res :
  forallb isWhiteSpace a = true ->
  forall st, rest st = a ++ lit "```" ->
  k (advance st (a ++ lit "```") []) = Some res ->
  rmatch noFlags closingFence st k = Some res.
Proof.
  intros Ha st Hrest Hk. unfold closingFence. rewrite rmatch_cat.
  apply (star_greedy_run noFlags isWhiteSpace _ a (lit "```") res Ha).
  { exact backtick_not_space. }
  { exact Hrest. }
  rewrite rmatch_cat.
  rewrite (chars_run (lit "```") [] _ (advance st a (lit "```")))
    by reflexivity.
  rewrite rmatch_cat.
  apply (star_greedy_run noFlags isWhiteSpace _ [] [] res eq_refl I).
  { reflexivity. }
  cbn [rmatch]. rewrite !advance_app. rewrite app_nil_r.
  exact Hk.
Qed.

(** The closing fence matches nothing else. *)
Lemma closingFence_inv (k : cont) res (st : mstate) :
  rmatch noFlags closingFence st k = Some res ->
  exists a b, rest st = a ++ lit "```" ++ b
              /\ forallb isWhiteSpace a = true
              /\ forallb isWhiteSpace b = true.
Proof.
  unfold closingFence. rewrite rmatch_cat. intros H.
  apply (star_cls_inv noFlags true isWhiteSpace _ res (rest st) st eq_refl)
    in H as [a [s1 [E1 [Ha H]]]].
  rewrite rmatch_cat in H.
  apply chars_inv in H as [s2 [E2 H]]. cbn [rest advance] in E2.
  rewrite rmatch_cat in H.
  apply (star_cls_inv noFlags true isWhiteSpace _ res _ _ eq_refl)
    in H as [b [s3 [E3 [Hb H]]]].
  cbn [rest advance] in E3.
  cbn [rmatch] in H. unfold atLineEnd in H. cbn [rest advance] in H.
  destruct s3 as [|x s3]; [|discriminate H].
  exists a, b. rewrite E1, E2, E3, app_nil_r. auto.
Qed.

(** After a proper prefix of a text that ends with a character that is
    not white space, the closing fence does not match: the fence would
    have to be the end of the input, and the end of the text white
    space. *)
Lemma closingFence_fails (w2 v : jsstring) (k : cont) (st : mstate) :
  w2 <> [] ->
  dropWhile isWhiteSpace (rev w2) = rev w2 ->
  forallb isWhiteSpace v = true ->
  rest st = w2 ++ v ++ lit "```" ->
  rmatch noFlags closingFence st k = None.
Proof.
  intros Hne Hend Hv Hrest.
  destruct (rmatch noFlags closingFence st k) as [res|] eqn:H;
    [exfalso|reflexivity].
  apply closingFence_inv in H as [a [b [E [Ha Hb]]]].
  rewrite Hrest in E.
  (* the input ends with the fence, so [b] is empty *)
  assert (Eb : b = []).
  { destruct (rev b) as [|y b'] eqn:Erb.
    - apply (f_equal (@rev ascii)) in Erb. rewrite rev_involutive in Erb.
      exact Erb.
    - exfalso. apply (f_equal (@rev ascii)) in E.
      rewrite !rev_app_distr, Erb in E. cbn in E.
      injection E as Ey _. 
      assert (Hy : isWhiteSpace y = true).
      { rewrite <- forallb_rev, Erb in Hb. cbn in Hb.
        apply andb_true_iff in Hb as [Hy _]. exact Hy. }
      subst y. discriminate Hy. }
  subst b. rewrite app_nil_r in E.
  rewrite !app_assoc in E. apply app_inv_tail in E.
  (* so the text is white space to its end *)
  assert (Hall : forallb isWhiteSpace w2 = true).
  { rewrite <- E in Ha. rewrite forallb_app in Ha.
    apply andb_true_iff in Ha as [Ha _]. exact Ha. }
  destruct (rev w2) as [|y w'] eqn:Erw.
  - apply Hne. apply (f_equal (@rev ascii)) in Erw.
    rewrite rev_involutive in Erw. exact Erw.
  - rewrite <- forallb_rev, Erw in Hall. cbn in Hall.
    apply andb_true_iff in Hall as [Hy _].
    apply dropWhile_head in Hend. congruence.
Qed.

End WrapperFacts.

Section WrapperMatch.

Local Open Scope regex_scope.

Lemma rmatch_bol (fl : flags) (st : mstate) (k : cont) :
  before st = None -> rmatch fl Bol st k = k st.
Proof. intros H. cbn [rmatch]. unfold atLineStart. rewrite H. reflexivity. Qed.

Lemma rmatch_grp (fl : flags) (n : nat) (r : regex) (st : mstate)
      (k : cont) :
  rmatch fl (Grp n r) st k
  = rmatch fl r st (fun st' =>
      k {| before := before st';
           rest := rest st';
           caps := (n, firstn (length (rest st) - length (rest st'))
                              (rest st)) :: caps st' |}).
Proof. reflexivity. Qed.

Lemma chars_fail_first (c1 c2 : ascii) (p : jsstring) (fl : flags)
      (x : ascii) (s' : jsstring) (st : mstate) (k : cont) :
  rest st = x :: s' ->
  charMatches fl c1 x = false ->
  rmatch fl (chars (c1 :: c2 :: p)) st k = None.
Proof.
  intros Hrest Hblk.
  change (chars (c1 :: c2 :: p)) with (Cat (Chr c1) (chars (c2 :: p))).
  cbn [rmatch]. rewrite Hrest, Hblk. reflexivity.
Qed.

Lemma anyChar_all (w : jsstring) :
  forallb (fun c => isWhiteSpace c || negb (isWhiteSpace c)) w = true.
Proof.
  induction w as [|c w IH]; [reflexivity|]. cbn [forallb].
  rewrite IH. destruct (isWhiteSpace c); reflexivity.
Qed.

(** A non-empty suffix of a text that does not end with white space
    does not end with white space. *)
Lemma suffix_end (w1 w2 : jsstring) :
  w2 <> [] ->
  dropWhile isWhiteSpace (rev (w1 ++ w2)) = rev (w1 ++ w2) ->
  dropWhile isWhiteSpace (rev w2) = rev w2.
Proof.
  intros Hne H. rewrite rev_app_distr in H.
  destruct (rev w2) as [|y w'] eqn:E.
  - reflexivity.
  - cbn [app] in H. apply dropWhile_head in H.
    apply dropWhile_stop. exact H.
Qed.

(** The wrapper pattern on a fenced text: the capture is the text
    between the fences without the white space around it. *)
Lemma wrapper_matchAt (tag u t v : jsstring) (x1 x2 : ascii)
      (t' : jsstring) :
  tag = [] \/ tag = lit "mermaid" ->
  forallb isWhiteSpace u = true -> forallb isWhiteSpace v = true ->
  t = x1 :: x2 :: t' ->
  dropWhile isWhiteSpace t = t ->
  dropWhile isWhiteSpace (rev t) = rev t ->
  charMatches noFlags "m"%char x1 && charMatches noFlags "e"%char x2
  = false ->
  exists st,
    matchAt noFlags wrapperRegex None
            (lit "```" ++ tag ++ u ++ t ++ v ++ lit "```") = Some st
    /\ caps st = [(1, t)].
Proof.
  intros Htag Hu Hv Et Hstart Hend Hblk.
  assert (Hx1 : isWhiteSpace x1 = false).
  { rewrite Et in Hstart. eapply dropWhile_head. exact Hstart. }
  exists {| before := Some "`"%char; rest := []; caps := [(1, t)] |}.
  split.
  - unfold matchAt, wrapperRegex.
    rewrite rmatch_cat, rmatch_bol by reflexivity.
    rewrite rmatch_cat.
    eapply (star_greedy_run noFlags isWhiteSpace _ []
              (lit "```" ++ tag ++ u ++ t ++ v ++ lit "```") _ eq_refl).
    { reflexivity. }
    { reflexivity. }
    rewrite rmatch_cat.
    rewrite (chars_run (lit "```") (tag ++ u ++ t ++ v ++ lit "```"))
      by reflexivity.
    rewrite rmatch_cat.
    (* the tag *)
    assert (Hafter : forall st1,
               rest st1 = u ++ t ++ v ++ lit "```" ->
               caps st1 = [] ->
               rmatch noFlags
                 (Star true space ;; Grp 1 (Star false anyChar) ;;
                  Star true space ;; str "```" ;; Star true space ;; Eol)
                 st1 Some
               = Some {| before := Some "`"%char; rest := [];
                         caps := [(1, t)] |}).
    { intros st1 Hrest1 Hcaps1. rewrite rmatch_cat.
      eapply (star_greedy_run noFlags isWhiteSpace _ u
                (t ++ v ++ lit "```") _ Hu).
      { rewrite Et. exact Hx1. }
      { exact Hrest1. }
      rewrite rmatch_cat, rmatch_grp.
      eapply (star_lazy_run noFlags _ _ t (v ++ lit "```") _
                (anyChar_all t)).
      { reflexivity. }
      { intros w1 w2 E Hne. cbn [rest advance before caps].
        apply (closingFence_fails w2 v); auto.
        apply (suffix_end w1); [exact Hne|]. rewrite <- E. exact Hend. }
      cbn [rest advance before caps].
      eapply (closingFence_run v _ _ Hv).
      { reflexivity. }
      cbn [rest advance before caps].
      rewrite firstn_app_exact, Hcaps1.
      unfold advance. cbn [before rest caps].
      rewrite <- lastBefore_app. reflexivity. }
    destruct Htag as [-> | ->].
    + rewrite opt_skip.
      * apply Hafter; reflexivity.
      * cbn [app rest advance].
        destruct u as [|c u'].
        -- cbn [app]. rewrite Et.
           apply (chars_fail "m" "e" "r" (lit "maid") noFlags x1 x2
                             (t' ++ v ++ lit "```")); [reflexivity|exact Hblk].
        -- apply (chars_fail_first "m" "e" (lit "rmaid") noFlags c
                    (u' ++ t ++ v ++ lit "```")); [reflexivity|].
           cbn [forallb] in Hu. apply andb_true_iff in Hu as [Hc _].
           unfold charMatches. cbn [ignoreCase noFlags].
           destruct (Ascii.eqb "m" c) eqn:E; [|reflexivity].
           apply Ascii.eqb_eq in E. subst c. discriminate Hc.
    + apply opt_take.
      rewrite (chars_run (lit "mermaid") (u ++ t ++ v ++ lit "```"))
        by reflexivity.
      apply Hafter; reflexivity.
  - reflexivity.
Qed.

End WrapperMatch.

(* ================================================================== *)
(** ** Properties of the validator *)
(* ================================================================== *)

Section ValidatorFacts.

(** The number of matches of a one-character pattern with the [g] flag
    is the number of occurrences of the character. *)
Lemma matchGlobal_chr (c : ascii) (s : jsstring) (prev : option ascii) :
  length (matchGlobal noFlags (Chr c) prev s 0) = count_occ ascii_dec s c.
Proof.
  revert prev. induction s as [|x s IH]; intros prev; [reflexivity|].
  cbn -[Nat.sub firstn]. unfold charMatches. cbn -[Nat.sub firstn].
  destruct (Ascii.eqb c x) eqn:E.
  - apply Ascii.eqb_eq in E. subst x.
    cbn -[Nat.sub firstn].
    replace (S (length s) - length s) with 1 by lia.
    cbn. rewrite IH.
    destruct (ascii_dec c c); [reflexivity | congruence].
  - apply Ascii.eqb_neq in E. rewrite IH.
    destruct (ascii_dec x c); [congruence | reflexivity].
Qed.

Lemma countMatches_chr (c : ascii) (s : jsstring) :
  countMatches noFlags (Chr c) s = count_occ ascii_dec s c.
Proof. apply matchGlobal_chr. Qed.

(** What the validator has checked when it accepts. *)
Lemma validate_true_inv (script : jsstring) :
  validateMermaidScript script = true ->
  truthy script = true
  /\ minScriptLength mermaidGenerationConfig <= length (trim script)
  /\ length (trim script) <= maxScriptLength mermaidGenerationConfig
  /\ existsb (fun type =>
                startsWith (toLowerCase (trim script)) (toLowerCase type))
             (validDiagramTypes mermaidGenerationConfig) = true
  /\ countMatches noFlags reOpen (trim script)
     = countMatches noFlags reClose (trim script).
Proof.
  unfold validateMermaidScript. cbv zeta.
  destruct (truthy script); [|discriminate]. cbn [negb].
  destruct (length (trim script) <? minScriptLength mermaidGenerationConfig)
    eqn:Hmin; [discriminate|].
  destruct (maxScriptLength mermaidGenerationConfig <? length (trim script))
    eqn:Hmax; [discriminate|].
  cbn [orb].
  destruct (existsb _ (validDiagramTypes mermaidGenerationConfig)) eqn:Hty;
    [|discriminate].
  cbn [negb].
  destruct (negb (test noFlags reBrackets (trim script)) && _ && _ && _);
    [discriminate|].
  destruct (countMatches noFlags reOpen (trim script)
            =? countMatches noFlags reClose (trim script)) eqn:Hbal;
    [|discriminate].
  intros _.
  apply Nat.ltb_ge in Hmin. apply Nat.ltb_ge in Hmax.
  apply Nat.eqb_eq in Hbal.
  repeat split; assumption.
Qed.

(** The validator depends on its argument through the trimmed text
    only, once the argument is not empty. *)
Lemma validate_trim (script : jsstring) :
  truthy (trim script) = true ->
  validateMermaidScript (trim script) = validateMermaidScript script.
Proof.
  intros Ht. unfold validateMermaidScript. cbv zeta.
  rewrite trim_idem, Ht.
  destruct script as [|c s]; [discriminate Ht | reflexivity].
Qed.

End ValidatorFacts.

(** C10: the validator rejects the sentinel string [NO_DIAGRAM]. *)
Theorem validate_rejects_sentinel :
  validateMermaidScript NO_DIAGRAM = false.
Proof. vm_compute. reflexivity. Qed.

(** C6, as stated, fails: a valid script followed by 5000 spaces is
    longer than [maxScriptLength] and is accepted, since the bounds
    apply to the trimmed text. *)
Lemma validate_long_padded_accepted :
  maxScriptLength mermaidGenerationConfig
    < length (loginFlow ++ repeat " "%char 5000)
  /\ validateMermaidScript (loginFlow ++ repeat " "%char 5000) = true.
Proof.
  split; [apply Nat.ltb_lt|]; vm_compute; reflexivity.
Qed.

(** C6, amended: a string whose length after trimming is below
    [minScriptLength] or above [maxScriptLength] is rejected, whatever
    its other content; so is every string whose own length is below
    [minScriptLength]. *)
Theorem validate_rejects_out_of_bounds (script : jsstring) :
  length (trim script) < minScriptLength mermaidGenerationConfig
  \/ maxScriptLength mermaidGenerationConfig < length (trim script)
  \/ length script < minScriptLength mermaidGenerationConfig ->
  validateMermaidScript script = false.
Proof.
  intros H.
  destruct (validateMermaidScript script) eqn:Hv; [|reflexivity].
  apply validate_true_inv in Hv as (_ & Hmin & Hmax & _).
  pose proof (trim_length script). lia.
Qed.

Lemma validate_rejects_out_of_bounds_witness :
  validateMermaidScript (lit "graph TD") = false.
Proof.
  apply validate_rejects_out_of_bounds.
  left. apply Nat.ltb_lt. vm_compute. reflexivity.
Defined.

(** C9: a string in which the numbers of occurrences of the opening and
    of the closing square bracket differ is rejected. *)
Theorem validate_rejects_unbalanced (script : jsstring) :
  count_occ ascii_dec script "["%char <> count_occ ascii_dec script "]"%char ->
  validateMermaidScript script = false.
Proof.
  intros H.
  destruct (validateMermaidScript script) eqn:Hv; [|reflexivity].
  apply validate_true_inv in Hv as (_ & _ & _ & _ & Hbal).
  unfold reOpen, reClose in Hbal.
  rewrite !countMatches_chr, !trim_count in Hbal by reflexivity.
  contradiction.
Qed.

Lemma validate_rejects_unbalanced_witness :
  validateMermaidScript (loginFlow ++ lit "]") = false.
Proof.
  apply validate_rejects_unbalanced. vm_compute. discriminate.
Defined.

(* ================================================================== *)
(** ** Properties of the cleaner *)
(* ================================================================== *)

Section CleanerFacts.

Local Open Scope regex_scope.

Lemma execFrom_hit (fl : flags) (r : regex) (prev : option ascii)
      (s : jsstring) (idx : nat) (st : mstate) :
  matchAt fl r prev s = Some st ->
  execFrom fl r prev s idx
  = Some {| index := idx;
            matched := firstn (length s - length (rest st)) s;
            after := rest st;
            groups := caps st |}.
Proof. intros H. destruct s; cbn [execFrom]; rewrite H; reflexivity. Qed.

Lemma execFrom_miss (fl : flags) (r : regex) (prev : option ascii)
      (c : ascii) (s : jsstring) (idx : nat) :
  matchAt fl r prev (c :: s) = None ->
  execFrom fl r prev (c :: s) idx = execFrom fl r (Some c) s (S idx).
Proof. intros H. cbn [execFrom]. rewrite H. reflexivity. Qed.

(** A pattern that starts with [^], without the [m] flag, matches at
    the start of the input only. *)
Lemma execFrom_bol_later (fl : flags) (r : regex) (s : jsstring) :
  multiline fl = false ->
  forall c idx, execFrom fl (Cat Bol r) (Some c) s idx = None.
Proof.
  intros Hm. induction s as [|x s IH]; intros c idx; cbn [execFrom];
    unfold matchAt; cbn [rmatch]; unfold atLineStart; cbn [before];
    rewrite Hm; cbn [andb]; [reflexivity | apply IH].
Qed.

(** A prefix pattern whose first two characters do not match the first
    two characters of the text removes nothing. *)
Lemma prefix_no_match (fl : flags) (c1 c2 c3 : ascii) (p : jsstring)
      (r : regex) (x1 x2 : ascii) (s : jsstring) :
  multiline fl = false ->
  charMatches fl c1 x1 && charMatches fl c2 x2 = false ->
  replaceEmpty fl (Bol ;; chars (c1 :: c2 :: c3 :: p) ;; r) (x1 :: x2 :: s)
  = x1 :: x2 :: s.
Proof.
  intros Hm Hblk. unfold replaceEmpty, exec.
  rewrite execFrom_miss.
  - rewrite execFrom_bol_later by exact Hm. reflexivity.
  - unfold matchAt. rewrite rmatch_cat, rmatch_bol by reflexivity.
    rewrite rmatch_cat.
    apply (chars_fail c1 c2 c3 p fl x1 x2 s
             {| before := None; rest := x1 :: x2 :: s; caps := [] |}
             _ eq_refl Hblk).
Qed.

Lemma canonicalize_lower (x : ascii) :
  canonicalize (toLowerCaseChar x) = canonicalize x.
Proof. destruct x as [[] [] [] [] [] [] [] []]; reflexivity. Qed.

Lemma charMatches_lower (fl : flags) (c x : ascii) :
  charMatches fl c x = true ->
  canonicalize (toLowerCaseChar c) = canonicalize (toLowerCaseChar x).
Proof.
  unfold charMatches. destruct (ignoreCase fl); intros H.
  - apply Ascii.eqb_eq in H. rewrite !canonicalize_lower. exact H.
  - apply Ascii.eqb_eq in H. subst. reflexivity.
Qed.

Lemma startsWith_lower_two (t q : jsstring) :
  2 <= length q ->
  startsWith (toLowerCase t) q = true ->
  exists x1 x2 t', t = x1 :: x2 :: t'
                   /\ toLowerCaseChar x1 = nth 0 q zero
                   /\ toLowerCaseChar x2 = nth 1 q zero.
Proof.
  destruct q as [|a [|b q']]; cbn [length]; try lia. intros _.
  destruct t as [|x1 [|x2 t']].
  - discriminate.
  - cbn. rewrite andb_false_r. discriminate.
  - cbn [toLowerCase map startsWith nth]. intros H.
    apply andb_true_iff in H as [H1 H].
    apply andb_true_iff in H as [H2 _].
    apply Ascii.eqb_eq in H1. apply Ascii.eqb_eq in H2.
    exists x1, x2, t'. auto.
Qed.

Lemma types_two_long :
  forallb (fun type => 2 <=? length (toLowerCase type))
          (validDiagramTypes mermaidGenerationConfig) = true.
Proof. vm_compute. reflexivity. Qed.

Lemma valid_typed_start (t : jsstring) :
  existsb (fun type => startsWith (toLowerCase t) (toLowerCase type))
          (validDiagramTypes mermaidGenerationConfig) = true ->
  exists x1 x2 t', t = x1 :: x2 :: t' /\ typedStart x1 x2.
Proof.
  intros H. apply existsb_exists in H as [type [Hin H]].
  pose proof types_two_long as Hlong.
  rewrite forallb_forall in Hlong. specialize (Hlong type Hin).
  apply Nat.leb_le in Hlong.
  apply (startsWith_lower_two t _ Hlong) in H
    as [x1 [x2 [t' [-> [E1 E2]]]]].
  exists x1, x2, t'. split; [reflexivity|].
  unfold typedStart, typeStarts. rewrite E1, E2.
  apply (in_map (fun type => (nth 0 (toLowerCase type) zero,
                              nth 1 (toLowerCase type) zero))).
  exact Hin.
Qed.

(** No pattern start agrees with a type start, case-insensitively. *)
Lemma starts_disjoint :
  forallb (fun ab =>
    forallb (fun c =>
      negb (Ascii.eqb (canonicalize (toLowerCaseChar (fst c)))
                      (canonicalize (fst ab))
            && Ascii.eqb (canonicalize (toLowerCaseChar (snd c)))
                         (canonicalize (snd ab))))
      patternStarts) typeStarts = true.
Proof. vm_compute. reflexivity. Qed.

(** So none of the two-character starts of the prefix patterns, nor
    that of the [mermaid] tag, matches a typed start. *)
Lemma typed_blocks (x1 x2 : ascii) (fl : flags) (c1 c2 : ascii) :
  typedStart x1 x2 ->
  In (c1, c2) patternStarts ->
  charMatches fl c1 x1 && charMatches fl c2 x2 = false.
Proof.
  intros Ht Hc.
  destruct (charMatches fl c1 x1) eqn:M1; [|reflexivity].
  destruct (charMatches fl c2 x2) eqn:M2; [|reflexivity].
  exfalso. apply charMatches_lower in M1, M2.
  pose proof starts_disjoint as H.
  rewrite forallb_forall in H. specialize (H _ Ht).
  rewrite forallb_forall in H. specialize (H _ Hc).
  cbn [fst snd] in H. rewrite M1, M2, !Ascii.eqb_refl in H.
  discriminate H.
Qed.

End CleanerFacts.

Section FencedFacts.

Variables ws1 tag ws2 s ws3 ws4 : jsstring.

Hypothesis Hws1 : forallb isWhiteSpace ws1 = true.
Hypothesis Hws2 : forallb isWhiteSpace ws2 = true.
Hypothesis Hws3 : forallb isWhiteSpace ws3 = true.
Hypothesis Hws4 : forallb isWhiteSpace ws4 = true.

(** The fenced text without the white space around it. *)
Lemma trim_fenced :
  trim (fenced ws1 tag ws2 s ws3 ws4)
  = lit "```" ++ tag ++ ws2 ++ s ++ ws3 ++ lit "```".
Proof.
  unfold fenced.
  replace (ws1 ++ lit "```" ++ tag ++ ws2 ++ s ++ ws3 ++ lit "```" ++ ws4)
    with (ws1 ++ (lit "```" ++ (tag ++ ws2 ++ s ++ ws3) ++ lit "```") ++ ws4)
    by (repeat rewrite <- app_assoc; reflexivity).
  replace (lit "```" ++ tag ++ ws2 ++ s ++ ws3 ++ lit "```")
    with (lit "```" ++ (tag ++ ws2 ++ s ++ ws3) ++ lit "```")
    by (repeat rewrite <- app_assoc; reflexivity).
  apply trim_padded; try assumption.
  - discriminate.
  - reflexivity.
  - rewrite !rev_app_distr. reflexivity.
Qed.

Hypothesis Hvalid : validateMermaidScript s = true.
Hypothesis Htag : tag = [] \/ tag = lit "mermaid".

(** The cleaner takes the fences and the white space off a fenced
    known-good script. *)
Lemma clean_fenced :
  cleanMermaidScript (fenced ws1 tag ws2 s ws3 ws4) = trim s.
Proof.
  destruct (validate_true_inv s Hvalid) as (_ & _ & _ & Hty & _).
  destruct (valid_typed_start _ Hty) as [x1 [x2 [t' [Et Hts]]]].
  destruct (trim_split s) as [l [r [Es [Hl [Hr [Hstart Hend]]]]]].
  assert (Hblk : forall c1 c2 fl, In (c1, c2) patternStarts ->
                   charMatches fl c1 x1 && charMatches fl c2 x2 = false).
  { intros c1 c2 fl Hin. apply typed_blocks; assumption. }
  unfold cleanMermaidScript. cbv zeta.
  assert (Hnonempty : truthy (fenced ws1 tag ws2 s ws3 ws4) = true).
  { unfold fenced. destruct ws1; reflexivity. }
  rewrite Hnonempty. cbn [negb]. rewrite trim_fenced.
  (* the wrapper *)
  destruct (wrapper_matchAt tag (ws2 ++ l) (trim s) (r ++ ws3) x1 x2 t')
    as [st [Hm Hcaps]]; try assumption.
  { rewrite forallb_app, Hws2, Hl. reflexivity. }
  { rewrite forallb_app, Hr, Hws3. reflexivity. }
  { apply Hblk. unfold patternStarts. cbn [In]. tauto. }
  replace (lit "```" ++ tag ++ ws2 ++ s ++ ws3 ++ lit "```")
    with (lit "```" ++ tag ++ (ws2 ++ l) ++ trim s ++ (r ++ ws3)
              ++ lit "```")
    by (rewrite Es at 2; repeat rewrite <- app_assoc; reflexivity).
  unfold exec. rewrite (execFrom_hit _ _ _ _ 0 st Hm).
  cbn [groups]. rewrite Hcaps. cbn [group Nat.eqb].
  rewrite Et at 1. cbn [truthy]. rewrite trim_idem.
  (* the prefixes *)
  unfold prefixesToRemove, mermaidTail. cbn [fold_left].
  rewrite Et.
  rewrite (prefix_no_match flagI "h" "e" "r" (lit "e"))
    by (try apply Hblk; unfold patternStarts; cbn [In]; tauto).
  rewrite (prefix_no_match flagI "t" "h" "i" (lit "s is"))
    by (try apply Hblk; unfold patternStarts; cbn [In]; tauto).
  rewrite (prefix_no_match flagI "g" "e" "n" (lit "erate"))
    by (try apply Hblk; unfold patternStarts; cbn [In]; tauto).
  rewrite (prefix_no_match flagI "w" "o" "r" (lit "kflow"))
    by (try apply Hblk; unfold patternStarts; cbn [In]; tauto).
  rewrite (prefix_no_match flagI "d" "i" "a" (lit "gram"))
    by (try apply Hblk; unfold patternStarts; cbn [In]; tauto).
  rewrite <- Et. apply trim_idem.
Qed.

End FencedFacts.

(** C7, as stated, fails: with a language tag other than [mermaid] the
    wrapper pattern keeps the tag in front of the script, and the
    cleaned text is rejected although the script is accepted. *)
Lemma fenced_with_other_tag_rejected :
  validateMermaidScript loginFlow = true
  /\ validateMermaidScript
       (cleanMermaidScript
          (fenced [] (lit "text") newline loginFlow newline []))
     = false.
Proof. split; vm_compute; reflexivity. Qed.

(** C7, amended: for a known-good script in a fenced code block whose
    language tag is absent or is [mermaid], with any white space around
    the fences and around the script, the cleaner returns the trimmed
    script, and validating the cleaned text gives the verdict of
    validating the script. *)
Theorem clean_then_validate_fenced
        (s ws1 tag ws2 ws3 ws4 : jsstring) :
  validateMermaidScript s = true ->
  tag = [] \/ tag = lit "mermaid" ->
  forallb isWhiteSpace ws1 = true -> forallb isWhiteSpace ws2 = true ->
  forallb isWhiteSpace ws3 = true -> forallb isWhiteSpace ws4 = true ->
  cleanMermaidScript (fenced ws1 tag ws2 s ws3 ws4) = trim s
  /\ validateMermaidScript
       (cleanMermaidScript (fenced ws1 tag ws2 s ws3 ws4))
     = validateMermaidScript s.
Proof.
  intros Hvalid Htag H1 H2 H3 H4.
  assert (E : cleanMermaidScript (fenced ws1 tag ws2 s ws3 ws4) = trim s)
    by (apply clean_fenced; assumption).
  split; [exact E|]. rewrite E. apply validate_trim.
  destruct (validate_true_inv s Hvalid) as (_ & Hmin & _).
  destruct (trim s); [|reflexivity].
  exfalso. revert Hmin. apply Nat.lt_nge. apply Nat.ltb_lt.
  vm_compute. reflexivity.
Qed.

Lemma clean_then_validate_fenced_witness :
  cleanMermaidScript
    (fenced [] (lit "mermaid") newline loginFlow newline newline)
  = trim loginFlow
  /\ validateMermaidScript
       (cleanMermaidScript
          (fenced [] (lit "mermaid") newline loginFlow newline newline))
     = validateMermaidScript loginFlow.
Proof.
  apply clean_then_validate_fenced.
  - vm_compute. reflexivity.
  - right. reflexivity.
  - reflexivity.
  - reflexivity.
  - reflexivity.
  - reflexivity.
Defined.

(* ================================================================== *)
(** ** Properties of the prompt selector *)
(* ================================================================== *)

Section PromptFacts.

Variable conversation : jsstring.

Lemma primary_contains : substringOf conversation (primary conversation).
Proof.
  unfold primary. eexists. exists []. rewrite app_nil_r. reflexivity.
Qed.

Lemma secondary_contains : substringOf conversation (secondary conversation).
Proof. unfold secondary. eexists. eexists. reflexivity. Qed.

Lemma fallback_contains : substringOf conversation (fallback conversation).
Proof. unfold fallback. eexists. eexists. reflexivity. Qed.

(** The three templates differ within their first twelve characters. *)
Lemma primary_secondary_differ :
  primary conversation <> secondary conversation.
Proof.
  intros H. apply (f_equal (firstn 1)) in H. vm_compute in H.
  discriminate H.
Qed.

Lemma secondary_fallback_differ :
  secondary conversation <> fallback conversation.
Proof.
  intros H. apply (f_equal (firstn 1)) in H. vm_compute in H.
  discriminate H.
Qed.

Lemma primary_fallback_differ :
  primary conversation <> fallback conversation.
Proof.
  intros H. apply (f_equal (fun s => nth 11 s "000"%char)) in H.
  vm_compute in H. discriminate H.
Qed.

End PromptFacts.

(** C8: for every conversation text, the prompts of attempts 1, 2 and 3
    are pairwise distinct, non-empty and contain the text, and every
    attempt number from 3 on gets the prompt of attempt 3. *)
Theorem prompts_distinct_and_stable (X : jsstring) :
  let p1 := getPromptForAttempt 1 X in
  let p2 := getPromptForAttempt 2 X in
  let p3 := getPromptForAttempt 3 X in
  (p1 <> p2 /\ p1 <> p3 /\ p2 <> p3)
  /\ (p1 <> [] /\ p2 <> [] /\ p3 <> [])
  /\ (substringOf X p1 /\ substringOf X p2 /\ substringOf X p3)
  /\ (forall n, 3 <= n -> getPromptForAttempt n X = p3).
Proof.
  cbn zeta. change (getPromptForAttempt 1 X) with (primary X).
  change (getPromptForAttempt 2 X) with (secondary X).
  change (getPromptForAttempt 3 X) with (fallback X).
  repeat split.
  - apply primary_secondary_differ.
  - apply primary_fallback_differ.
  - apply secondary_fallback_differ.
  - intros H. apply (f_equal (@length ascii)) in H. vm_compute in H.
    discriminate H.
  - intros H. apply (f_equal (firstn 1)) in H. vm_compute in H.
    discriminate H.
  - intros H. apply (f_equal (firstn 1)) in H. vm_compute in H.
    discriminate H.
  - apply primary_contains.
  - apply secondary_contains.
  - apply fallback_contains.
  - intros n Hn. destruct n as [|[|[|n]]]; try lia; reflexivity.
Qed.

Lemma prompts_distinct_and_stable_witness :
  getPromptForAttempt 7 (lit "X") = getPromptForAttempt 3 (lit "X").
Proof.
  destruct (prompts_distinct_and_stable (lit "X")) as (_ & _ & _ & H).
  apply H. lia.
Defined.

(* ================================================================== *)
(** ** Properties of the retry orchestrator *)
(* ================================================================== *)

Section OrchestratorFacts.

Variable backend : Backend.
Variable conversationContent : jsstring.

Notation "'maxAttempts'" := (maxRetryAttempts mermaidGenerationConfig).
Notation "'promptOf' i" := (getPromptForAttempt i conversationContent)
  (at level 10, i at level 9).

Lemma strEq_eq (s t : jsstring) : strEq s t = true <-> s = t.
Proof.
  revert t. induction s as [|c s IH]; intros [|d t]; simpl;
    try (split; [discriminate | discriminate]); [tauto|].
  rewrite andb_true_iff, Ascii.eqb_eq, IH.
  split; [intros [-> ->]; reflexivity | intros E; injection E; auto].
Qed.

(** One iteration, case by case. *)
Lemma attemptBody_eq (attempt : nat) (tr : Trace) :
  attemptBody backend conversationContent attempt tr =
  let tr1 := tr ++ [Request attempt (promptOf attempt)] in
  match backend attempt (promptOf attempt) with
  | TimerFirst => caught attempt (ErrorObj (timeoutError userMessages)) tr1
  | Rejected e => caught attempt e tr1
  | Streamed chunks =>
      let result := trim (accumulate chunks) in
      if negb (truthy result)
      then caught attempt (ErrorObj emptyResponseMessage) tr1
      else if strEq result NO_DIAGRAM then (tr1, inl (Some NO_DIAGRAM))
      else
        let cleaned := cleanMermaidScript result in
        let tr2 := tr1 ++ [CleanCall result; ValidateCall cleaned] in
        if validateMermaidScript cleaned then (tr2, inl (Some cleaned))
        else caught attempt (ErrorObj (validationFailed userMessages)) tr2
  end.
Proof.
  unfold attemptBody, attemptMermaidGeneration, callClean, callValidate,
    tryCatch, bind, emit, throw, ret, caught.
  cbv zeta.
  destruct (attempt =? maxAttempts);
    (destruct (backend attempt (promptOf attempt)) as [chunks|e|];
     try reflexivity;
     destruct (negb (truthy (trim (accumulate chunks)))); [reflexivity|];
     destruct (strEq (trim (accumulate chunks)) NO_DIAGRAM); [reflexivity|];
     rewrite <- !app_assoc; cbn [app];
     destruct (validateMermaidScript _); reflexivity).
Qed.

Lemma caught_inv (attempt : nat) (e : Thrown) (tr tr' : Trace) r :
  caught attempt e tr = (tr', r) ->
  tr' = tr
  /\ ((attempt = maxAttempts /\ r = inr e)
      \/ (attempt <> maxAttempts /\ r = inl None)).
Proof.
  unfold caught. destruct (attempt =? maxAttempts) eqn:E; intros H;
    injection H as <- <-; split; auto.
  - left. apply Nat.eqb_eq in E. auto.
  - right. apply Nat.eqb_neq in E. auto.
Qed.

Lemma body_rejected (attempt : nat) (tr : Trace) (e : Thrown) :
  backend attempt (promptOf attempt) = Rejected e ->
  attemptBody backend conversationContent attempt tr
  = caught attempt e (tr ++ [Request attempt (promptOf attempt)]).
Proof. intros H. rewrite attemptBody_eq, H. reflexivity. Qed.


Lemma body_sentinel (attempt : nat) (tr : Trace) (chunks : list Chunk) :
  backend attempt (promptOf attempt) = Streamed chunks ->
  trim (accumulate chunks) = NO_DIAGRAM ->
  attemptBody backend conversationContent attempt tr
  = (tr ++ [Request attempt (promptOf attempt)], inl (Some NO_DIAGRAM)).
Proof.
  intros H Hr. rewrite attemptBody_eq, H. cbv zeta. rewrite Hr.
  reflexivity.
Qed.

(** The events of one iteration: its request, then possibly one call
    of the cleaner and one of the validator; the cleaner is not called
    on the sentinel. *)
Lemma body_trace (attempt : nat) (tr tr' : Trace) r :
  attemptBody backend conversationContent attempt tr = (tr', r) ->
  exists evs,
    tr' = tr ++ Request attempt (promptOf attempt) :: evs
    /\ forall ev, In ev evs ->
                  isRequest ev = false /\ ev <> CleanCall NO_DIAGRAM.
Proof.
  rewrite attemptBody_eq. cbv zeta.
  destruct (backend attempt (promptOf attempt)) as [chunks|e|].
  - destruct (negb (truthy (trim (accumulate chunks)))).
    { intros H. apply caught_inv in H as [-> _].
      exists []. split; [reflexivity | intros ev []]. }
    destruct (strEq (trim (accumulate chunks)) NO_DIAGRAM) eqn:Hs.
    { intros H. injection H as <- _.
      exists []. split; [reflexivity | intros ev []]. }
    assert (Hev : forall ev,
               In ev [CleanCall (trim (accumulate chunks));
                      ValidateCall (cleanMermaidScript
                                      (trim (accumulate chunks)))] ->
               isRequest ev = false /\ ev <> CleanCall NO_DIAGRAM).
    { intros ev [<-|[<-|[]]]; split; try reflexivity; try discriminate.
      intros E. injection E as E. apply strEq_eq in E. congruence. }
    destruct (validateMermaidScript _).
    + intros H. injection H as <- _. eexists. split; [|exact Hev].
      rewrite <- app_assoc. reflexivity.
    + intros H. apply caught_inv in H as [-> _].
      eexists. split; [|exact Hev]. rewrite <- app_assoc. reflexivity.
  - intros H. apply caught_inv in H as [-> _].
    exists []. split; [reflexivity | intros ev []].
  - intros H. apply caught_inv in H as [-> _].
    exists []. split; [reflexivity | intros ev []].
Qed.

(** An iteration returns the sentinel or a cleaned text that the
    validator accepted. *)
Lemma body_success (attempt : nat) (tr tr' : Trace) (s : jsstring) :
  attemptBody backend conversationContent attempt tr = (tr', inl (Some s)) ->
  acceptable tr' s.
Proof.
  rewrite attemptBody_eq. cbv zeta.
  destruct (backend attempt (promptOf attempt)) as [chunks|e|];
    try (intros H; apply caught_inv in H as [_ [[_ H]|[_ H]]];
         discriminate H).
  destruct (negb (truthy (trim (accumulate chunks)))).
  { intros H; apply caught_inv in H as [_ [[_ H]|[_ H]]]; discriminate H. }
  destruct (strEq (trim (accumulate chunks)) NO_DIAGRAM).
  { intros H. injection H as _ <-. left. reflexivity. }
  destruct (validateMermaidScript _) eqn:Hv.
  - intros H. injection H as <- <-. right.
    exists (trim (accumulate chunks)). split; [|split; auto].
    apply in_or_app. right. left. reflexivity.
  - intros H; apply caught_inv in H as [_ [[_ H]|[_ H]]]; discriminate H.
Qed.

(** An iteration throws on the last attempt only, and what it throws
    is the error of the executor or the validation failure. *)
Lemma body_failure (attempt : nat) (tr tr' : Trace) (e : Thrown) :
  attemptBody backend conversationContent attempt tr = (tr', inr e) ->
  attempt = maxAttempts
  /\ attemptError backend conversationContent attempt e.
Proof.
  rewrite attemptBody_eq. cbv zeta. unfold attemptError.
  destruct (backend attempt (promptOf attempt)) as [chunks|e'|].
  - destruct (negb (truthy (trim (accumulate chunks)))).
    { intros H; apply caught_inv in H as [_ [[? H]|[_ H]]];
        [injection H as ->; auto | discriminate H]. }
    destruct (strEq (trim (accumulate chunks)) NO_DIAGRAM);
      [discriminate|].
    destruct (validateMermaidScript _); [discriminate|].
    intros H; apply caught_inv in H as [_ [[? H]|[_ H]]];
      [injection H as ->; auto | discriminate H].
  - intros H; apply caught_inv in H as [_ [[? H]|[_ H]]];
      [injection H as ->; auto | discriminate H].
  - intros H; apply caught_inv in H as [_ [[? H]|[_ H]]];
      [injection H as ->; auto | discriminate H].
Qed.

(** The loop, one iteration unfolded. *)
Lemma attemptLoop_step (remaining attempt : nat) (tr : Trace) :
  attemptLoop backend conversationContent (S remaining) attempt tr =
  match attemptBody backend conversationContent attempt tr with
  | (tr1, inl (Some script)) => (tr1, inl script)
  | (tr1, inl None) =>
      attemptLoop backend conversationContent remaining (S attempt) tr1
  | (tr1, inr e) => (tr1, inr e)
  end.
Proof.
  cbn [attemptLoop]. unfold bind, ret.
  destruct (attemptBody backend conversationContent attempt tr)
    as [tr1 [[s|]|e]]; reflexivity.
Qed.

(** The loop only adds to the trace. *)
Lemma loop_extends (remaining attempt : nat) (tr tr' : Trace) res :
  attemptLoop backend conversationContent remaining attempt tr = (tr', res) ->
  exists more, tr' = tr ++ more.
Proof.
  revert attempt tr. induction remaining as [|n IH]; intros a tr.
  - cbn. unfold throw. intros H. injection H as <- _.
    exists []. symmetry. apply app_nil_r.
  - rewrite attemptLoop_step.
    destruct (attemptBody backend conversationContent a tr)
      as [tr1 r] eqn:Hb.
    destruct (body_trace _ _ _ _ Hb) as [evs [-> _]].
    destruct r as [[s|]|e].
    + intros H. injection H as <- _. eexists. reflexivity.
    + intros H. apply IH in H as [more ->].
      rewrite <- app_assoc. eexists. reflexivity.
    + intros H. injection H as <- _. eexists. reflexivity.
Qed.

(** When an iteration remains, the loop makes the request of the
    current attempt. *)
Lemma loop_first_request (remaining attempt : nat) (tr tr' : Trace) res :
  attemptLoop backend conversationContent (S remaining) attempt tr
  = (tr', res) ->
  In (Request attempt (promptOf attempt)) tr'.
Proof.
  rewrite attemptLoop_step.
  destruct (attemptBody backend conversationContent attempt tr)
    as [tr1 r] eqn:Hb.
  destruct (body_trace _ _ _ _ Hb) as [evs [-> _]].
  assert (Hin : In (Request attempt (promptOf attempt))
                   (tr ++ Request attempt (promptOf attempt) :: evs))
    by (apply in_or_app; right; left; reflexivity).
  destruct r as [[s|]|e]; intros H.
  - injection H as <- _. exact Hin.
  - apply loop_extends in H as [more ->]. apply in_or_app. left. exact Hin.
  - injection H as <- _. exact Hin.
Qed.

(** What the loop returns is acceptable. *)
Lemma loop_success (remaining attempt : nat) (tr tr' : Trace) s :
  attemptLoop backend conversationContent remaining attempt tr
  = (tr', inl s) ->
  acceptable tr' s.
Proof.
  revert attempt tr. induction remaining as [|n IH]; intros a tr.
  - cbn. unfold throw. discriminate.
  - rewrite attemptLoop_step.
    destruct (attemptBody backend conversationContent a tr)
      as [tr1 [[s'|]|e]] eqn:Hb; intros H.
    + injection H as <- <-. eapply body_success. exact Hb.
    + eapply IH. exact H.
    + discriminate H.
Qed.


(** The iteration of an attempt whose request is in the trace, and how
    the loop ends from there.  The requests already in the trace are
    those of earlier attempts. *)
Lemma loop_at (remaining attempt : nat) (tr tr' : Trace) res i q :
  (forall j q', In (Request j q') tr -> j < attempt) ->
  attemptLoop backend conversationContent remaining attempt tr
  = (tr', res) ->
  In (Request i q) tr' -> attempt <= i ->
  exists tr0 tr1 r,
    attemptBody backend conversationContent i tr0 = (tr1, r)
    /\ match r with
       | inl (Some s) => tr' = tr1 /\ res = inl s
       | inl None =>
           attemptLoop backend conversationContent
                       (attempt + remaining - S i) (S i) tr1 = (tr', res)
       | inr e => tr' = tr1 /\ res = inr e
       end.
Proof.
  revert attempt tr. induction remaining as [|n IH]; intros a tr Hold.
  - cbn. unfold throw. intros H Hin Hle. injection H as <- _.
    apply Hold in Hin. lia.
  - rewrite attemptLoop_step.
    destruct (attemptBody backend conversationContent a tr)
      as [tr1 r] eqn:Hb.
    destruct (body_trace _ _ _ _ Hb) as [evs [E Hevs]].
    intros H Hin Hle.
    destruct (Nat.eq_dec i a) as [->|Hne].
    + exists tr, tr1, r. split; [exact Hb|].
      destruct r as [[s|]|e].
      * injection H as <- <-. auto.
      * replace (a + S n - S a) with n by lia. exact H.
      * injection H as <- <-. auto.
    + assert (Hold1 : forall j q', In (Request j q') tr1 -> j < S a).
      { intros j q' Hj. subst tr1. apply in_app_or in Hj as [Hj|[Hj|Hj]].
        - apply Hold in Hj. lia.
        - injection Hj as <- _. lia.
        - apply Hevs in Hj as [Hj _]. discriminate Hj. }
      destruct r as [[s|]|e].
      * injection H as <- <-. apply Hold1 in Hin. lia.
      * replace (a + S n - S i) with (S a + n - S i) by lia.
        apply (IH (S a) tr1 Hold1 H Hin). lia.
      * injection H as <- <-. apply Hold1 in Hin. lia.
Qed.

(** The requests the loop adds are those of the current attempt and of
    later ones. *)
Lemma loop_requests (remaining attempt : nat) (tr tr' : Trace) res j q :
  attemptLoop backend conversationContent remaining attempt tr
  = (tr', res) ->
  In (Request j q) tr' -> In (Request j q) tr \/ attempt <= j.
Proof.
  revert attempt tr. induction remaining as [|n IH]; intros a tr.
  - cbn. unfold throw. intros H. injection H as <- _. auto.
  - rewrite attemptLoop_step.
    destruct (attemptBody backend conversationContent a tr)
      as [tr1 r] eqn:Hb.
    destruct (body_trace _ _ _ _ Hb) as [evs [E Hevs]].
    assert (H1 : In (Request j q) tr1 -> In (Request j q) tr \/ a <= j).
    { intros Hj. subst tr1. apply in_app_or in Hj as [Hj|[Hj|Hj]].
      - auto.
      - injection Hj as <- _. auto.
      - apply Hevs in Hj as [Hj _]. discriminate Hj. }
    destruct r as [[s|]|e]; intros H Hin.
    + injection H as <- _. auto.
    + destruct (IH _ _ H Hin) as [Hj|Hj]; [auto | right; lia].
    + injection H as <- _. auto.
Qed.

(** The cleaner is never called on the sentinel. *)
Lemma loop_clean_not_sentinel (remaining attempt : nat) (tr tr' : Trace)
      res :
  attemptLoop backend conversationContent remaining attempt tr
  = (tr', res) ->
  ~ In (CleanCall NO_DIAGRAM) tr -> ~ In (CleanCall NO_DIAGRAM) tr'.
Proof.
  revert attempt tr. induction remaining as [|n IH]; intros a tr.
  - cbn. unfold throw. intros H. injection H as <- _. auto.
  - rewrite attemptLoop_step.
    destruct (attemptBody backend conversationContent a tr)
      as [tr1 r] eqn:Hb.
    destruct (body_trace _ _ _ _ Hb) as [evs [E Hevs]].
    intros H Hn.
    assert (H1 : ~ In (CleanCall NO_DIAGRAM) tr1).
    { subst tr1. intros Hj. apply in_app_or in Hj as [Hj|[Hj|Hj]].
      - auto.
      - discriminate Hj.
      - apply Hevs in Hj as [_ Hj]. congruence. }
    destruct r as [[s|]|e].
    + injection H as <- _. exact H1.
    + eapply IH; eauto.
    + injection H as <- _. exact H1.
Qed.

End OrchestratorFacts.

Section GenerateFacts.

Variable env : Env.
Variable backend : Backend.
Variable conversationHistory : list ChatMessage.

Notation "'maxAttempts'" := (maxRetryAttempts mermaidGenerationConfig).
Notation "'promptOf' i" :=
  (getPromptForAttempt i (contentOf conversationHistory))
  (at level 10, i at level 9).

(** The orchestrator: its two guards, then the loop, then the mapping
    of what the loop throws. *)
Lemma generate_eq :
  run (generateMermaidScriptFromConversation env backend
                                             conversationHistory)
  = if negb (validateApiKey env)
    then ([], inr (ErrorObj (authenticationError userMessages)))
    else if length (filter isUserOrAssistant conversationHistory) =? 0
    then ([], inr (ErrorObj (noContentError userMessages)))
    else match attemptLoop backend (contentOf conversationHistory)
                           maxAttempts 1 [] with
         | (tr, inl s) => (tr, inl s)
         | (tr, inr e) => (tr, inr (handleMermaidGenerationError e))
         end.
Proof.
  unfold run, generateMermaidScriptFromConversation, tryCatch, throw.
  destruct (negb (validateApiKey env)); [reflexivity|].
  destruct (length (filter isUserOrAssistant conversationHistory) =? 0);
    [reflexivity|].
  reflexivity.
Qed.

(** A run in which a request was made went through the loop. *)
Lemma generate_loop (tr : Trace) res i q :
  run (generateMermaidScriptFromConversation env backend
                                             conversationHistory)
  = (tr, res) ->
  In (Request i q) tr ->
  exists res0,
    attemptLoop backend (contentOf conversationHistory) maxAttempts 1 []
    = (tr, res0)
    /\ res = match res0 with
             | inl s => inl s
             | inr e => inr (handleMermaidGenerationError e)
             end.
Proof.
  rewrite generate_eq.
  destruct (negb (validateApiKey env)).
  { intros H. injection H as <- _. intros []. }
  destruct (length (filter isUserOrAssistant conversationHistory) =? 0).
  { intros H. injection H as <- _. intros []. }
  destruct (attemptLoop backend (contentOf conversationHistory)
                        maxAttempts 1 []) as [tr0 [s|e]];
    intros H _; injection H as <- <-; eexists; split; reflexivity.
Qed.

(** The iteration of an attempt whose request is in the trace of a
    run. *)
Lemma generate_at (tr : Trace) res i q :
  run (generateMermaidScriptFromConversation env backend
                                             conversationHistory)
  = (tr, res) ->
  In (Request i q) tr ->
  1 <= i /\
  exists res0 tr0 tr1 r,
    res = match res0 with
          | inl s => inl s
          | inr e => inr (handleMermaidGenerationError e)
          end
    /\ attemptBody backend (contentOf conversationHistory) i tr0
       = (tr1, r)
    /\ match r with
       | inl (Some s) => tr = tr1 /\ res0 = inl s
       | inl None =>
           attemptLoop backend (contentOf conversationHistory)
                       (1 + maxAttempts - S i) (S i) tr1 = (tr, res0)
       | inr e => tr = tr1 /\ res0 = inr e
       end.
Proof.
  intros Hrun Hin.
  destruct (generate_loop _ _ _ _ Hrun Hin) as [res0 [Hloop ->]].
  assert (Hi : 1 <= i).
  { destruct (loop_requests backend _ _ _ _ _ _ _ _ Hloop Hin) as [[]|Hi]. exact Hi. }
  split; [exact Hi|].
  assert (Hold : forall j q', In (Request j q') (@nil Event) -> j < 1)
    by (intros j q' []).
  destruct (loop_at backend _ _ _ _ _ _ _ _ Hold Hloop Hin Hi)
    as [tr0 [tr1 [r [Hb Hr]]]].
  exists res0, tr0, tr1, r. auto.
Qed.

End GenerateFacts.

Section ErrorMapping.

Lemma arrayIncludes_In (xs : list jsstring) (x : jsstring) :
  arrayIncludes xs x = true <-> In x xs.
Proof.
  unfold arrayIncludes. rewrite existsb_exists. split.
  - intros [y [Hy E]]. apply strEq_eq in E. subst. exact Hy.
  - intros H. exists x. split; [exact H | apply strEq_eq; reflexivity].
Qed.

Ltac inMessages := unfold userMessageValues; cbn [In]; tauto.

(** The message of a mapped error is in the fixed set, or the error is
    passed on as it is. *)
Lemma handleGeminiApiError_message (m : jsstring) :
  exists m', handleGeminiApiError (ErrorObj m) = ErrorObj m'
             /\ (In m' userMessageValues \/ m' = m).
Proof.
  unfold handleGeminiApiError. cbv zeta.
  destruct (_ || _ || _).
  { eexists. split; [reflexivity|]. left. inMessages. }
  destruct (_ || _ || _).
  { eexists. split; [reflexivity|]. left. inMessages. }
  destruct (_ || _ || _).
  { eexists. split; [reflexivity|]. left. inMessages. }
  eexists. split; [reflexivity|]. right. reflexivity.
Qed.


(** An authentication error is mapped to the authentication message. *)
Lemma handle_authentication (e : Thrown) :
  isAuthenticationError e = true ->
  handleMermaidGenerationError e
  = ErrorObj (authenticationError userMessages).
Proof.
  destruct e as [m|]; [|discriminate].
  intros Ha. cbn [handleMermaidGenerationError].
  destruct (arrayIncludes userMessageValues m) eqn:E.
  - apply arrayIncludes_In in E. unfold userMessageValues in E.
    cbn [In] in E.
    repeat (destruct E as [E|E];
            [subst m; first [reflexivity | vm_compute in Ha; discriminate Ha]
            |]).
    destruct E.
  - unfold handleGeminiApiError. cbv zeta.
    unfold isAuthenticationError in Ha. cbv zeta in Ha. rewrite Ha.
    reflexivity.
Qed.



End ErrorMapping.

(* ------------------------------------------------------------------ *)

(** C1: whenever the orchestrator returns, the value is the sentinel
    [NO_DIAGRAM], or a text produced by the cleaner in this run that the
    validator accepts. *)
Theorem orchestrator_returns_validated
        (env : Env) (backend : Backend) (history : list ChatMessage)
        (tr : Trace) (s : jsstring) :
  run (generateMermaidScriptFromConversation env backend history)
  = (tr, inl s) ->
  s = NO_DIAGRAM
  \/ exists raw, In (CleanCall raw) tr
                 /\ s = cleanMermaidScript raw
                 /\ validateMermaidScript s = true.
Proof.
  rewrite generate_eq.
  destruct (negb (validateApiKey env)); [discriminate|].
  destruct (length (filter isUserOrAssistant history) =? 0); [discriminate|].
  destruct (attemptLoop backend (contentOf history)
                        (maxRetryAttempts mermaidGenerationConfig) 1 [])
    as [tr0 [s0|e]] eqn:Hloop; [|discriminate].
  intros H. injection H as <- <-.
  exact (loop_success backend _ _ _ _ _ _ Hloop).
Qed.

Lemma orchestrator_returns_validated_witness :
  loginFlow = NO_DIAGRAM
  \/ exists raw,
      In (CleanCall raw)
         (fst (run (generateMermaidScriptFromConversation
                      Scenario.env goodBackend conversation)))
      /\ loginFlow = cleanMermaidScript raw
      /\ validateMermaidScript loginFlow = true.
Proof.
  apply (orchestrator_returns_validated Scenario.env goodBackend conversation).
  vm_compute. reflexivity.
Defined.




(** C3, as stated, fails: the backend rejects the credentials on the
    first attempt, and the orchestrator makes a second request, whose
    response it returns. *)
Lemma authentication_error_is_retried :
  rejectsFirst 1 (getPromptForAttempt 1 (contentOf conversation))
  = Rejected keyRejected
  /\ isAuthenticationError keyRejected = true
  /\ run (generateMermaidScriptFromConversation
            Scenario.env rejectsFirst conversation)
     = ([ Request 1 (getPromptForAttempt 1 (contentOf conversation));
          Request 2 (getPromptForAttempt 2 (contentOf conversation));
          CleanCall loginFlow;
          ValidateCall loginFlow ],
        inl loginFlow).
Proof. repeat split; vm_compute; reflexivity. Qed.

(** C3, amended: an authentication error of an attempt below
    [maxRetryAttempts] is not surfaced, the request of the next attempt
    is made; the authentication error of the last attempt is surfaced,
    with the authentication message. *)
Theorem authentication_error_surfaced_on_last_attempt
        (env : Env) (backend : Backend) (history : list ChatMessage)
        (tr : Trace) (res : jsstring + Thrown) (i : nat) (e : Thrown) :
  let maxAttempts := maxRetryAttempts mermaidGenerationConfig in
  let promptOf n := getPromptForAttempt n (contentOf history) in
  run (generateMermaidScriptFromConversation env backend history)
  = (tr, res) ->
  In (Request i (promptOf i)) tr ->
  backend i (promptOf i) = Rejected e ->
  isAuthenticationError e = true ->
  (i < maxAttempts -> In (Request (S i) (promptOf (S i))) tr)
  /\ (i = maxAttempts ->
      res = inr (ErrorObj (authenticationError userMessages))).
Proof.
  intros maxAttempts promptOf Hrun Hin Hb Hauth.
  destruct (generate_at _ _ _ _ _ _ _ Hrun Hin)
    as [Hi [res0 [tr0 [tr1 [r [Hres [Hbody Hr]]]]]]].
  rewrite (body_rejected backend _ _ tr0 _ Hb) in Hbody.
  apply caught_inv in Hbody as [_ [[Hmax ->]|[Hne ->]]].
  - split; [fold maxAttempts in Hmax; lia|]. intros _.
    destruct Hr as [_ ->]. rewrite Hres.
    rewrite (handle_authentication _ Hauth). reflexivity.
  - split; [|intros E; contradiction].
    intros Hlt.
    assert (E : 1 + maxRetryAttempts mermaidGenerationConfig - S i
                = S (maxRetryAttempts mermaidGenerationConfig - S i)).
    { fold maxAttempts. fold maxAttempts in Hlt. lia. }
    rewrite E in Hr.
    exact (loop_first_request backend _ _ _ _ _ _ Hr).
Qed.

Lemma authentication_error_surfaced_on_last_attempt_witness :
  (1 < 3 ->
   In (Request 2 (getPromptForAttempt 2 (contentOf conversation)))
      (fst (run (generateMermaidScriptFromConversation
                   Scenario.env rejectsAll conversation))))
  /\ (1 = 3 ->
      snd (run (generateMermaidScriptFromConversation
                  Scenario.env rejectsAll conversation))
      = inr (ErrorObj (authenticationError userMessages))).
Proof.
  apply (authentication_error_surfaced_on_last_attempt
           Scenario.env rejectsAll conversation _ _ 1 keyRejected).
  - vm_compute. reflexivity.
  - vm_compute. left. reflexivity.
  - reflexivity.
  - vm_compute. reflexivity.
Defined.

(** C4, as stated, fails: without a configured API key, a conversation
    with no user or assistant message fails with the authentication
    message, not with the no-content one. *)
Lemma no_content_without_key_is_authentication_error :
  filter isUserOrAssistant [ {| role := system; content := lit "notes" |} ]
  = []
  /\ run (generateMermaidScriptFromConversation
            noKey goodBackend
            [ {| role := system; content := lit "notes" |} ])
     = ([], inr (ErrorObj (authenticationError userMessages)))
  /\ authenticationError userMessages <> noContentError userMessages.
Proof.
  repeat split; try (vm_compute; reflexivity).
  intros H. vm_compute in H. discriminate H.
Qed.

(** C4, amended: for a conversation history with no user or assistant
    message the orchestrator makes no call at all, and it fails with the
    no-content message when the API key is configured, with the
    authentication message when it is not. *)
Theorem no_content_fails_before_any_attempt
        (env : Env) (backend : Backend) (history : list ChatMessage) :
  filter isUserOrAssistant history = [] ->
  run (generateMermaidScriptFromConversation env backend history)
  = ([], inr (ErrorObj (if validateApiKey env
                        then noContentError userMessages
                        else authenticationError userMessages))).
Proof.
  intros Hnone. rewrite generate_eq, Hnone.
  destruct (validateApiKey env); reflexivity.
Qed.

Lemma no_content_fails_before_any_attempt_witness :
  run (generateMermaidScriptFromConversation
         Scenario.env goodBackend
         [ {| role := system; content := lit "notes" |};
           {| role := mermaid; content := lit "diagram" |} ])
  = ([], inr (ErrorObj (noContentError userMessages))).
Proof.
  apply (no_content_fails_before_any_attempt Scenario.env).
  reflexivity.
Defined.

(** C5: when the executor of an attempt that is made returns the
    sentinel, the orchestrator returns the sentinel; the request of that
    attempt is the last event of the run, so neither the cleaner nor the
    validator is called after it and no further attempt is started; and
    the cleaner is never called on the sentinel. *)
Theorem sentinel_returned_immediately
        (env : Env) (backend : Backend) (history : list ChatMessage)
        (tr : Trace) (res : jsstring + Thrown) (i : nat)
        (chunks : list Chunk) :
  let promptOf n := getPromptForAttempt n (contentOf history) in
  run (generateMermaidScriptFromConversation env backend history)
  = (tr, res) ->
  In (Request i (promptOf i)) tr ->
  backend i (promptOf i) = Streamed chunks ->
  trim (accumulate chunks) = NO_DIAGRAM ->
  res = inl NO_DIAGRAM
  /\ (exists earlier, tr = earlier ++ [Request i (promptOf i)])
  /\ ~ In (CleanCall NO_DIAGRAM) tr.
Proof.
  intros promptOf Hrun Hin Hb Hsent.
  destruct (generate_at _ _ _ _ _ _ _ Hrun Hin)
    as [Hi [res0 [tr0 [tr1 [r [Hres [Hbody Hr]]]]]]].
  rewrite (body_sentinel backend _ _ tr0 _ Hb Hsent) in Hbody.
  injection Hbody as <- <-. destruct Hr as [-> ->].
  split; [exact Hres|]. split; [exists tr0; reflexivity|].
  destruct (generate_loop _ _ _ _ _ _ _ Hrun Hin) as [res1 [Hloop _]].
  apply (loop_clean_not_sentinel backend _ _ _ _ _ _ Hloop).
  intros [].
Qed.

Lemma sentinel_returned_immediately_witness :
  snd (run (generateMermaidScriptFromConversation
              Scenario.env sentinelSecond conversation))
  = inl NO_DIAGRAM
  /\ (exists earlier,
         fst (run (generateMermaidScriptFromConversation
                     Scenario.env sentinelSecond conversation))
         = earlier
             ++ [Request 2 (getPromptForAttempt 2 (contentOf conversation))])
  /\ ~ In (CleanCall NO_DIAGRAM)
          (fst (run (generateMermaidScriptFromConversation
                       Scenario.env sentinelSecond conversation))).
Proof.
  apply (sentinel_returned_immediately
           Scenario.env sentinelSecond conversation _ _ 2
           [ Some [ {| text := Some (lit " NO_DIAGRAM ") |} ] ]).
  - vm_compute. reflexivity.
  - vm_compute. tauto.
  - reflexivity.
  - vm_compute. reflexivity.
Defined.

(* ================================================================== *)
(** ** Further properties: the error handlers *)
(* ================================================================== *)

(** X1: mapping an error twice is mapping it once, for both handlers:
    what a handler returns is already in its final form. *)
Theorem error_handlers_idempotent (e : Thrown) :
  handleGeminiApiError (handleGeminiApiError e) = handleGeminiApiError e
  /\ handleMermaidGenerationError (handleMermaidGenerationError e)
     = handleMermaidGenerationError e.
Proof.
  assert (HG : forall e', handleGeminiApiError (handleGeminiApiError e')
                          = handleGeminiApiError e').
  { intros [m|]; [|vm_compute; reflexivity].
    destruct (includes (toLowerCase m) (lit "api key")
              || includes (toLowerCase m) (lit "authentication")
              || includes (toLowerCase m) (lit "unauthorized")) eqn:Ha.
    { assert (E : handleGeminiApiError (ErrorObj m)
                  = ErrorObj (authenticationError userMessages))
        by (unfold handleGeminiApiError; cbv zeta; rewrite Ha; reflexivity).
      rewrite E. vm_compute. reflexivity. }
    destruct (includes (toLowerCase m) (lit "rate limit")
              || includes (toLowerCase m) (lit "quota")
              || includes (toLowerCase m) (lit "too many requests")) eqn:Hr.
    { assert (E : handleGeminiApiError (ErrorObj m)
                  = ErrorObj (rateLimitError userMessages))
        by (unfold handleGeminiApiError; cbv zeta; rewrite Ha, Hr;
            reflexivity).
      rewrite E. vm_compute. reflexivity. }
    destruct (includes (toLowerCase m) (lit "network")
              || includes (toLowerCase m) (lit "connection")
              || includes (toLowerCase m) (lit "timeout")) eqn:Hn.
    { assert (E : handleGeminiApiError (ErrorObj m)
                  = ErrorObj (networkError userMessages))
        by (unfold handleGeminiApiError; cbv zeta; rewrite Ha, Hr, Hn;
            reflexivity).
      rewrite E. vm_compute. reflexivity. }
    assert (E : handleGeminiApiError (ErrorObj m) = ErrorObj m)
      by (unfold handleGeminiApiError; cbv zeta; rewrite Ha, Hr, Hn;
          reflexivity).
    rewrite !E. reflexivity. }
  split; [apply HG|].
  destruct e as [m|]; [|vm_compute; reflexivity].
  cbn [handleMermaidGenerationError].
  destruct (arrayIncludes userMessageValues m) eqn:E.
  - cbn [handleMermaidGenerationError]. rewrite E. reflexivity.
  - destruct (handleGeminiApiError_message m) as [m' [Em [Hin|Heq]]].
    + rewrite Em. cbn [handleMermaidGenerationError].
      apply arrayIncludes_In in Hin. rewrite Hin. reflexivity.
    + subst m'. rewrite Em. cbn [handleMermaidGenerationError].
      rewrite E. exact Em.
Qed.

(** X2: on an [Error] the two handlers agree: the messages of
    [userMessages], which [handleMermaidGenerationError] returns as they
    are, are left as they are by [handleGeminiApiError] too.  They
    differ on a thrown value that is not an [Error]. *)
Theorem error_handlers_agree_on_errors :
  (forall m, handleMermaidGenerationError (ErrorObj m)
             = handleGeminiApiError (ErrorObj m))
  /\ handleMermaidGenerationError OtherValue
     = ErrorObj (generationFailed userMessages)
  /\ handleGeminiApiError OtherValue = ErrorObj unexpectedErrorMessage
  /\ generationFailed userMessages <> unexpectedErrorMessage.
Proof.
  split; [|repeat split; try reflexivity; intros H; vm_compute in H;
           discriminate H].
  intros m. cbn [handleMermaidGenerationError].
  destruct (arrayIncludes userMessageValues m) eqn:E; [|reflexivity].
  apply arrayIncludes_In in E. unfold userMessageValues in E.
  cbn [In] in E.
  repeat (destruct E as [E|E]; [subst m; vm_compute; reflexivity|]).
  destruct E.
Qed.

(** The legacy handler keeps the message of every [Error], gives
    the type [network_error] to the network message and to no other and
    the type [api_error] to every other [Error]; a value that is not an
    [Error] gets the generic failure message and the type [unknown]. *)
Lemma legacy_handler_classification (now : nat) :
  (forall m,
      GeminiChat.handleGeminiError now (ErrorObj m)
      = {| GeminiChat.message := m;
           GeminiChat.type :=
             if strEq m (networkError userMessages)
             then GeminiChat.network_error else GeminiChat.api_error;
           GeminiChat.timestamp := now |})
  /\ GeminiChat.handleGeminiError now OtherValue
     = {| GeminiChat.message := generationFailed userMessages;
          GeminiChat.type := GeminiChat.unknown;
          GeminiChat.timestamp := now |}.
Proof.
  split; [|reflexivity].
  intros m. unfold GeminiChat.handleGeminiError.
  destruct (strEq m (authenticationError userMessages)) eqn:Ea.
  { apply strEq_eq in Ea. subst m. reflexivity. }
  destruct (strEq m (rateLimitError userMessages)) eqn:Er.
  { apply strEq_eq in Er. subst m. reflexivity. }
  destruct (strEq m (networkError userMessages)) eqn:En.
  { apply strEq_eq in En. subst m. reflexivity. }
  reflexivity.
Qed.

(* ================================================================== *)
(** ** Further properties: the retry orchestrator *)
(* ================================================================== *)

Section AttemptSequence.

Variable backend : Backend.
Variable conversationContent : jsstring.

Notation "'maxAttempts'" := (maxRetryAttempts mermaidGenerationConfig).
Notation "'promptOf' i" := (getPromptForAttempt i conversationContent)
  (at level 10, i at level 9).

Lemma requestsOf_app (tr1 tr2 : Trace) :
  requestsOf (tr1 ++ tr2) = requestsOf tr1 ++ requestsOf tr2.
Proof. unfold requestsOf. apply flat_map_app. Qed.

Lemma requestsOf_none (evs : Trace) :
  (forall ev, In ev evs -> isRequest ev = false /\ ev <> CleanCall NO_DIAGRAM) ->
  requestsOf evs = [].
Proof.
  induction evs as [|ev evs IH]; intros H; [reflexivity|].
  cbn. destruct (H ev (or_introl eq_refl)) as [Hev _].
  destruct ev; try discriminate Hev; cbn; apply IH; intros ev' Hin;
    apply H; right; exact Hin.
Qed.

Lemma body_requests (attempt : nat) (tr tr' : Trace) r :
  attemptBody backend conversationContent attempt tr = (tr', r) ->
  requestsOf tr' = requestsOf tr ++ [(attempt, promptOf attempt)].
Proof.
  intros Hb. destruct (body_trace _ _ _ _ _ _ Hb) as [evs [-> Hevs]].
  change (Request attempt (promptOf attempt) :: evs)
    with ([Request attempt (promptOf attempt)] ++ evs).
  rewrite !requestsOf_app, (requestsOf_none evs Hevs), app_nil_r.
  reflexivity.
Qed.

(** The requests the loop adds are those of consecutive attempts from
    the current one on; when the loop throws, it has made all the
    iterations it had. *)
Lemma loop_requests_seq (remaining attempt : nat) (tr tr' : Trace) res :
  attemptLoop backend conversationContent remaining attempt tr = (tr', res) ->
  exists k,
    k <= remaining
    /\ requestsOf tr'
       = requestsOf tr ++ map (fun i => (i, promptOf i)) (seq attempt k)
    /\ match res with
       | inl _ => 1 <= k
       | inr _ => attempt + remaining = S maxAttempts -> k = remaining
       end.
Proof.
  revert attempt tr. induction remaining as [|n IH]; intros a tr.
  - cbn. unfold throw. intros H. injection H as <- <-.
    exists 0. cbn. rewrite app_nil_r. auto.
  - rewrite attemptLoop_step.
    destruct (attemptBody backend conversationContent a tr)
      as [tr1 r] eqn:Hb.
    pose proof (body_requests _ _ _ _ Hb) as Hreq.
    destruct r as [[s|]|e]; intros H.
    + injection H as <- <-. exists 1. cbn [seq map].
      repeat split; [lia|exact Hreq|lia].
    + destruct (IH _ _ H) as [k [Hk [Hseq Hres]]].
      exists (S k). split; [lia|]. split.
      * rewrite Hseq, Hreq, <- app_assoc. reflexivity.
      * destruct res; [lia|]. intros E. rewrite Hres; [reflexivity|lia].
    + injection H as <- <-. exists 1. cbn [seq map].
      split; [lia|]. split; [exact Hreq|].
      intros E. destruct (body_failure _ _ _ _ _ _ Hb) as [Ha _]. lia.
Qed.

End AttemptSequence.

(** X3: the requests of a run are those of the attempts 1, 2, ... up to
    some k no greater than [maxRetryAttempts], in this order and each
    with the prompt of its attempt; a run that returns has made a
    request, and a run that fails has made none (a guard failed) or all
    [maxRetryAttempts] of them. *)
Theorem attempts_consecutive_and_bounded
        (env : Env) (backend : Backend) (history : list ChatMessage)
        (tr : Trace) (res : jsstring + Thrown) :
  run (generateMermaidScriptFromConversation env backend history)
  = (tr, res) ->
  exists k,
    k <= maxRetryAttempts mermaidGenerationConfig
    /\ requestsOf tr
       = map (fun i => (i, getPromptForAttempt i (contentOf history)))
             (seq 1 k)
    /\ match res with
       | inl _ => 1 <= k
       | inr _ => k = 0 \/ k = maxRetryAttempts mermaidGenerationConfig
       end.
Proof.
  rewrite generate_eq.
  destruct (negb (validateApiKey env)).
  { intros H. injection H as <- <-. exists 0. cbn. auto. }
  destruct (length (filter isUserOrAssistant history) =? 0).
  { intros H. injection H as <- <-. exists 0. cbn. auto. }
  destruct (attemptLoop backend (contentOf history)
                        (maxRetryAttempts mermaidGenerationConfig) 1 [])
    as [tr0 res0] eqn:Hloop.
  destruct (loop_requests_seq _ _ _ _ _ _ _ Hloop) as [k [Hk [Hseq Hres]]].
  cbn [requestsOf flat_map app] in Hseq.
  destruct res0 as [s|e]; intros H; injection H as <- <-;
    exists k; repeat split; auto.
Qed.

Lemma attempts_consecutive_and_bounded_witness :
  exists k,
    k <= maxRetryAttempts mermaidGenerationConfig
    /\ requestsOf
         (fst (run (generateMermaidScriptFromConversation
                      Scenario.env sentinelSecond conversation)))
       = map (fun i => (i, getPromptForAttempt i (contentOf conversation)))
             (seq 1 k)
    /\ 1 <= k.
Proof.
  apply (attempts_consecutive_and_bounded
           Scenario.env sentinelSecond conversation _ (inl NO_DIAGRAM)).
  vm_compute. reflexivity.
Defined.

Section AttemptOutcomes.

Variable env : Env.
Variable backend : Backend.
Variable history : list ChatMessage.
Variable tr : Trace.
Variable res : jsstring + Thrown.

Notation "'maxAttempts'" := (maxRetryAttempts mermaidGenerationConfig).
Notation "'promptOf' i" := (getPromptForAttempt i (contentOf history))
  (at level 10, i at level 9).

Hypothesis Hrun :
  run (generateMermaidScriptFromConversation env backend history) = (tr, res).

(** The script of the first attempt whose cleaned text is valid is
    what the run returns, and the validator call is its last event. *)
Lemma accepted_script_returned (i : nat) (chunks : list Chunk) :
  In (Request i (promptOf i)) tr ->
  backend i (promptOf i) = Streamed chunks ->
  truthy (trim (accumulate chunks)) = true ->
  strEq (trim (accumulate chunks)) NO_DIAGRAM = false ->
  validateMermaidScript (cleanMermaidScript (trim (accumulate chunks)))
  = true ->
  res = inl (cleanMermaidScript (trim (accumulate chunks)))
  /\ exists earlier,
      tr = earlier
             ++ [ Request i (promptOf i);
                  CleanCall (trim (accumulate chunks));
                  ValidateCall (cleanMermaidScript
                                  (trim (accumulate chunks))) ].
Proof.
  intros Hin Hb Ht Hs Hv.
  destruct (generate_at _ _ _ _ _ _ _ Hrun Hin)
    as [Hi [res0 [tr0 [tr1 [r [Hres [Hbody Hr]]]]]]].
  rewrite attemptBody_eq, Hb in Hbody. cbv zeta in Hbody.
  rewrite Ht, Hs, Hv in Hbody. cbn [negb] in Hbody.
  injection Hbody as <- <-. destruct Hr as [-> ->].
  split; [exact Hres|]. exists tr0. rewrite <- app_assoc. reflexivity.
Qed.

(** What an attempt that is not accepted ends with in the [catch]
    clause or in the validation branch. *)
Lemma rejected_attempt_body (i : nat) (tr0 : Trace) :
  attemptAccepts backend (contentOf history) i = false ->
  exists e evs,
    attemptBody backend (contentOf history) i tr0
    = caught i e (tr0 ++ Request i (promptOf i) :: evs)
    /\ (backend i (promptOf i) = TimerFirst ->
        e = ErrorObj (timeoutError userMessages))
    /\ (forall e', backend i (promptOf i) = Rejected e' -> e = e')
    /\ (forall chunks, backend i (promptOf i) = Streamed chunks ->
        e = if truthy (trim (accumulate chunks))
            then ErrorObj (validationFailed userMessages)
            else ErrorObj emptyResponseMessage).
Proof.
  unfold attemptAccepts. rewrite attemptBody_eq. cbv zeta.
  destruct (backend i (promptOf i)) as [chunks|e'|].
  - destruct (truthy (trim (accumulate chunks))) eqn:Ht; cbn [andb negb].
    + intros H. apply orb_false_iff in H as [Hs Hv]. rewrite Hs, Hv.
      eexists. eexists. split; [rewrite <- app_assoc; reflexivity|].
      repeat split; try discriminate.
      intros c E. injection E as <-. rewrite Ht. reflexivity.
    + intros _. eexists. exists []. split; [reflexivity|].
      repeat split; try discriminate.
      intros c E. injection E as <-. rewrite Ht. reflexivity.
  - intros _. exists e', []. split; [reflexivity|].
    repeat split; try discriminate. intros e0 E. injection E as <-.
    reflexivity.
  - intros _. eexists. exists []. split; [reflexivity|].
    repeat split; try discriminate.
Qed.

End AttemptOutcomes.

(** X4: the first attempt whose text, cleaned, is valid decides the
    run: its cleaned text is returned, and nothing happens after its
    validation. *)
Theorem valid_script_accepted_at_once
        (env : Env) (backend : Backend) (history : list ChatMessage)
        (tr : Trace) (res : jsstring + Thrown) (i : nat)
        (chunks : list Chunk) :
  let promptOf n := getPromptForAttempt n (contentOf history) in
  let raw := trim (accumulate chunks) in
  run (generateMermaidScriptFromConversation env backend history)
  = (tr, res) ->
  In (Request i (promptOf i)) tr ->
  backend i (promptOf i) = Streamed chunks ->
  truthy raw = true ->
  strEq raw NO_DIAGRAM = false ->
  validateMermaidScript (cleanMermaidScript raw) = true ->
  res = inl (cleanMermaidScript raw)
  /\ exists earlier,
      tr = earlier ++ [ Request i (promptOf i); CleanCall raw;
                        ValidateCall (cleanMermaidScript raw) ].
Proof.
  intros promptOf raw Hrun Hin Hb Ht Hs Hv.
  exact (accepted_script_returned env backend history tr res Hrun i chunks
           Hin Hb Ht Hs Hv).
Qed.

Lemma valid_script_accepted_at_once_witness :
  snd (run (generateMermaidScriptFromConversation
              Scenario.env rejectsFirst conversation))
  = inl (cleanMermaidScript (trim loginFlow))
  /\ exists earlier,
      fst (run (generateMermaidScriptFromConversation
                  Scenario.env rejectsFirst conversation))
      = earlier
          ++ [ Request 2 (getPromptForAttempt 2 (contentOf conversation));
               CleanCall (trim loginFlow);
               ValidateCall (cleanMermaidScript (trim loginFlow)) ].
Proof.
  apply (valid_script_accepted_at_once
           Scenario.env rejectsFirst conversation _ _ 2
           [ Some [ {| text := Some loginFlow |} ] ]).
  - vm_compute. reflexivity.
  - vm_compute. tauto.
  - reflexivity.
  - reflexivity.
  - reflexivity.
  - vm_compute. reflexivity.
Defined.

(** X5: an attempt that is made and is not accepted (its executor
    fails, or its text is empty or, cleaned, invalid) is followed by the
    request of the next attempt when its index is below
    [maxRetryAttempts]; at [maxRetryAttempts] the run fails. *)
Theorem rejected_attempt_retried_or_final
        (env : Env) (backend : Backend) (history : list ChatMessage)
        (tr : Trace) (res : jsstring + Thrown) (i : nat) :
  let maxAttempts := maxRetryAttempts mermaidGenerationConfig in
  let promptOf n := getPromptForAttempt n (contentOf history) in
  run (generateMermaidScriptFromConversation env backend history)
  = (tr, res) ->
  In (Request i (promptOf i)) tr ->
  attemptAccepts backend (contentOf history) i = false ->
  (i < maxAttempts -> In (Request (S i) (promptOf (S i))) tr)
  /\ (i = maxAttempts -> exists e, res = inr e).
Proof.
  intros maxAttempts promptOf Hrun Hin Hacc.
  destruct (generate_at _ _ _ _ _ _ _ Hrun Hin)
    as [Hi [res0 [tr0 [tr1 [r [Hres [Hbody Hr]]]]]]].
  destruct (rejected_attempt_body backend history i tr0 Hacc)
    as [e [evs [Hb _]]].
  rewrite Hb in Hbody.
  apply caught_inv in Hbody as [_ [[Hmax ->]|[Hne ->]]].
  - split; [fold maxAttempts in Hmax; lia|]. intros _.
    destruct Hr as [_ ->]. rewrite Hres. eexists. reflexivity.
  - split; [|intros E; contradiction]. intros Hlt.
    assert (E : 1 + maxRetryAttempts mermaidGenerationConfig - S i
                = S (maxRetryAttempts mermaidGenerationConfig - S i)).
    { fold maxAttempts. fold maxAttempts in Hlt. lia. }
    rewrite E in Hr.
    exact (loop_first_request backend _ _ _ _ _ _ Hr).
Qed.

Lemma rejected_attempt_retried_or_final_witness :
  (1 < 3 ->
   In (Request 2 (getPromptForAttempt 2 (contentOf conversation)))
      (fst (run (generateMermaidScriptFromConversation
                   Scenario.env emptyBackend conversation))))
  /\ (1 = 3 ->
      exists e,
        snd (run (generateMermaidScriptFromConversation
                    Scenario.env emptyBackend conversation)) = inr e).
Proof.
  apply (rejected_attempt_retried_or_final
           Scenario.env emptyBackend conversation _ _ 1).
  - vm_compute. reflexivity.
  - vm_compute. tauto.
  - vm_compute. reflexivity.
Defined.

(** X6: what the run fails with when the last attempt is made and is
    not accepted: the time-out message when the timer fires first, the
    validation message when the text, cleaned, is invalid, and the
    generic failure message when the backend throws a value that is not
    an [Error]. *)
Theorem last_attempt_failure_messages
        (env : Env) (backend : Backend) (history : list ChatMessage)
        (tr : Trace) (res : jsstring + Thrown) :
  let maxAttempts := maxRetryAttempts mermaidGenerationConfig in
  let lastPrompt := getPromptForAttempt maxAttempts (contentOf history) in
  run (generateMermaidScriptFromConversation env backend history)
  = (tr, res) ->
  In (Request maxAttempts lastPrompt) tr ->
  attemptAccepts backend (contentOf history) maxAttempts = false ->
  (backend maxAttempts lastPrompt = TimerFirst ->
   res = inr (ErrorObj (timeoutError userMessages)))
  /\ (backend maxAttempts lastPrompt = Rejected OtherValue ->
      res = inr (ErrorObj (generationFailed userMessages)))
  /\ (forall chunks,
         backend maxAttempts lastPrompt = Streamed chunks ->
         truthy (trim (accumulate chunks)) = true ->
         res = inr (ErrorObj (validationFailed userMessages))).
Proof.
  intros maxAttempts lastPrompt Hrun Hin Hacc.
  destruct (generate_at _ _ _ _ _ _ _ Hrun Hin)
    as [Hi [res0 [tr0 [tr1 [r [Hres [Hbody Hr]]]]]]].
  destruct (rejected_attempt_body backend history maxAttempts tr0 Hacc)
    as [e [evs [Hb [Ht [Hrej Hstr]]]]].
  rewrite Hb in Hbody.
  apply caught_inv in Hbody as [_ [[_ ->]|[Hne _]]];
    [|exfalso; apply Hne; reflexivity].
  destruct Hr as [_ ->]. rewrite Hres.
  repeat split.
  - intros E. rewrite (Ht E). reflexivity.
  - intros E. rewrite (Hrej _ E). reflexivity.
  - intros chunks E Htr. rewrite (Hstr _ E), Htr. reflexivity.
Qed.

Lemma last_attempt_failure_messages_witness :
  snd (run (generateMermaidScriptFromConversation
              Scenario.env (fun _ _ => TimerFirst) conversation))
  = inr (ErrorObj (timeoutError userMessages)).
Proof.
  refine (proj1 (last_attempt_failure_messages
                   Scenario.env (fun _ _ => TimerFirst) conversation
                   _ _ _ _ _) eq_refl).
  - vm_compute. reflexivity.
  - vm_compute. tauto.
  - vm_compute. reflexivity.
Defined.

Lemma filter_idem {A : Type} (p : A -> bool) (l : list A) :
  filter p (filter p l) = filter p l.
Proof.
  induction l as [|x l IH]; [reflexivity|]. cbn.
  destruct (p x) eqn:E; [|exact IH]. cbn. rewrite E, IH. reflexivity.
Qed.

(** X7: the messages of the roles [system] and [mermaid] play no part:
    a run on a history is the run on its user and assistant messages. *)
Theorem other_roles_ignored
        (env : Env) (backend : Backend) (history : list ChatMessage) :
  run (generateMermaidScriptFromConversation env backend history)
  = run (generateMermaidScriptFromConversation
           env backend (filter isUserOrAssistant history)).
Proof.
  rewrite !generate_eq. unfold contentOf. rewrite !filter_idem.
  reflexivity.
Qed.

(** The text of the chunks of a stream is the concatenation of the
    texts of their parts. *)
Lemma partText_fold (ps : list Part) (acc : jsstring) :
  fold_left partText ps acc = acc ++ fold_left partText ps [].
Proof.
  revert acc. induction ps as [|p ps IH]; intros acc; cbn [fold_left].
  - symmetry. apply app_nil_r.
  - rewrite (IH (partText acc p)), (IH (partText [] p)).
    rewrite app_assoc. f_equal. unfold partText.
    destruct (text p) as [t|]; [|symmetry; apply app_nil_r].
    destruct (truthy t); [reflexivity | symmetry; apply app_nil_r].
Qed.

Lemma chunkText_fold (cs : list Chunk) (acc : jsstring) :
  fold_left chunkText cs acc = acc ++ fold_left chunkText cs [].
Proof.
  revert acc. induction cs as [|c cs IH]; intros acc; cbn [fold_left].
  - symmetry. apply app_nil_r.
  - rewrite (IH (chunkText acc c)), (IH (chunkText [] c)).
    rewrite app_assoc. f_equal. unfold chunkText.
    destruct c as [ps|]; [apply partText_fold | symmetry; apply app_nil_r].
Qed.

(** X8: the text accumulated from a stream does not depend on how the
    stream is cut: the text of two runs of chunks one after the other is
    the text of the first followed by the text of the second, and one
    chunk with the parts of two chunks gives the text of the two. *)
Theorem accumulate_concatenates (cs1 cs2 : list Chunk) (ps1 ps2 : list Part) :
  accumulate (cs1 ++ cs2) = accumulate cs1 ++ accumulate cs2
  /\ accumulate [Some (ps1 ++ ps2)] = accumulate [Some ps1; Some ps2].
Proof.
  unfold accumulate. split.
  - rewrite fold_left_app. apply chunkText_fold.
  - cbn [fold_left chunkText]. apply fold_left_app.
Qed.

(** X9: what the executor returns is never empty and has no white space
    at its ends, and the executor makes exactly one request, that of its
    attempt with the prompt of the attempt. *)
Theorem executor_result_trimmed_nonempty
        (backend : Backend) (conversationContent : jsstring)
        (attemptNumber : nat) (tr tr' : Trace) (result : jsstring) :
  attemptMermaidGeneration backend conversationContent attemptNumber tr
  = (tr', inl result) ->
  result <> []
  /\ trim result = result
  /\ tr' = tr ++ [Request attemptNumber
                          (getPromptForAttempt attemptNumber
                                               conversationContent)].
Proof.
  unfold attemptMermaidGeneration, bind, emit, throw, ret. cbv zeta.
  destruct (backend attemptNumber _) as [chunks|e|]; try discriminate.
  destruct (truthy (trim (accumulate chunks))) eqn:Ht; cbn [negb];
    [|discriminate].
  intros H. injection H as <- <-. repeat split.
  - intros E. rewrite E in Ht. discriminate Ht.
  - apply trim_idem.
Qed.

Lemma executor_result_trimmed_nonempty_witness :
  NO_DIAGRAM <> []
  /\ trim NO_DIAGRAM = NO_DIAGRAM
  /\ [Request 2 (getPromptForAttempt 2 (contentOf conversation))]
     = [] ++ [Request 2 (getPromptForAttempt 2 (contentOf conversation))].
Proof.
  apply (executor_result_trimmed_nonempty
           sentinelSecond (contentOf conversation) 2 []).
  vm_compute. reflexivity.
Defined.

(** A key that is shorter than eleven characters, or is white space
    only, is not accepted. *)
Lemma short_or_blank_key_invalid (apiKey : jsstring) :
  length apiKey <= 10 \/ forallb isWhiteSpace apiKey = true ->
  validateApiKey {| VITE_GEMINI_API_KEY := Some apiKey |} = false.
Proof.
  unfold validateApiKey. cbn [VITE_GEMINI_API_KEY]. intros [H|H].
  - assert (E : (10 <? length apiKey) = false) by (apply Nat.ltb_ge; exact H).
    rewrite E. apply andb_false_r.
  - assert (E : trim apiKey = []).
    { unfold trim, trimStart, trimEnd.
      assert (D : forall w, forallb isWhiteSpace w = true ->
                            dropWhile isWhiteSpace w = []).
      { intros w Hw. rewrite <- (app_nil_r w).
        rewrite dropWhile_all by exact Hw. reflexivity. }
      rewrite (D _ H). reflexivity. }
    rewrite E. cbn [strEq negb]. rewrite andb_false_r. reflexivity.
Qed.

(** X10: without a usable API key (none configured, one of at most ten
    characters, or one of white space only) the orchestrator makes no
    request, whatever the conversation and the backend, and fails with
    the authentication message. *)
Theorem unusable_key_fails_before_any_request
        (env : Env) (backend : Backend) (history : list ChatMessage) :
  match VITE_GEMINI_API_KEY env with
  | None => True
  | Some apiKey =>
      length apiKey <= 10 \/ forallb isWhiteSpace apiKey = true
  end ->
  run (generateMermaidScriptFromConversation env backend history)
  = ([], inr (ErrorObj (authenticationError userMessages))).
Proof.
  intros H. rewrite generate_eq.
  assert (E : validateApiKey env = false).
  { destruct env as [[apiKey|]]; cbn [VITE_GEMINI_API_KEY] in H.
    - apply short_or_blank_key_invalid. exact H.
    - reflexivity. }
  rewrite E. reflexivity.
Qed.

Lemma unusable_key_fails_before_any_request_witness :
  run (generateMermaidScriptFromConversation
         {| VITE_GEMINI_API_KEY := Some (lit "            ") |}
         goodBackend conversation)
  = ([], inr (ErrorObj (authenticationError userMessages))).
Proof.
  apply unusable_key_fails_before_any_request.
  right. reflexivity.
Defined.

(* ================================================================== *)
(** ** Further properties: the validator and the cleaner *)
(* ================================================================== *)

Section TrimMore.

Lemma dropWhile_blank (w : jsstring) :
  forallb isWhiteSpace w = true -> dropWhile isWhiteSpace w = [].
Proof.
  intros Hw. rewrite <- (app_nil_r w).
  rewrite dropWhile_all by exact Hw. reflexivity.
Qed.

Lemma trim_blank (w : jsstring) :
  forallb isWhiteSpace w = true -> trim w = [].
Proof.
  intros Hw. unfold trim, trimEnd, trimStart.
  rewrite (dropWhile_blank w Hw). reflexivity.
Qed.

(** White space around a text does not change the trimmed text. *)
Lemma trim_surrounded (l s r : jsstring) :
  forallb isWhiteSpace l = true -> forallb isWhiteSpace r = true ->
  trim (l ++ s ++ r) = trim s.
Proof.
  intros Hl Hr.
  destruct (trim_split s) as [l' [r' [Es [Hl' [Hr' [Hstart Hend]]]]]].
  destruct (trim s) as [|c t] eqn:Et.
  - apply trim_blank. rewrite Es. cbn [app].
    rewrite !forallb_app, Hl, Hl', Hr', Hr. reflexivity.
  - rewrite Es.
    replace (l ++ (l' ++ (c :: t) ++ r') ++ r)
      with ((l ++ l') ++ (c :: t) ++ (r' ++ r))
      by (repeat rewrite <- app_assoc; reflexivity).
    apply trim_padded; try assumption.
    + rewrite forallb_app, Hl, Hl'. reflexivity.
    + rewrite forallb_app, Hr', Hr. reflexivity.
    + discriminate.
Qed.

End TrimMore.

Lemma validate_blank (script : jsstring) :
  trim script = [] -> validateMermaidScript script = false.
Proof.
  intros E. destruct (validateMermaidScript script) eqn:Hv; [|reflexivity].
  apply validate_true_inv in Hv as (_ & Hmin & _). rewrite E in Hmin.
  exfalso. revert Hmin. apply Nat.lt_nge. apply Nat.ltb_lt.
  vm_compute. reflexivity.
Qed.

Lemma validate_by_trim (script : jsstring) :
  validateMermaidScript script = validateMermaidScript (trim script).
Proof.
  destruct (trim script) as [|c t] eqn:E.
  - rewrite (validate_blank script E). symmetry. apply validate_blank.
    reflexivity.
  - rewrite <- E. symmetry. apply validate_trim. rewrite E. reflexivity.
Qed.

(** X11: white space before and after a text does not change the
    verdict of the validator. *)
Theorem validate_ignores_surrounding_space (l script r : jsstring) :
  forallb isWhiteSpace l = true -> forallb isWhiteSpace r = true ->
  validateMermaidScript (l ++ script ++ r) = validateMermaidScript script.
Proof.
  intros Hl Hr.
  rewrite (validate_by_trim (l ++ script ++ r)), (validate_by_trim script).
  rewrite trim_surrounded by assumption. reflexivity.
Qed.

Lemma validate_ignores_surrounding_space_witness :
  validateMermaidScript (newline ++ loginFlow ++ lit "  ")
  = validateMermaidScript loginFlow.
Proof.
  apply validate_ignores_surrounding_space; reflexivity.
Defined.

Section CleanValid.

Local Open Scope regex_scope.

Lemma typeStarts_no_backtick :
  forallb (fun ab => negb (Ascii.eqb (fst ab) "`"%char)) typeStarts = true.
Proof. vm_compute. reflexivity. Qed.

Lemma typed_first (x1 x2 : ascii) :
  typedStart x1 x2 ->
  isWhiteSpace x1 = false -> charMatches noFlags "`"%char x1 = false.
Proof.
  intros Ht _. unfold charMatches. cbn [ignoreCase noFlags].
  destruct (Ascii.eqb "`" x1) eqn:E; [|reflexivity].
  apply Ascii.eqb_eq in E. subst x1.
  pose proof typeStarts_no_backtick as H. rewrite forallb_forall in H.
  specialize (H _ Ht). cbn in H. discriminate H.
Qed.

(** The wrapper pattern does not match a text that starts with a
    character that is neither white space nor a backtick. *)
Lemma wrapper_no_match (x : ascii) (s : jsstring) :
  isWhiteSpace x = false -> charMatches noFlags "`"%char x = false ->
  exec noFlags wrapperRegex (x :: s) = None.
Proof.
  intros Hx Hb. unfold exec. rewrite execFrom_miss.
  - unfold wrapperRegex. apply execFrom_bol_later. reflexivity.
  - unfold matchAt, wrapperRegex.
    rewrite rmatch_cat, rmatch_bol by reflexivity.
    rewrite rmatch_cat. unfold space at 1.
    rewrite star_cls_unfold. cbn [rest]. rewrite Hx.
    rewrite rmatch_cat.
    apply (chars_fail_first "`" "`" (lit "`") noFlags x s
             {| before := None; rest := x :: s; caps := [] |} _ eq_refl Hb).
Qed.

(** The prefix patterns remove nothing from a text with a typed
    start. *)
Lemma prefixes_keep (x1 x2 : ascii) (t' : jsstring) :
  typedStart x1 x2 ->
  fold_left (fun acc prefix => replaceEmpty flagI prefix acc)
            prefixesToRemove (x1 :: x2 :: t')
  = x1 :: x2 :: t'.
Proof.
  intros Hts.
  assert (Hblk : forall c1 c2, In (c1, c2) patternStarts ->
                   charMatches flagI c1 x1 && charMatches flagI c2 x2 = false).
  { intros c1 c2 Hin. apply typed_blocks; assumption. }
  unfold prefixesToRemove, mermaidTail. cbn [fold_left].
  rewrite (prefix_no_match flagI "h" "e" "r" (lit "e"))
    by (try apply Hblk; unfold patternStarts; cbn [In]; tauto).
  rewrite (prefix_no_match flagI "t" "h" "i" (lit "s is"))
    by (try apply Hblk; unfold patternStarts; cbn [In]; tauto).
  rewrite (prefix_no_match flagI "g" "e" "n" (lit "erate"))
    by (try apply Hblk; unfold patternStarts; cbn [In]; tauto).
  rewrite (prefix_no_match flagI "w" "o" "r" (lit "kflow"))
    by (try apply Hblk; unfold patternStarts; cbn [In]; tauto).
  rewrite (prefix_no_match flagI "d" "i" "a" (lit "gram"))
    by (try apply Hblk; unfold patternStarts; cbn [In]; tauto).
  reflexivity.
Qed.

(** What is known of the trimmed text of a valid script. *)
Lemma valid_trimmed_shape (s : jsstring) :
  validateMermaidScript s = true ->
  exists x1 x2 t',
    trim s = x1 :: x2 :: t' /\ typedStart x1 x2
    /\ isWhiteSpace x1 = false /\ truthy s = true.
Proof.
  intros Hvalid.
  destruct (validate_true_inv s Hvalid) as (Htr & _ & _ & Hty & _).
  destruct (valid_typed_start _ Hty) as [x1 [x2 [t' [Et Hts]]]].
  destruct (trim_split s) as [_ [_ [_ [_ [_ [Hstart _]]]]]].
  exists x1, x2, t'. repeat split; try assumption.
  rewrite Et in Hstart. eapply dropWhile_head. exact Hstart.
Qed.

Lemma clean_valid (s : jsstring) :
  validateMermaidScript s = true -> cleanMermaidScript s = trim s.
Proof.
  intros Hvalid.
  destruct (valid_trimmed_shape s Hvalid)
    as [x1 [x2 [t' [Et [Hts [Hx1 Htr]]]]]].
  unfold cleanMermaidScript. cbv zeta. rewrite Htr. cbn [negb].
  rewrite Et.
  rewrite (wrapper_no_match x1 (x2 :: t') Hx1 (typed_first x1 x2 Hts Hx1)).
  rewrite (prefixes_keep x1 x2 t' Hts).
  rewrite <- Et. apply trim_idem.
Qed.

End CleanValid.

(** X12: the cleaner leaves a valid script as it is, but for the white
    space around it: the cleaned text is the trimmed script, it is valid
    again, and cleaning it once more changes nothing. *)
Theorem clean_keeps_valid_script (s : jsstring) :
  validateMermaidScript s = true ->
  cleanMermaidScript s = trim s
  /\ validateMermaidScript (cleanMermaidScript s) = true
  /\ cleanMermaidScript (cleanMermaidScript s) = cleanMermaidScript s.
Proof.
  intros Hvalid.
  assert (E : cleanMermaidScript s = trim s) by (apply clean_valid; exact Hvalid).
  assert (Hv : validateMermaidScript (trim s) = true)
    by (rewrite <- validate_by_trim; exact Hvalid).
  rewrite E. repeat split; [exact Hv|].
  rewrite (clean_valid (trim s) Hv). apply trim_idem.
Qed.

Lemma clean_keeps_valid_script_witness :
  cleanMermaidScript (loginFlow ++ newline) = trim (loginFlow ++ newline)
  /\ validateMermaidScript (cleanMermaidScript (loginFlow ++ newline)) = true
  /\ cleanMermaidScript (cleanMermaidScript (loginFlow ++ newline))
     = cleanMermaidScript (loginFlow ++ newline).
Proof.
  apply clean_keeps_valid_script. vm_compute. reflexivity.
Defined.

(** X13: every prompt names the sentinel, so that the model can answer
    with it on any attempt. *)
Theorem every_prompt_names_sentinel (attemptNumber : nat) (X : jsstring) :
  substringOf NO_DIAGRAM (getPromptForAttempt attemptNumber X).
Proof.
  assert (Hp : substringOf NO_DIAGRAM (primary X)).
  { unfold primary. set (T := textLines _).
    exists (firstn 568 T), (skipn 578 T ++ X).
    transitivity ((firstn 568 T ++ NO_DIAGRAM ++ skipn 578 T) ++ X).
    - f_equal; try (vm_compute; reflexivity).
    - rewrite <- !app_assoc. reflexivity. }
  assert (Hs : substringOf NO_DIAGRAM (secondary X)).
  { unfold secondary.
    set (T1 := textLines [_; _; _]). set (T2 := textLines _).
    exists (T1 ++ X ++ firstn 171 T2), [].
    transitivity (T1 ++ X ++ (firstn 171 T2 ++ NO_DIAGRAM)).
    - do 2 f_equal; try (vm_compute; reflexivity).
    - rewrite app_nil_r, <- !app_assoc. reflexivity. }
  assert (Hf : substringOf NO_DIAGRAM (fallback X)).
  { unfold fallback.
    set (T1 := textLines [_; _; _]). set (T2 := textLines _).
    exists (T1 ++ X ++ firstn 88 T2), [].
    transitivity (T1 ++ X ++ (firstn 88 T2 ++ NO_DIAGRAM)).
    - do 2 f_equal; try (vm_compute; reflexivity).
    - rewrite app_nil_r, <- !app_assoc. reflexivity. }
  destruct attemptNumber as [|[|[|n]]]; assumption.
Qed.

Section LegacyStripper.

Local Open Scope regex_scope.

Lemma phrase_no_match (fl : flags) (c1 c2 c3 : ascii) (p : jsstring)
      (x1 x2 : ascii) (s : jsstring) :
  multiline fl = false ->
  charMatches fl c1 x1 && charMatches fl c2 x2 = false ->
  replaceEmpty fl (Bol ;; chars (c1 :: c2 :: c3 :: p)) (x1 :: x2 :: s)
  = x1 :: x2 :: s.
Proof.
  intros Hm Hblk. unfold replaceEmpty, exec.
  rewrite execFrom_miss.
  - rewrite execFrom_bol_later by exact Hm. reflexivity.
  - unfold matchAt. rewrite rmatch_cat, rmatch_bol by reflexivity.
    apply (chars_fail c1 c2 c3 p fl x1 x2 s
             {| before := None; rest := x1 :: x2 :: s; caps := [] |}
             _ eq_refl Hblk).
Qed.

(** The phrases of the legacy stripper remove nothing from a trimmed
    text with a typed start. *)
Lemma phrases_keep (x1 x2 : ascii) (t' : jsstring) :
  typedStart x1 x2 ->
  trim (x1 :: x2 :: t') = x1 :: x2 :: t' ->
  fold_left (fun acc phrase => trim (replaceEmpty flagI phrase acc))
            GeminiChat.phrasesToRemove (x1 :: x2 :: t')
  = x1 :: x2 :: t'.
Proof.
  intros Hts Htrim.
  assert (Hblk : forall c1 c2, In (c1, c2) patternStarts ->
                   charMatches flagI c1 x1 && charMatches flagI c2 x2 = false).
  { intros c1 c2 Hin. apply typed_blocks; assumption. }
  assert (Hhe : charMatches flagI "h" x1 && charMatches flagI "e" x2 = false)
    by (apply Hblk; unfold patternStarts; cbn [In]; tauto).
  assert (Hth : charMatches flagI "t" x1 && charMatches flagI "h" x2 = false)
    by (apply Hblk; unfold patternStarts; cbn [In]; tauto).
  assert (Hge : charMatches flagI "g" x1 && charMatches flagI "e" x2 = false)
    by (apply Hblk; unfold patternStarts; cbn [In]; tauto).
  assert (Hme : charMatches flagI "m" x1 && charMatches flagI "e" x2 = false)
    by (apply Hblk; unfold patternStarts; cbn [In]; tauto).
  assert (Hdi : charMatches flagI "d" x1 && charMatches flagI "i" x2 = false)
    by (apply Hblk; unfold patternStarts; cbn [In]; tauto).
  assert (Hwo : charMatches flagI "w" x1 && charMatches flagI "o" x2 = false)
    by (apply Hblk; unfold patternStarts; cbn [In]; tauto).
  unfold GeminiChat.phrasesToRemove. cbn [map fold_left].
  rewrite (phrase_no_match flagI "h" "e" "r" (lit "e's a mermaid diagram:"))
    by (reflexivity || assumption). rewrite Htrim.
  rewrite (phrase_no_match flagI "h" "e" "r" (lit "e is a mermaid diagram:"))
    by (reflexivity || assumption). rewrite Htrim.
  rewrite (phrase_no_match flagI "t" "h" "i" (lit "s is a mermaid diagram:"))
    by (reflexivity || assumption). rewrite Htrim.
  rewrite (phrase_no_match flagI "t" "h" "e" (lit " mermaid diagram is:"))
    by (reflexivity || assumption). rewrite Htrim.
  rewrite (phrase_no_match flagI "h" "e" "r" (lit "e's the workflow:"))
    by (reflexivity || assumption). rewrite Htrim.
  rewrite (phrase_no_match flagI "h" "e" "r" (lit "e is the workflow:"))
    by (reflexivity || assumption). rewrite Htrim.
  rewrite (phrase_no_match flagI "t" "h" "e" (lit " workflow diagram:"))
    by (reflexivity || assumption). rewrite Htrim.
  rewrite (phrase_no_match flagI "g" "e" "n" (lit "erated mermaid script:"))
    by (reflexivity || assumption). rewrite Htrim.
  rewrite (phrase_no_match flagI "m" "e" "r" (lit "maid script:"))
    by (reflexivity || assumption). rewrite Htrim.
  rewrite (phrase_no_match flagI "d" "i" "a" (lit "gram:"))
    by (reflexivity || assumption). rewrite Htrim.
  rewrite (phrase_no_match flagI "w" "o" "r" (lit "kflow:"))
    by (reflexivity || assumption). rewrite Htrim.
  rewrite (phrase_no_match flagI "h" "e" "r" (lit "e's the diagram:"))
    by (reflexivity || assumption). rewrite Htrim.
  rewrite (phrase_no_match flagI "h" "e" "r" (lit "e is the diagram:"))
    by (reflexivity || assumption). rewrite Htrim.
  reflexivity.
Qed.

Lemma strip_valid (s : jsstring) :
  validateMermaidScript s = true ->
  GeminiChat.stripMermaidWrappers s = trim s.
Proof.
  intros Hvalid.
  destruct (valid_trimmed_shape s Hvalid)
    as [x1 [x2 [t' [Et [Hts [Hx1 Htr]]]]]].
  unfold GeminiChat.stripMermaidWrappers. cbv zeta. rewrite Htr.
  cbn [negb]. rewrite Et.
  rewrite (wrapper_no_match x1 (x2 :: t') Hx1 (typed_first x1 x2 Hts Hx1)).
  apply phrases_keep; [exact Hts|]. rewrite <- Et. apply trim_idem.
Qed.

Lemma strip_fenced (ws1 tag ws2 s ws3 ws4 : jsstring) :
  forallb isWhiteSpace ws1 = true -> forallb isWhiteSpace ws2 = true ->
  forallb isWhiteSpace ws3 = true -> forallb isWhiteSpace ws4 = true ->
  validateMermaidScript s = true ->
  tag = [] \/ tag = lit "mermaid" ->
  GeminiChat.stripMermaidWrappers (fenced ws1 tag ws2 s ws3 ws4) = trim s.
Proof.
  intros Hws1 Hws2 Hws3 Hws4 Hvalid Htag.
  destruct (valid_trimmed_shape s Hvalid)
    as [x1 [x2 [t' [Et [Hts [Hx1 Htr]]]]]].
  destruct (trim_split s) as [l [r [Es [Hl [Hr [Hstart Hend]]]]]].
  unfold GeminiChat.stripMermaidWrappers. cbv zeta.
  assert (Hnonempty : truthy (fenced ws1 tag ws2 s ws3 ws4) = true).
  { unfold fenced. destruct ws1; reflexivity. }
  rewrite Hnonempty. cbn [negb].
  rewrite trim_fenced by assumption.
  destruct (wrapper_matchAt tag (ws2 ++ l) (trim s) (r ++ ws3) x1 x2 t')
    as [st [Hm Hcaps]]; try assumption.
  { rewrite forallb_app, Hws2, Hl. reflexivity. }
  { rewrite forallb_app, Hr, Hws3. reflexivity. }
  { apply typed_blocks; [exact Hts|].
    unfold patternStarts. cbn [In]. tauto. }
  replace (lit "```" ++ tag ++ ws2 ++ s ++ ws3 ++ lit "```")
    with (lit "```" ++ tag ++ (ws2 ++ l) ++ trim s ++ (r ++ ws3)
              ++ lit "```")
    by (rewrite Es at 2; repeat rewrite <- app_assoc; reflexivity).
  unfold exec. rewrite (execFrom_hit _ _ _ _ 0 st Hm).
  cbn [groups]. rewrite Hcaps. cbn [group Nat.eqb].
  rewrite Et at 1. cbn [truthy]. rewrite trim_idem.
  rewrite Et. apply phrases_keep; [exact Hts|].
  rewrite <- Et. apply trim_idem.
Qed.

End LegacyStripper.

(** X14: on a known-good script, bare or in a fenced code block with
    no tag or the tag [mermaid], the legacy [stripMermaidWrappers] and
    [cleanMermaidScript] give the same text, the trimmed script. *)
Theorem legacy_stripper_agrees_with_cleaner
        (s ws1 tag ws2 ws3 ws4 : jsstring) :
  validateMermaidScript s = true ->
  tag = [] \/ tag = lit "mermaid" ->
  forallb isWhiteSpace ws1 = true -> forallb isWhiteSpace ws2 = true ->
  forallb isWhiteSpace ws3 = true -> forallb isWhiteSpace ws4 = true ->
  GeminiChat.stripMermaidWrappers s = cleanMermaidScript s
  /\ GeminiChat.stripMermaidWrappers (fenced ws1 tag ws2 s ws3 ws4)
     = cleanMermaidScript (fenced ws1 tag ws2 s ws3 ws4)
  /\ GeminiChat.stripMermaidWrappers (fenced ws1 tag ws2 s ws3 ws4)
     = trim s.
Proof.
  intros Hvalid Htag H1 H2 H3 H4.
  rewrite (strip_valid s Hvalid), (clean_valid s Hvalid).
  rewrite (strip_fenced ws1 tag ws2 s ws3 ws4 H1 H2 H3 H4 Hvalid Htag).
  rewrite (clean_fenced ws1 tag ws2 s ws3 ws4 H1 H2 H3 H4 Hvalid Htag).
  auto.
Qed.

Lemma legacy_stripper_agrees_with_cleaner_witness :
  GeminiChat.stripMermaidWrappers loginFlow = cleanMermaidScript loginFlow
  /\ GeminiChat.stripMermaidWrappers
       (fenced [] [] newline loginFlow newline [])
     = cleanMermaidScript (fenced [] [] newline loginFlow newline [])
  /\ GeminiChat.stripMermaidWrappers
       (fenced [] [] newline loginFlow newline [])
     = trim loginFlow.
Proof.
  apply legacy_stripper_agrees_with_cleaner.
  - vm_compute. reflexivity.
  - left. reflexivity.
  - reflexivity.
  - reflexivity.
  - reflexivity.
  - reflexivity.
Defined.

Section SearchFacts.

(** A match at some position makes the search succeed. *)
Lemma execFrom_found (fl : flags) (r : regex) (post : jsstring)
      (st : mstate) :
  forall pre prev idx,
    matchAt fl r (lastBefore prev pre) post = Some st ->
    exists m, execFrom fl r prev (pre ++ post) idx = Some m.
Proof.
  induction pre as [|c pre IH]; intros prev idx Hm.
  - cbn [app]. rewrite (execFrom_hit fl r prev post idx st Hm).
    eexists. reflexivity.
  - cbn [app]. destruct (matchAt fl r prev (c :: pre ++ post)) as [st'|] eqn:E.
    + rewrite (execFrom_hit fl r prev _ idx st' E). eexists. reflexivity.
    + rewrite (execFrom_miss fl r prev c (pre ++ post) idx E).
      apply IH. exact Hm.
Qed.

Lemma test_found (fl : flags) (r : regex) (pre post : jsstring)
      (st : mstate) :
  matchAt fl r (lastBefore None pre) post = Some st ->
  test fl r (pre ++ post) = true.
Proof.
  intros Hm. unfold test, exec.
  destruct (execFrom_found fl r post st pre None 0 Hm) as [m ->].
  reflexivity.
Qed.

(** A literal run of characters, each matched under the flags. *)
Lemma chars_run_flags (fl : flags) (p P s' : jsstring) (k : cont) :
  Forall2 (fun c x => charMatches fl c x = true) p P ->
  forall st, rest st = P ++ s' ->
  rmatch fl (chars p) st k = k (advance st P s').
Proof.
  intros H. induction H as [|c x p P Hc H IH]; intros st Hrest.
  - cbn [chars rmatch]. rewrite (advance_nil_eq st s' Hrest). reflexivity.
  - destruct H as [|c' x' p' P' Hc' H'].
    + cbn [chars rmatch]. rewrite Hrest. cbn [app]. rewrite Hc. reflexivity.
    + change (chars (c :: c' :: p'))
        with (Cat (Chr c) (chars (c' :: p'))).
      cbn [rmatch]. rewrite Hrest. cbn [app]. rewrite Hc.
      apply (IH (step st x ((x' :: P') ++ s')) eq_refl).
Qed.

End SearchFacts.

Section DanglingArrow.

Local Open Scope regex_scope.

(** The bad patterns do not occur in the trimmed text of a valid
    script. *)
Lemma validate_true_patterns (script : jsstring) :
  validateMermaidScript script = true ->
  test noFlags reIncompleteNode (trim script) = false
  /\ test noFlags reInlineComment (trim script) = false
  /\ test flagM reDanglingArrow (trim script) = false.
Proof.
  unfold validateMermaidScript. cbv zeta.
  destruct (truthy script); [|discriminate]. cbn [negb].
  destruct (_ || _); [discriminate|].
  destruct (negb _); [discriminate|].
  destruct (negb (test noFlags reBrackets (trim script)) && _ && _ && _);
    [discriminate|].
  destruct (negb _); [discriminate|].
  cbn [existsb fst snd].
  destruct (test noFlags reIncompleteNode (trim script)); [discriminate|].
  destruct (test noFlags reInlineComment (trim script)); [discriminate|].
  destruct (test flagM reDanglingArrow (trim script)); [discriminate|].
  auto.
Qed.

Lemma dropWhile_app_stop (p : ascii -> bool) (a : jsstring) (x : ascii)
      (b : jsstring) :
  p x = false ->
  dropWhile p (a ++ x :: b) = dropWhile p a ++ x :: b.
Proof.
  intros Hx. induction a as [|c a IH]; cbn.
  - rewrite Hx. reflexivity.
  - destruct (p c); [exact IH | reflexivity].
Qed.

Lemma lineTerminator_space (c : ascii) :
  isLineTerminator c = true -> isWhiteSpace c = true.
Proof.
  unfold isLineTerminator, isWhiteSpace. intros H.
  apply orb_true_iff in H as [H|H]; rewrite H;
    repeat rewrite orb_true_r; reflexivity.
Qed.

(** What trimming leaves in front of an arrow that follows a line
    terminator and white space: nothing, or a text that ends with the
    line terminator and the white space. *)
Lemma trimStart_line (pre : jsstring) (c : ascii) (w : jsstring) :
  isLineTerminator c = true -> forallb isWhiteSpace w = true ->
  dropWhile isWhiteSpace (pre ++ c :: w) = []
  \/ exists pre2, dropWhile isWhiteSpace (pre ++ c :: w) = pre2 ++ c :: w.
Proof.
  intros Hc Hw. induction pre as [|x pre IH]; cbn.
  - rewrite (lineTerminator_space c Hc). left.
    rewrite <- (app_nil_r w). rewrite dropWhile_all by exact Hw. reflexivity.
  - destruct (isWhiteSpace x); [exact IH|].
    right. exists (x :: pre). reflexivity.
Qed.

Lemma trim_around_arrow (a post : jsstring) :
  trim (a ++ lit "-->" ++ post)
  = dropWhile isWhiteSpace a ++ lit "-->" ++ trimEnd post.
Proof.
  unfold trim, trimStart. cbn [lit list_ascii_of_string app].
  rewrite dropWhile_app_stop by reflexivity.
  unfold trimEnd, trimStart.
  replace (dropWhile isWhiteSpace a ++ "-"%char :: "-"%char :: ">"%char :: post)
    with ((dropWhile isWhiteSpace a ++ ["-"%char; "-"%char]) ++ ">"%char :: post)
    by (rewrite <- app_assoc; reflexivity).
  rewrite rev_app_distr. cbn [rev]. rewrite <- app_assoc. cbn [app].
  rewrite dropWhile_app_stop by reflexivity.
  rewrite rev_app_distr. cbn [rev app]. rewrite rev_involutive.
  rewrite <- !app_assoc. reflexivity.
Qed.

Lemma rmatch_bol_true (fl : flags) (st : mstate) (k : cont) :
  atLineStart fl st = true -> rmatch fl Bol st k = k st.
Proof. intros H. cbn [rmatch]. rewrite H. reflexivity. Qed.

Lemma rmatch_alt_left (fl : flags) (r1 r2 : regex) (st : mstate) (k : cont)
      res :
  rmatch fl r1 st k = Some res -> rmatch fl (Alt r1 r2) st k = Some res.
Proof. intros H. cbn [rmatch]. rewrite H. reflexivity. Qed.

Lemma chars_self (fl : flags) (p : jsstring) :
  ignoreCase fl = false ->
  Forall2 (fun c x => charMatches fl c x = true) p p.
Proof.
  intros Hi. induction p as [|c p IH]; constructor; [|exact IH].
  unfold charMatches. rewrite Hi. apply Ascii.eqb_refl.
Qed.

(** At the start of a line, white space then an arrow is a match of the
    dangling-arrow pattern. *)
Lemma danglingArrow_at_line_start (prev : option ascii) (w post : jsstring) :
  match prev with None => True | Some c => isLineTerminator c = true end ->
  forallb isWhiteSpace w = true ->
  exists st, matchAt flagM reDanglingArrow prev (w ++ lit "-->" ++ post)
             = Some st.
Proof.
  intros Hprev Hw. unfold matchAt, reDanglingArrow.
  eexists. apply rmatch_alt_left.
  rewrite rmatch_cat, rmatch_bol_true.
  2:{ unfold atLineStart. cbn [before].
      destruct prev as [c|]; [cbn; exact Hprev | reflexivity]. }
  rewrite rmatch_cat.
  eapply (star_greedy_run flagM isWhiteSpace _ w (lit "-->" ++ post) _ Hw).
  { reflexivity. }
  { reflexivity. }
  cbv beta.
  erewrite (chars_run_flags flagM (lit "-->") (lit "-->") post Some);
    [reflexivity | apply chars_self; reflexivity | reflexivity].
Qed.

End DanglingArrow.

(** X15: a script with a line that starts, after white space at most,
    with the arrow [-->] is rejected. *)
Theorem validate_rejects_line_starting_with_arrow
        (pre : jsstring) (c : ascii) (w post : jsstring) :
  isLineTerminator c = true ->
  forallb isWhiteSpace w = true ->
  validateMermaidScript (pre ++ c :: w ++ lit "-->" ++ post) = false.
Proof.
  intros Hc Hw.
  destruct (validateMermaidScript (pre ++ c :: w ++ lit "-->" ++ post))
    eqn:Hv; [exfalso|reflexivity].
  apply validate_true_patterns in Hv as (_ & _ & Hd).
  replace (pre ++ c :: w ++ lit "-->" ++ post)
    with ((pre ++ c :: w) ++ lit "-->" ++ post) in Hd
    by (rewrite <- app_assoc; reflexivity).
  rewrite trim_around_arrow in Hd.
  destruct (trimStart_line pre c w Hc Hw) as [E|[pre2 E]]; rewrite E in Hd.
  - destruct (danglingArrow_at_line_start None [] (trimEnd post) I eq_refl)
      as [st Hm].
    pose proof (test_found flagM reDanglingArrow [] _ st Hm) as Ht.
    cbn [app] in Ht, Hd. rewrite Ht in Hd. discriminate Hd.
  - destruct (danglingArrow_at_line_start (Some c) w (trimEnd post) Hc Hw)
      as [st Hm].
    replace ((pre2 ++ c :: w) ++ lit "-->" ++ trimEnd post)
      with ((pre2 ++ [c]) ++ w ++ lit "-->" ++ trimEnd post) in Hd
      by (rewrite <- !app_assoc; reflexivity).
    rewrite (test_found flagM reDanglingArrow (pre2 ++ [c]) _ st) in Hd.
    + discriminate Hd.
    + unfold lastBefore. rewrite fold_left_app. exact Hm.
Qed.

Lemma validate_rejects_line_starting_with_arrow_witness :
  validateMermaidScript
    (lit "flowchart TD" ++ "010"%char :: lit "  " ++ lit "-->"
         ++ lit " B[Login]")
  = false.
Proof.
  apply validate_rejects_line_starting_with_arrow; reflexivity.
Defined.

Section BadPatterns.

Local Open Scope regex_scope.

(** Trimming a text around a core that neither starts nor ends with
    white space leaves the core in place. *)
Lemma trimEnd_after_core (a core b : jsstring) (y : ascii) (rc : jsstring) :
  rev core = y :: rc -> isWhiteSpace y = false ->
  trimEnd (a ++ core ++ b) = a ++ core ++ trimEnd b.
Proof.
  intros Er Hy. unfold trimEnd, trimStart.
  rewrite !rev_app_distr, Er, <- app_assoc. cbn [app].
  rewrite dropWhile_app_stop by exact Hy.
  rewrite rev_app_distr. cbn [rev]. rewrite rev_app_distr, rev_involutive.
  assert (Ec : core = rev rc ++ [y]).
  { rewrite <- (rev_involutive core), Er. reflexivity. }
  rewrite Ec, <- !app_assoc. reflexivity.
Qed.

Lemma trim_around (a core b : jsstring) :
  core <> [] ->
  dropWhile isWhiteSpace core = core ->
  dropWhile isWhiteSpace (rev core) = rev core ->
  trim (a ++ core ++ b) = dropWhile isWhiteSpace a ++ core ++ trimEnd b.
Proof.
  intros Hne Hs He. unfold trim.
  assert (E1 : trimStart (a ++ core ++ b)
               = dropWhile isWhiteSpace a ++ core ++ b).
  { unfold trimStart. destruct core as [|x core']; [congruence|].
    cbn [app]. apply dropWhile_app_stop. eapply dropWhile_head. exact Hs. }
  rewrite E1.
  destruct (rev core) as [|y rc] eqn:Er.
  { apply (f_equal (@rev ascii)) in Er. rewrite rev_involutive in Er.
    cbn in Er. congruence. }
  apply (trimEnd_after_core _ core b y rc Er).
  eapply dropWhile_head. exact He.
Qed.

(** A starred class can stop after any run of characters of the class
    after which the continuation succeeds. *)
Lemma star_cls_some (fl : flags) (g : bool) (p : ascii -> bool) (k : cont)
      (w s' : jsstring) res :
  forallb p w = true ->
  forall st, rest st = w ++ s' ->
  k (advance st w s') = Some res ->
  exists res', rmatch fl (Star g (Cls p)) st k = Some res'.
Proof.
  intros Hw. induction w as [|c w IH]; intros st Hrest Hk.
  - cbn [app] in Hrest. rewrite (advance_nil_eq st s' Hrest) in Hk.
    rewrite star_cls_unfold, Hk.
    destruct (rest st) as [|x s'']; [eauto|].
    destruct (p x); [|eauto].
    destruct g; [|eauto].
    destruct (rmatch fl (Star true (Cls p)) (step st x s'') k); eauto.
  - cbn [forallb] in Hw. apply andb_true_iff in Hw as [Hc Hw].
    rewrite star_cls_unfold. cbn [app] in Hrest. rewrite Hrest, Hc.
    destruct (IH Hw (step st c (w ++ s')) eq_refl Hk) as [res' Hm].
    rewrite Hm. destruct g; [eauto|]. destruct (k st); eauto.
Qed.

(** A text with an opening bracket, then characters of a class, then a
    closing literal matches the pattern of the bracket, the lazily
    starred class and the literal. *)
Lemma opener_class_closer (opener : jsstring) (p : ascii -> bool)
      (closer mid post : jsstring) (prev : option ascii) :
  forallb p mid = true ->
  exists st,
    matchAt noFlags (chars opener ;; Star false (Cls p) ;; chars closer) prev
            (opener ++ mid ++ closer ++ post) = Some st.
Proof.
  intros Hmid. unfold matchAt. rewrite rmatch_cat.
  rewrite (chars_run opener (mid ++ closer ++ post)) by reflexivity.
  rewrite rmatch_cat.
  destruct (star_cls_some noFlags false p
              (fun st' => rmatch noFlags (chars closer) st' Some)
              mid (closer ++ post)
              (advance (advance (advance
                 {| before := prev; rest := opener ++ mid ++ closer ++ post;
                    caps := [] |} opener (mid ++ closer ++ post))
                 mid (closer ++ post)) closer post)
              Hmid
              (advance {| before := prev;
                          rest := opener ++ mid ++ closer ++ post;
                          caps := [] |} opener (mid ++ closer ++ post))
              eq_refl) as [res' Hm].
  - rewrite (chars_run closer post) by reflexivity. reflexivity.
  - exists res'. exact Hm.
Qed.

Lemma test_inside (r : regex) (fl : flags) (a core : jsstring) :
  (forall prev, exists st, matchAt fl r prev core = Some st) ->
  test fl r (a ++ core) = true.
Proof.
  intros H. destruct (H (lastBefore None a)) as [st Hm].
  exact (test_found fl r a core st Hm).
Qed.

End BadPatterns.

(** X16: a script in which an opening square bracket is followed, on
    the same line, by the comment marker ["; %%"] is rejected. *)
Theorem validate_rejects_inline_comment (a mid b : jsstring) :
  forallb (fun c => negb (isLineTerminator c)) mid = true ->
  validateMermaidScript (a ++ lit "[" ++ mid ++ lit "; %%" ++ b) = false.
Proof.
  intros Hmid.
  destruct (validateMermaidScript (a ++ lit "[" ++ mid ++ lit "; %%" ++ b))
    eqn:Hv; [exfalso|reflexivity].
  apply validate_true_patterns in Hv as (_ & Hc & _).
  replace (a ++ lit "[" ++ mid ++ lit "; %%" ++ b)
    with (a ++ (lit "[" ++ mid ++ lit "; %%") ++ b) in Hc
    by (rewrite <- !app_assoc; reflexivity).
  rewrite trim_around in Hc.
  - rewrite <- !app_assoc in Hc. rewrite test_inside in Hc; [discriminate Hc|].
    intros prev. unfold reInlineComment.
    apply (opener_class_closer (lit "[") _ (lit "; %%") mid (trimEnd b) prev
             Hmid).
  - discriminate.
  - reflexivity.
  - rewrite app_assoc, rev_app_distr. reflexivity.
Qed.

Lemma validate_rejects_inline_comment_witness :
  validateMermaidScript
    (lit "flowchart TD A" ++ lit "[" ++ lit "Start" ++ lit "; %%"
         ++ lit " note] --> B[End]")
  = false.
Proof.
  apply validate_rejects_inline_comment. reflexivity.
Defined.

(** X17: a script in which an ellipsis is followed by a closing square
    bracket, with no square bracket in between, is rejected: a label
    that ends with ["..."] makes a script invalid. *)
Theorem validate_rejects_ellipsis_before_bracket (a mid b : jsstring) :
  forallb (fun c => negb (Ascii.eqb c "["%char || Ascii.eqb c "]"%char)) mid
  = true ->
  validateMermaidScript (a ++ lit "..." ++ mid ++ lit "]" ++ b) = false.
Proof.
  intros Hmid.
  destruct (validateMermaidScript (a ++ lit "..." ++ mid ++ lit "]" ++ b))
    eqn:Hv; [exfalso|reflexivity].
  apply validate_true_patterns in Hv as (Hc & _ & _).
  replace (a ++ lit "..." ++ mid ++ lit "]" ++ b)
    with (a ++ (lit "..." ++ mid ++ lit "]") ++ b) in Hc
    by (rewrite <- !app_assoc; reflexivity).
  rewrite trim_around in Hc.
  - rewrite <- !app_assoc in Hc. rewrite test_inside in Hc; [discriminate Hc|].
    intros prev. unfold reIncompleteNode.
    apply (opener_class_closer (lit "...") _ (lit "]") mid (trimEnd b) prev
             Hmid).
  - discriminate.
  - reflexivity.
  - rewrite app_assoc, rev_app_distr. reflexivity.
Qed.

Lemma validate_rejects_ellipsis_before_bracket_witness :
  validateMermaidScript
    (lit "flowchart TD A[Loading" ++ lit "..." ++ [] ++ lit "]"
         ++ lit " --> B[End]")
  = false.
Proof.
  apply validate_rejects_ellipsis_before_bracket. reflexivity.
Defined.

Section DiagramLabel.

Local Open Scope regex_scope.

Lemma lower_matches (P : jsstring) :
  Forall2 (fun c x => charMatches flagI c x = true) (toLowerCase P) P.
Proof.
  induction P as [|x P IH]; cbn [toLowerCase map]; constructor; [|exact IH].
  unfold charMatches. cbn [ignoreCase flagI].
  rewrite canonicalize_lower. apply Ascii.eqb_refl.
Qed.

Lemma lower_space (c : ascii) :
  isWhiteSpace c = true -> toLowerCaseChar c = c.
Proof.
  destruct c as [[] [] [] [] [] [] [] []]; first [reflexivity | discriminate].
Qed.

Lemma colon_mismatch_space (c : ascii) :
  isWhiteSpace c = true -> charMatches flagI ":"%char c = false.
Proof.
  destruct c as [[] [] [] [] [] [] [] []]; first [reflexivity | discriminate].
Qed.

Lemma typeStarts_no_colon :
  forallb (fun ab => negb (Ascii.eqb (canonicalize ":"%char)
                                     (canonicalize (fst ab)))) typeStarts
  = true.
Proof. vm_compute. reflexivity. Qed.

Lemma colon_mismatch_typed (x1 x2 : ascii) :
  typedStart x1 x2 -> charMatches flagI ":"%char x1 = false.
Proof.
  intros Ht. destruct (charMatches flagI ":" x1) eqn:M; [|reflexivity].
  apply charMatches_lower in M.
  pose proof typeStarts_no_colon as H. rewrite forallb_forall in H.
  specialize (H _ Ht). cbn [fst] in H.
  change (toLowerCaseChar ":"%char) with ":"%char in M.
  rewrite M, Ascii.eqb_refl in H. discriminate H.
Qed.

Lemma trimEnd_blank (r : jsstring) :
  forallb isWhiteSpace r = true -> trimEnd r = [].
Proof.
  intros H. unfold trimEnd, trimStart.
  rewrite dropWhile_blank by (rewrite forallb_rev; exact H). reflexivity.
Qed.

(** The pattern [/^diagram:?\s*/i] takes a label [diagram], with or
    without its colon and in any letter case, and the white space after
    it, off the front of a text. *)
Lemma diagram_prefix_removed (D colon u : jsstring) (x1 x2 : ascii)
      (t' : jsstring) :
  toLowerCase D = lit "diagram" ->
  colon = [] \/ colon = lit ":" ->
  forallb isWhiteSpace u = true ->
  typedStart x1 x2 -> isWhiteSpace x1 = false ->
  replaceEmpty flagI
    (Bol ;; str "diagram" ;; Opt (Chr ":"%char) ;; Star true space)
    (D ++ colon ++ u ++ x1 :: x2 :: t')
  = x1 :: x2 :: t'.
Proof.
  intros HD Hcolon Hu Hts Hx1.
  set (t := x1 :: x2 :: t').
  assert (Hm : matchAt flagI
                 (Bol ;; str "diagram" ;; Opt (Chr ":"%char) ;; Star true space)
                 None (D ++ colon ++ u ++ t)
               = Some (advance (advance (advance
                   {| before := None; rest := D ++ colon ++ u ++ t;
                      caps := [] |} D (colon ++ u ++ t))
                   colon (u ++ t)) u t)).
  { unfold matchAt. rewrite rmatch_cat, rmatch_bol by reflexivity.
    rewrite rmatch_cat.
    rewrite (chars_run_flags flagI (lit "diagram") D (colon ++ u ++ t));
      [|rewrite <- HD; apply lower_matches|reflexivity].
    rewrite rmatch_cat.
    assert (Hstar : forall st1, rest st1 = u ++ t ->
                      rmatch flagI (Star true space) st1 Some
                      = Some (advance st1 u t)).
    { intros st1 Hrest.
      apply (star_greedy_run flagI isWhiteSpace Some u t _ Hu);
        [exact Hx1 | exact Hrest | reflexivity]. }
    destruct Hcolon as [-> | ->].
    - rewrite opt_skip.
      + cbn [app]. rewrite Hstar by reflexivity. reflexivity.
      + change (rmatch flagI (Chr ":"%char) ?st ?k)
          with (match rest st with
                | x :: s' => if charMatches flagI ":"%char x
                             then k (step st x s') else None
                | [] => None
                end).
        cbn [rest advance app].
        destruct u as [|c u'].
        * cbn [app]. unfold t. rewrite (colon_mismatch_typed x1 x2 Hts).
          reflexivity.
        * cbn [app]. cbn [forallb] in Hu.
          apply andb_true_iff in Hu as [Hc _].
          rewrite (colon_mismatch_space c Hc). reflexivity.
    - apply opt_take.
      rewrite (chars_run_flags flagI (lit ":") (lit ":") (u ++ t));
        [|repeat constructor|reflexivity].
      rewrite Hstar by reflexivity. reflexivity. }
  unfold replaceEmpty, exec. rewrite (execFrom_hit _ _ _ _ 0 _ Hm).
  reflexivity.
Qed.

End DiagramLabel.

Section DiagramLabelClean.

Local Open Scope regex_scope.

Lemma first_char_blocks (fl : flags) (c1 c2 x1 x2 : ascii) :
  Ascii.eqb (canonicalize (toLowerCaseChar c1))
            (canonicalize (toLowerCaseChar x1)) = false ->
  charMatches fl c1 x1 && charMatches fl c2 x2 = false.
Proof.
  intros H. destruct (charMatches fl c1 x1) eqn:M; [|reflexivity].
  apply charMatches_lower in M. rewrite M, Ascii.eqb_refl in H.
  discriminate H.
Qed.

Lemma clean_labelled (D colon w s : jsstring) :
  toLowerCase D = lit "diagram" ->
  colon = [] \/ colon = lit ":" ->
  forallb isWhiteSpace w = true ->
  validateMermaidScript s = true ->
  cleanMermaidScript (D ++ colon ++ w ++ s) = trim s.
Proof.
  intros HD Hcolon Hw Hvalid.
  destruct (valid_trimmed_shape s Hvalid)
    as [x1 [x2 [t' [Et [Hts [Hx1 _]]]]]].
  destruct (trim_split s) as [l [r [Es [Hl [Hr [Hstart Hend]]]]]].
  destruct D as [|d1 [|d2 D']]; try discriminate HD.
  cbn [toLowerCase map] in HD.
  assert (Hd1 : toLowerCaseChar d1 = "d"%char) by (injection HD; auto).
  assert (Hd2 : toLowerCaseChar d2 = "i"%char) by (injection HD; auto).
  assert (Hd1s : isWhiteSpace d1 = false).
  { destruct (isWhiteSpace d1) eqn:E; [|reflexivity].
    rewrite (lower_space d1 E) in Hd1. subst d1. discriminate E. }
  (* the trimmed text *)
  assert (Etrim : trim ((d1 :: d2 :: D') ++ colon ++ w ++ s)
                  = (d1 :: d2 :: D') ++ colon ++ (w ++ l) ++ trim s).
  { rewrite Es at 1.
    replace ((d1 :: d2 :: D') ++ colon ++ w ++ l ++ trim s ++ r)
      with ([] ++ ((d1 :: d2 :: D') ++ colon ++ (w ++ l) ++ trim s) ++ r)
      by (cbn [app]; repeat rewrite <- app_assoc; reflexivity).
    rewrite trim_around.
    - rewrite (trimEnd_blank r Hr), app_nil_r. reflexivity.
    - discriminate.
    - cbn [app]. apply dropWhile_stop. exact Hd1s.
    - rewrite !app_assoc, rev_app_distr, Et. rewrite Et in Hend.
      destruct (rev (x1 :: x2 :: t')) as [|y rc] eqn:Er.
      + apply (f_equal (@rev ascii)) in Er. rewrite rev_involutive in Er.
        discriminate Er.
      + cbn [app]. apply dropWhile_stop. eapply dropWhile_head. exact Hend. }
  unfold cleanMermaidScript. cbv zeta.
  change (truthy ((d1 :: d2 :: D') ++ colon ++ w ++ s)) with true.
  cbn [negb]. rewrite Etrim.
  (* no wrapper *)
  assert (Hbt : charMatches noFlags "`"%char d1 = false).
  { unfold charMatches. cbn [ignoreCase noFlags].
    destruct (Ascii.eqb "`" d1) eqn:E; [|reflexivity].
    apply Ascii.eqb_eq in E. subst d1. discriminate Hd1. }
  cbn [app]. rewrite (wrapper_no_match d1 _ Hd1s Hbt).
  (* the first four prefixes *)
  unfold prefixesToRemove, mermaidTail. cbn [fold_left].
  rewrite (prefix_no_match flagI "h" "e" "r" (lit "e"))
    by (try reflexivity; apply first_char_blocks; rewrite Hd1; reflexivity).
  rewrite (prefix_no_match flagI "t" "h" "i" (lit "s is"))
    by (try reflexivity; apply first_char_blocks; rewrite Hd1; reflexivity).
  rewrite (prefix_no_match flagI "g" "e" "n" (lit "erate"))
    by (try reflexivity; apply first_char_blocks; rewrite Hd1; reflexivity).
  rewrite (prefix_no_match flagI "w" "o" "r" (lit "kflow"))
    by (try reflexivity; apply first_char_blocks; rewrite Hd1; reflexivity).
  (* the fifth *)
  change (d1 :: d2 :: D' ++ colon ++ (w ++ l) ++ trim s)
    with ((d1 :: d2 :: D') ++ colon ++ (w ++ l) ++ trim s).
  rewrite Et.
  rewrite (diagram_prefix_removed (d1 :: d2 :: D') colon (w ++ l) x1 x2 t');
    try assumption.
  - rewrite <- Et. apply trim_idem.
  - rewrite forallb_app, Hw, Hl. reflexivity.
Qed.

End DiagramLabelClean.

(** X18: a label [diagram] or [diagram:], in any letter case, in front
    of a known-good script, with any white space between the two, is
    removed by the cleaner: the cleaned text is the trimmed script, which
    is valid. *)
Theorem clean_removes_diagram_label (label colon w s : jsstring) :
  toLowerCase label = lit "diagram" ->
  colon = [] \/ colon = lit ":" ->
  forallb isWhiteSpace w = true ->
  validateMermaidScript s = true ->
  cleanMermaidScript (label ++ colon ++ w ++ s) = trim s
  /\ validateMermaidScript (cleanMermaidScript (label ++ colon ++ w ++ s))
     = true.
Proof.
  intros Hl Hc Hw Hv.
  rewrite (clean_labelled label colon w s Hl Hc Hw Hv).
  split; [reflexivity|]. rewrite <- validate_by_trim. exact Hv.
Qed.

Lemma clean_removes_diagram_label_witness :
  cleanMermaidScript (lit "Diagram" ++ lit ":" ++ newline ++ loginFlow)
  = trim loginFlow
  /\ validateMermaidScript
       (cleanMermaidScript (lit "Diagram" ++ lit ":" ++ newline ++ loginFlow))
     = true.
Proof.
  apply clean_removes_diagram_label.
  - reflexivity.
  - right. reflexivity.
  - reflexivity.
  - vm_compute. reflexivity.
Defined.

(* ================================================================== *)
(** ** Further properties: chat completion and the callers *)
(* ================================================================== *)

Section ChatCompletion.

Import GeminiChat.

Lemma handleGeminiApiError_is_error (e : Thrown) :
  exists m, handleGeminiApiError e = ErrorObj m.
Proof.
  destruct e as [m|]; [|eexists; reflexivity].
  destruct (handleGeminiApiError_message m) as [m' [E _]]. eauto.
Qed.

Lemma requestContents_roles (messages : list ChatMessage) :
  Forall (fun c => requestRole c = lit "user" \/ requestRole c = lit "model")
         (requestContents messages)
  /\ map requestText (requestContents messages)
     = map Gemini.content (filter isUserOrAssistant messages).
Proof.
  unfold requestContents. split.
  - apply Forall_forall. intros c Hin. apply in_map_iff in Hin
      as [message [<- Hin]]. apply filter_In in Hin as [_ Hua].
    unfold isUserOrAssistant in Hua. cbn [requestRole].
    destruct (role message); try discriminate Hua; auto.
  - rewrite map_map. reflexivity.
Qed.

Lemma completion_failure_is_error
      (env : Env) (typeError : Thrown) (backend : ChatBackend)
      (messages : list ChatMessage)
      (requests : list (list RequestContent)) (e : Thrown) :
  generateGeminiCompletion env typeError backend messages
  = (requests, inr e) ->
  exists m, e = ErrorObj m.
Proof.
  unfold generateGeminiCompletion. cbv zeta.
  pose proof handleGeminiApiError_is_error as HE.
  destruct (validateApiKey env); cbn [negb].
  - destruct (backend _) as [chunks|e'].
    + destruct (processChunks typeError chunks []) as [s|e'].
      * destruct (truthy s); cbn [negb]; [discriminate|].
        intros H. injection H as _ <-.
        first [apply HE | eexists; reflexivity].
      * intros H. injection H as _ <-. apply HE.
    + intros H. injection H as _ <-. apply HE.
  - intros H. injection H as _ <-.
    first [apply HE | eexists; reflexivity].
Qed.

End ChatCompletion.

(** X19: a chat completion makes no request without a usable API key
    and exactly one otherwise; the request holds the user and assistant
    messages in order, the assistant under the role [model]; what it
    returns is never the empty text, and what it throws is always an
    [Error]. *)
Theorem chat_completion_outcomes
        (env : Env) (typeError : Thrown) (backend : GeminiChat.ChatBackend)
        (messages : list ChatMessage)
        (requests : list (list GeminiChat.RequestContent))
        (res : jsstring + Thrown) :
  GeminiChat.generateGeminiCompletion env typeError backend messages
  = (requests, res) ->
  requests = (if validateApiKey env
              then [GeminiChat.requestContents messages] else [])
  /\ Forall (fun c => GeminiChat.requestRole c = lit "user"
                      \/ GeminiChat.requestRole c = lit "model")
            (GeminiChat.requestContents messages)
  /\ map GeminiChat.requestText (GeminiChat.requestContents messages)
     = map Gemini.content (filter isUserOrAssistant messages)
  /\ match res with
     | inl fullResponse => fullResponse <> []
     | inr e =>
         (exists m, e = ErrorObj m)
         /\ (validateApiKey env = false ->
             e = ErrorObj (authenticationError userMessages))
     end.
Proof.
  intros H.
  destruct (requestContents_roles messages) as [Hroles Htexts].
  split; [|split; [exact Hroles|split; [exact Htexts|]]];
    revert H; unfold GeminiChat.generateGeminiCompletion; cbv zeta;
    destruct (validateApiKey env); cbn [negb].
  - destruct (backend _) as [chunks|e].
    + destruct (GeminiChat.processChunks typeError chunks []) as [s|e].
      * destruct (truthy s); intros H; injection H as <- _; reflexivity.
      * intros H; injection H as <- _; reflexivity.
    + intros H; injection H as <- _; reflexivity.
  - intros H; injection H as <- _; reflexivity.
  - destruct (backend _) as [chunks|e].
    + destruct (GeminiChat.processChunks typeError chunks []) as [s|e].
      * destruct (truthy s) eqn:Ht; cbn [negb]; intros H;
          injection H as _ <-.
        -- intros E. subst s. discriminate Ht.
        -- split; [first [apply handleGeminiApiError_is_error | eexists; reflexivity] | discriminate].
      * intros H; injection H as _ <-.
        split; [first [apply handleGeminiApiError_is_error | eexists; reflexivity] | discriminate].
    + intros H; injection H as _ <-.
      split; [first [apply handleGeminiApiError_is_error | eexists; reflexivity] | discriminate].
  - intros H; injection H as _ <-.
    split; [first [apply handleGeminiApiError_is_error | eexists; reflexivity]|].
    intros _. vm_compute. reflexivity.
Qed.

Lemma chat_completion_outcomes_witness :
  [ [ {| GeminiChat.requestRole := lit "user";
         GeminiChat.requestText := lit "I want a login flow" |} ] ]
  = (if validateApiKey Scenario.env
     then [GeminiChat.requestContents conversation] else [])
  /\ Forall (fun c => GeminiChat.requestRole c = lit "user"
                      \/ GeminiChat.requestRole c = lit "model")
            (GeminiChat.requestContents conversation)
  /\ map GeminiChat.requestText (GeminiChat.requestContents conversation)
     = map Gemini.content (filter isUserOrAssistant conversation)
  /\ lit "Sure" <> [].
Proof.
  apply (chat_completion_outcomes
           Scenario.env OtherValue
           (fun _ => GeminiChat.ChatStreamed
              [ {| GeminiChat.candidates :=
                     Some [ {| GeminiChat.content :=
                                 Some {| GeminiChat.parts :=
                                           Some [ {| text := Some (lit "Sure") |} ]
                                      |} |} ] |} ])
           conversation _ (inl (lit "Sure"))).
  vm_compute. reflexivity.
Defined.

(** X20: whatever a chat completion fails with, the error that
    [handleSearch] shows has the type [api_error] and the message of the
    thrown [Error]: the type [network_error] of the legacy handler does
    not reach the user. *)
Theorem search_error_always_api_error
        (env : Env) (typeError : Thrown) (backend : GeminiChat.ChatBackend)
        (messages : list ChatMessage)
        (requests : list (list GeminiChat.RequestContent))
        (e : Thrown) (now : nat) :
  GeminiChat.generateGeminiCompletion env typeError backend messages
  = (requests, inr e) ->
  exists m,
    e = ErrorObj m
    /\ HomePage.searchErrorOf now e
       = {| GeminiChat.message := m;
            GeminiChat.type := GeminiChat.api_error;
            GeminiChat.timestamp := now |}.
Proof.
  intros H.
  destruct (completion_failure_is_error _ _ _ _ _ _ H) as [m ->].
  exists m. split; [reflexivity|].
  unfold HomePage.searchErrorOf. cbv zeta.
  rewrite (proj1 (legacy_handler_classification now) m).
  cbn [GeminiChat.message GeminiChat.type].
  destruct (strEq m (networkError userMessages)); reflexivity.
Qed.

Lemma search_error_always_api_error_witness :
  exists m,
    ErrorObj (networkError userMessages) = ErrorObj m
    /\ HomePage.searchErrorOf 0 (ErrorObj (networkError userMessages))
       = {| GeminiChat.message := m;
            GeminiChat.type := GeminiChat.api_error;
            GeminiChat.timestamp := 0 |}.
Proof.
  apply (search_error_always_api_error
           Scenario.env OtherValue
           (fun _ => GeminiChat.ChatRejected
                       (ErrorObj (lit "Connection reset by peer")))
           conversation [GeminiChat.requestContents conversation]).
  vm_compute. reflexivity.
Defined.

Section WorkflowCaller.

Import GeminiChat HomePage.

Lemma workflowErrorMessage_member (error : Thrown) :
  In (workflowErrorMessage error) userMessageValues.
Proof.
  unfold workflowErrorMessage.
  assert (Hg : In (generationFailed userMessages) userMessageValues)
    by (unfold userMessageValues; cbn [In]; tauto).
  destruct error as [m|]; [|exact Hg].
  destruct (arrayIncludes userMessageValues m) eqn:E; [|exact Hg].
  apply arrayIncludes_In. exact E.
Qed.

Lemma loop_success_of_run (env : Env) (backend : Backend)
      (history : list ChatMessage) (tr : Trace) (s : jsstring) :
  run (generateMermaidScriptFromConversation env backend history)
  = (tr, inl s) ->
  acceptable tr s.
Proof.
  rewrite generate_eq.
  destruct (negb (validateApiKey env)); [discriminate|].
  destruct (length (filter isUserOrAssistant history) =? 0); [discriminate|].
  destruct (attemptLoop backend (contentOf history)
                        (maxRetryAttempts mermaidGenerationConfig) 1 [])
    as [tr0 [s0|e]] eqn:Hloop; [|discriminate].
  intros H. injection H as <- <-.
  exact (loop_success backend _ _ _ _ _ _ Hloop).
Qed.

End WorkflowCaller.

(** X21: whatever the key, the backend and the conversation, the error
    that [handleGenerateWorkflow] shows carries a message of
    [userMessages], and so does the content it gives to the diagram
    message: a message outside the set, such as the empty-response one,
    is replaced by the generic failure message. *)
Theorem workflow_messages_from_fixed_set
        (env : Env) (backend : Backend) (now : nat)
        (conversation : list ChatMessage) :
  let outcome := HomePage.handleGenerateWorkflow env backend now conversation in
  (forall err, HomePage.shownError outcome = Some err ->
               In (GeminiChat.message err) userMessageValues)
  /\ (forall content, HomePage.diagramContent outcome = Some content ->
                      In content userMessageValues)
  /\ (forall tr,
         run (generateMermaidScriptFromConversation env backend conversation)
         = (tr, inr (ErrorObj emptyResponseMessage)) ->
         conversation <> [] ->
         HomePage.diagramContent outcome
         = Some (generationFailed userMessages)).
Proof.
  cbv zeta. unfold HomePage.handleGenerateWorkflow.
  assert (Hmem : forall m, In m [ noContentError userMessages;
                                  noDiagramPossible userMessages;
                                  generationSuccess userMessages ] ->
                           In m userMessageValues).
  { intros m H. unfold userMessageValues. cbn [In] in *. tauto. }
  destruct conversation as [|msg conversation'].
  - cbn [length Nat.eqb HomePage.shownError HomePage.diagramContent].
    repeat split.
    + intros err E. injection E as <-. apply Hmem. cbn [In GeminiChat.message].
      tauto.
    + discriminate.
    + intros tr _ H. congruence.
  - cbn [length Nat.eqb].
    destruct (run (generateMermaidScriptFromConversation
                     env backend (msg :: conversation')))
      as [tr [s|e]].
    + destruct (strEq s NO_DIAGRAM);
        cbn [HomePage.shownError HomePage.diagramContent]; repeat split;
        try discriminate;
        try (intros content E; injection E as <-; apply Hmem; cbn [In]; tauto).
    + cbn [HomePage.shownError HomePage.diagramContent]. repeat split.
      * intros err E. injection E as <-. cbn [GeminiChat.message].
        apply workflowErrorMessage_member.
      * intros content E. injection E as <-.
        apply workflowErrorMessage_member.
      * intros tr' E _. injection E as _ ->. reflexivity.
Qed.

(** X22: the script that [handleGenerateWorkflow] attaches to the
    diagram message is the sentinel, with the content that no diagram is
    possible, or a script that the validator accepts, with the success
    content; with a script attached no error is shown. *)
Theorem workflow_script_validated_or_sentinel
        (env : Env) (backend : Backend) (now : nat)
        (conversation : list ChatMessage) (script : jsstring) :
  let outcome := HomePage.handleGenerateWorkflow env backend now conversation in
  HomePage.diagramScript outcome = Some script ->
  HomePage.shownError outcome = None
  /\ ((script = NO_DIAGRAM
       /\ HomePage.diagramContent outcome
          = Some (noDiagramPossible userMessages))
      \/ (script <> NO_DIAGRAM
          /\ validateMermaidScript script = true
          /\ HomePage.diagramContent outcome
             = Some (generationSuccess userMessages))).
Proof.
  cbv zeta. unfold HomePage.handleGenerateWorkflow.
  destruct (length conversation =? 0); [discriminate|].
  destruct (run (generateMermaidScriptFromConversation
                   env backend conversation)) as [tr [s|e]] eqn:Hrun;
    [|discriminate].
  pose proof (loop_success_of_run env backend conversation tr s Hrun) as Hacc.
  destruct (strEq s NO_DIAGRAM) eqn:Hs;
    cbn [HomePage.shownError HomePage.diagramContent HomePage.diagramScript];
    intros E; injection E as <-; split; try reflexivity.
  - left. split; reflexivity.
  - right. assert (Hne : s <> NO_DIAGRAM).
    { intros E. subst s. vm_compute in Hs. discriminate Hs. }
    split; [exact Hne|]. split; [|reflexivity].
    destruct Hacc as [E|[raw [_ [_ Hv]]]]; [contradiction | exact Hv].
Qed.

Lemma workflow_script_validated_or_sentinel_witness :
  HomePage.shownError
    (HomePage.handleGenerateWorkflow Scenario.env goodBackend 0 conversation)
  = None
  /\ ((loginFlow = NO_DIAGRAM
       /\ HomePage.diagramContent
            (HomePage.handleGenerateWorkflow
               Scenario.env goodBackend 0 conversation)
          = Some (noDiagramPossible userMessages))
      \/ (loginFlow <> NO_DIAGRAM
          /\ validateMermaidScript loginFlow = true
          /\ HomePage.diagramContent
               (HomePage.handleGenerateWorkflow
                  Scenario.env goodBackend 0 conversation)
             = Some (generationSuccess userMessages))).
Proof.
  apply (workflow_script_validated_or_sentinel
           Scenario.env goodBackend 0 conversation loginFlow).
  vm_compute. reflexivity.
Defined.

(** X23: for a conversation without user or assistant messages
    [handleGenerateWorkflow] makes no request and attaches no script.
    When the conversation is empty it shows the no-content message with
    the type [validation_error], whatever the API key; when it holds
    messages of other roles only, the orchestrator is called, and the
    error has the type [api_error] and the no-content message, or the
    authentication message when the key is not usable. *)
Theorem workflow_without_content
        (env : Env) (backend : Backend) (now : nat)
        (conversation : list ChatMessage) :
  filter isUserOrAssistant conversation = [] ->
  HomePage.handleGenerateWorkflow env backend now conversation
  = match conversation with
    | [] =>
        {| HomePage.diagramContent := None;
           HomePage.diagramScript := None;
           HomePage.shownError :=
             Some {| GeminiChat.message := noContentError userMessages;
                     GeminiChat.type := GeminiChat.validation_error;
                     GeminiChat.timestamp := now |};
           HomePage.requestsMade := [] |}
    | _ :: _ =>
        let shown := if validateApiKey env
                     then noContentError userMessages
                     else authenticationError userMessages in
        {| HomePage.diagramContent := Some shown;
           HomePage.diagramScript := None;
           HomePage.shownError :=
             Some {| GeminiChat.message := shown;
                     GeminiChat.type := GeminiChat.api_error;
                     GeminiChat.timestamp := now |};
           HomePage.requestsMade := [] |}
    end.
Proof.
  intros Hnone. unfold HomePage.handleGenerateWorkflow.
  destruct conversation as [|msg conversation']; [reflexivity|].
  cbn [length Nat.eqb]. rewrite generate_eq, Hnone. cbn [length Nat.eqb].
  destruct (validateApiKey env); reflexivity.
Qed.

Lemma workflow_without_content_witness :
  HomePage.handleGenerateWorkflow
    noKey goodBackend 7 [ {| role := system; content := lit "notes" |} ]
  = {| HomePage.diagramContent := Some (authenticationError userMessages);
       HomePage.diagramScript := None;
       HomePage.shownError :=
         Some {| GeminiChat.message := authenticationError userMessages;
                 GeminiChat.type := GeminiChat.api_error;
                 GeminiChat.timestamp := 7 |};
       HomePage.requestsMade := [] |}.
Proof.
  apply (workflow_without_content
           noKey goodBackend 7 [ {| role := system; content := lit "notes" |} ]).
  reflexivity.
Defined.

Lemma workflow_messages_from_fixed_set_witness :
  HomePage.diagramContent
    (HomePage.handleGenerateWorkflow Scenario.env emptyBackend 0 conversation)
  = Some (generationFailed userMessages).
Proof.
  refine (proj2 (proj2 (workflow_messages_from_fixed_set
                          Scenario.env emptyBackend 0 conversation))
                (fst (run (generateMermaidScriptFromConversation
                             Scenario.env emptyBackend conversation))) _ _).
  - vm_compute. reflexivity.
  - discriminate.
Defined.

(* ================================================================== *)
(** ** Further properties: the navigation configuration *)
(* ================================================================== *)

Section NavigationFacts.

Import Navigation.

Lemma strEq_refl (s : jsstring) : strEq s s = true.
Proof. apply strEq_eq. reflexivity. Qed.

Lemma strEq_sym (s t : jsstring) : strEq s t = strEq t s.
Proof.
  destruct (strEq s t) eqn:E.
  - apply strEq_eq in E. subst. symmetry. apply strEq_refl.
  - destruct (strEq t s) eqn:E'; [|reflexivity].
    apply strEq_eq in E'. subst. rewrite strEq_refl in E. discriminate E.
Qed.

End NavigationFacts.

(** X24: [updateActiveNavigationItem] keeps the items, their order and
    all their fields but [isActive]; it marks as active the item that
    [findNavigationItemById] finds for the identifier and no other, so
    at most one item is active, and none when the identifier is
    unknown. *)
Theorem update_active_marks_found_item (activeId : jsstring) :
  let updated := Navigation.updateActiveNavigationItem activeId in
  map Navigation.id updated = map Navigation.id Navigation.allNavigationItems
  /\ map Navigation.path updated
     = map Navigation.path Navigation.allNavigationItems
  /\ map Navigation.label updated
     = map Navigation.label Navigation.allNavigationItems
  /\ (forall item, In item updated ->
        Navigation.isActive item
        = Some (match Navigation.findNavigationItemById activeId with
                | Some found =>
                    strEq (Navigation.id item) (Navigation.id found)
                | None => false
                end))
  /\ length (filter (fun item =>
                       match Navigation.isActive item with
                       | Some true => true
                       | _ => false
                       end) updated)
     = match Navigation.findNavigationItemById activeId with
       | Some _ => 1
       | None => 0
       end.
Proof.
  cbv zeta. unfold Navigation.updateActiveNavigationItem,
    Navigation.findNavigationItemById, Navigation.allNavigationItems,
    Navigation.mainNavigationItems, Navigation.bottomNavigationItems.
  cbn [app map find filter Navigation.id Navigation.path Navigation.label
       Navigation.isActive].
  destruct (strEq (lit "new-chat") activeId) eqn:E1;
    destruct (strEq (lit "home") activeId) eqn:E2;
    destruct (strEq (lit "history") activeId) eqn:E3;
    try (apply strEq_eq in E1; subst activeId; discriminate);
    try (apply strEq_eq in E2; subst activeId; discriminate);
    cbn [length Navigation.id];
    (repeat split; try reflexivity;
     intros item [<-|[<-|[<-|[]]]]; cbn [Navigation.isActive Navigation.id];
     rewrite ?E1, ?E2, ?E3; reflexivity).
Qed.

(* ================================================================== *)
(** ** Further properties: the history storage *)
(* ================================================================== *)

Section HistoryFacts.

Import HistoryStorage.

Variable now : nat.
Variable item : HistoryItem.

Notation "'sameId'" := (fun existing => strEq (id existing) (id item)).

Lemma findIndex_none_find {A : Type} (p : A -> bool) (l : list A) :
  findIndex p l = None -> forall x, In x l -> p x = false.
Proof.
  induction l as [|y l IH]; intros H x []; cbn in H;
    destruct (p y) eqn:E; try discriminate.
  - subst. exact E.
  - apply IH; [|assumption]. destruct (findIndex p l); [discriminate|reflexivity].
Qed.


Lemma length_setAt {A : Type} (x : A) (l : list A) (i : nat) :
  length (setAt i x l) = length l.
Proof.
  revert i. induction l as [|y l IH]; intros [|i]; cbn; auto.
Qed.

Lemma ids_setAt (l : list HistoryItem) (i : nat) :
  findIndex sameId l = Some i ->
  map id (setAt i (stamped now item) l) = map id l.
Proof.
  revert i. induction l as [|y l IH]; intros i H; [discriminate|].
  cbn in H. destruct (strEq (id y) (id item)) eqn:E.
  - injection H as <-. cbn. apply strEq_eq in E. rewrite E. reflexivity.
  - destruct (findIndex sameId l) as [j|]; [|discriminate].
    injection H as <-. cbn. rewrite (IH j eq_refl). reflexivity.
Qed.

Lemma NoDup_firstn {A : Type} (n : nat) (l : list A) :
  NoDup l -> NoDup (firstn n l).
Proof.
  intros H. rewrite <- (firstn_skipn n l) in H.
  apply NoDup_app_remove_r in H. exact H.
Qed.

Lemma find_firstn_none {A : Type} (p : A -> bool) (n : nat) (l : list A) :
  find p l = None -> find p (firstn n l) = None.
Proof.
  revert n. induction l as [|y l IH]; intros [|n] H; cbn; auto.
  cbn in H. destruct (p y); [discriminate|]. apply IH. exact H.
Qed.

Lemma find_filter_same {A : Type} (p q : A -> bool) (l : list A) :
  (forall x, p x = true -> q x = true) ->
  find p (filter q l) = find p l.
Proof.
  intros H. induction l as [|y l IH]; [reflexivity|]. cbn.
  destruct (q y) eqn:Eq; cbn.
  - destruct (p y); [reflexivity | exact IH].
  - destruct (p y) eqn:Ep; [|exact IH].
    rewrite (H y Ep) in Eq. discriminate Eq.
Qed.

Lemma find_filter_out {A : Type} (p : A -> bool) (l : list A) :
  find p (filter (fun x => negb (p x)) l) = None.
Proof.
  induction l as [|y l IH]; [reflexivity|]. cbn.
  destruct (p y) eqn:E; cbn; [exact IH|]. rewrite E. exact IH.
Qed.

(** The items after a successful upsert. *)
Lemma upsert_items (st : Stored) :
  loadHistoryItems (upsertHistoryItem true now st item)
  = firstn MAX_HISTORY_ITEMS
      (match findIndex sameId (loadHistoryItems st) with
       | Some i => setAt i (stamped now item) (loadHistoryItems st)
       | None => stamped now item :: loadHistoryItems st
       end).
Proof.
  unfold upsertHistoryItem. cbv zeta.
  destruct (findIndex sameId (loadHistoryItems st)); reflexivity.
Qed.

End HistoryFacts.

(** X25: after a successful upsert the history holds at most
    [MAX_HISTORY_ITEMS] items; their number is unchanged when the
    identifier was present and one more, up to the maximum, when it was
    not; and identifiers that were distinct stay distinct. *)
Theorem upsert_keeps_history_bounded_and_distinct
        (now : nat) (st : HistoryStorage.Stored)
        (item : HistoryStorage.HistoryItem) :
  let st' := HistoryStorage.upsertHistoryItem true now st item in
  HistoryStorage.getHistoryItemCount st' <= HistoryStorage.MAX_HISTORY_ITEMS
  /\ HistoryStorage.getHistoryItemCount st'
     = Nat.min HistoryStorage.MAX_HISTORY_ITEMS
         (match HistoryStorage.findHistoryItemById
                  st (HistoryStorage.id item) with
          | Some _ => HistoryStorage.getHistoryItemCount st
          | None => S (HistoryStorage.getHistoryItemCount st)
          end)
  /\ (NoDup (map HistoryStorage.id (HistoryStorage.loadHistoryItems st)) ->
      NoDup (map HistoryStorage.id (HistoryStorage.loadHistoryItems st'))).
Proof.
  cbv zeta. unfold HistoryStorage.getHistoryItemCount,
    HistoryStorage.findHistoryItemById.
  rewrite upsert_items.
  set (l := HistoryStorage.loadHistoryItems st).
  set (p := fun existing => strEq (HistoryStorage.id existing)
                                  (HistoryStorage.id item)).
  destruct (HistoryStorage.findIndex p l) as [i|] eqn:Ei.
  - assert (Hf : exists y, find p l = Some y).
    { clear -Ei. revert i Ei. induction l as [|y l IH]; intros i H;
        [discriminate|]. cbn in H |- *. destruct (p y); [eauto|].
      destruct (HistoryStorage.findIndex p l) as [j|]; [|discriminate].
      exact (IH j eq_refl). }
    destruct Hf as [y Hy]. rewrite Hy.
    rewrite length_firstn, length_setAt. repeat split.
    + apply Nat.le_min_l.
    + intros Hnd. rewrite <- firstn_map. apply NoDup_firstn.
      unfold p in Ei. rewrite (ids_setAt now item l i Ei). exact Hnd.
  - assert (Hf : find p l = None).
    { clear -Ei. induction l as [|y l IH]; [reflexivity|].
      cbn in Ei |- *. destruct (p y); [discriminate|]. apply IH.
      destruct (HistoryStorage.findIndex p l); [discriminate|reflexivity]. }
    rewrite Hf. rewrite length_firstn. cbn [length]. repeat split.
    + apply Nat.le_min_l.
    + intros Hnd. rewrite <- firstn_map. apply NoDup_firstn.
      cbn [map HistoryStorage.stamped HistoryStorage.id]. constructor;
        [|exact Hnd].
      intros Hin. apply in_map_iff in Hin as [x [Hx Hin]].
      pose proof (findIndex_none_find p l Ei x Hin) as Hp. unfold p in Hp.
      rewrite Hx, strEq_refl in Hp. discriminate Hp.
Qed.



(** X27: after a successful deletion no item is found under the deleted
    identifier, and the items under the other identifiers are found as
    before (the storage holding at most [MAX_HISTORY_ITEMS] items). *)
Theorem delete_then_find
        (st : HistoryStorage.Stored) (id' other : jsstring) :
  HistoryStorage.findHistoryItemById
    (HistoryStorage.deleteHistoryItem true st id') id' = None
  /\ (HistoryStorage.getHistoryItemCount st
      <= HistoryStorage.MAX_HISTORY_ITEMS ->
      other <> id' ->
      HistoryStorage.findHistoryItemById
        (HistoryStorage.deleteHistoryItem true st id') other
      = HistoryStorage.findHistoryItemById st other).
Proof.
  unfold HistoryStorage.findHistoryItemById,
    HistoryStorage.deleteHistoryItem, HistoryStorage.getHistoryItemCount.
  cbv zeta. cbn [HistoryStorage.saveHistoryItems
                 HistoryStorage.loadHistoryItems].
  set (l := HistoryStorage.loadHistoryItems st). split.
  - apply find_firstn_none.
    apply (find_filter_out
             (fun item => strEq (HistoryStorage.id item) id') l).
  - intros Hb Hne. rewrite firstn_all2.
    + apply find_filter_same. intros x Hx. apply strEq_eq in Hx.
      destruct (strEq (HistoryStorage.id x) id') eqn:E; [|reflexivity].
      apply strEq_eq in E. congruence.
    + etransitivity; [apply filter_length_le | exact Hb].
Qed.

Lemma delete_then_find_witness :
  HistoryStorage.findHistoryItemById
    (HistoryStorage.deleteHistoryItem true HistoryStorage.Absent (lit "c1"))
    (lit "c2")
  = HistoryStorage.findHistoryItemById HistoryStorage.Absent (lit "c2").
Proof.
  refine (proj2 (delete_then_find HistoryStorage.Absent (lit "c1") (lit "c2"))
                _ _).
  - apply Nat.leb_le. reflexivity.
  - discriminate.
Defined.



Lemma upsert_keeps_history_bounded_and_distinct_witness :
  NoDup (map HistoryStorage.id
           (HistoryStorage.loadHistoryItems
              (HistoryStorage.upsertHistoryItem true 7 HistoryStorage.Absent
                 {| HistoryStorage.id := lit "new";
                    HistoryStorage.title := lit "New";
                    HistoryStorage.description := None;
                    HistoryStorage.timestamp := 2;
                    HistoryStorage.type := HistoryStorage.chat;
                    HistoryStorage.conversation := conversation;
                    HistoryStorage.metadata := None |}))).
Proof.
  refine (proj2 (proj2 (upsert_keeps_history_bounded_and_distinct
                          7 HistoryStorage.Absent _)) _).
  cbn. constructor.
Defined.

(* ================================================================== *)
(** ** Further properties: the error snippet of a diagram message *)
(* ================================================================== *)

Section SnippetFacts.

Import ChatMessageView.

Variable sep : ascii.

Lemma split_nonempty (s : jsstring) : split sep s <> [].
Proof.
  destruct s as [|c s]; cbn; [discriminate|].
  destruct (Ascii.eqb c sep); [discriminate|].
  destruct (split sep s); discriminate.
Qed.

Lemma split_first_prefix (s line : jsstring) (lines : list jsstring) :
  split sep s = line :: lines -> exists post, s = line ++ post.
Proof.
  revert line lines. induction s as [|c s IH]; intros line lines H; cbn in H.
  - injection H as <- <-. exists []. reflexivity.
  - destruct (Ascii.eqb c sep).
    + injection H as <- _. exists (c :: s). reflexivity.
    + destruct (split sep s) as [|l0 ls] eqn:E.
      * exfalso. exact (split_nonempty s E).
      * injection H as <- _. destruct (IH l0 ls eq_refl) as [post ->].
        exists post. reflexivity.
Qed.

Lemma split_substring (s line : jsstring) :
  In line (split sep s) -> substringOf line s.
Proof.
  revert line. induction s as [|c s IH]; intros line H; cbn in H.
  - destruct H as [<-|[]]. exists [], []. reflexivity.
  - destruct (Ascii.eqb c sep).
    + destruct H as [<-|H].
      * exists [], (c :: s). reflexivity.
      * destruct (IH line H) as [pre [post ->]].
        exists (c :: pre), post. reflexivity.
    + destruct (split sep s) as [|l0 ls] eqn:E.
      * exfalso. exact (split_nonempty s E).
      * destruct H as [<-|H].
        -- destruct (split_first_prefix s l0 ls E) as [post ->].
           exists [], post. reflexivity.
        -- destruct (IH line (or_intror H)) as [pre [post ->]].
           exists (c :: pre), post. reflexivity.
Qed.

Lemma split_lines_without_sep (s line : jsstring) :
  In line (split sep s) ->
  forallb (fun c => negb (Ascii.eqb c sep)) line = true.
Proof.
  revert line. induction s as [|c s IH]; intros line H; cbn in H.
  - destruct H as [<-|[]]. reflexivity.
  - destruct (Ascii.eqb c sep) eqn:Ec.
    + destruct H as [<-|H]; [reflexivity | exact (IH line H)].
    + destruct (split sep s) as [|l0 ls] eqn:E.
      * exfalso. exact (split_nonempty s E).
      * destruct H as [<-|H].
        -- cbn. rewrite Ec. exact (IH l0 (or_introl eq_refl)).
        -- exact (IH line (or_intror H)).
Qed.

(** Joining the lines with the separator gives the text back. *)
Lemma join_split (s : jsstring) : join [sep] (split sep s) = s.
Proof.
  induction s as [|c s IH]; [reflexivity|]. cbn [split].
  destruct (Ascii.eqb c sep) eqn:Ec.
  - apply Ascii.eqb_eq in Ec. subst c.
    destruct (split sep s) as [|l0 ls] eqn:E.
    + exfalso. exact (split_nonempty s E).
    + change (join [sep] ([] :: l0 :: ls))
        with ([] ++ [sep] ++ join [sep] (l0 :: ls)).
      rewrite IH. reflexivity.
  - destruct (split sep s) as [|l0 ls] eqn:E.
    + exfalso. exact (split_nonempty s E).
    + destruct ls as [|l1 ls]; cbn [join] in IH |- *; rewrite <- IH;
        reflexivity.
Qed.

End SnippetFacts.

(** X29: the snippet that [extractErrorSnippet] shows for a rendering
    error is always a contiguous part of the script: either its first
    100 characters, or one whole line of it, which holds no line feed. *)
Theorem error_snippet_is_part_of_script
        (message : option jsstring) (script : jsstring) :
  let snippet := ChatMessageView.extractErrorSnippet message script in
  substringOf snippet script
  /\ (snippet = ChatMessageView.substring0 100 script
      \/ (In snippet (ChatMessageView.split "010"%char script)
          /\ forallb (fun c => negb (Ascii.eqb c "010"%char)) snippet = true)).
Proof.
  cbv zeta.
  assert (Hsub : substringOf (ChatMessageView.substring0 100 script) script).
  { exists [], (skipn 100 script). unfold ChatMessageView.substring0.
    cbn [app]. symmetry. apply firstn_skipn. }
  unfold ChatMessageView.extractErrorSnippet.
  destruct message as [msg|]; [|split; [exact Hsub | left; reflexivity]].
  destruct (exec noFlags ChatMessageView.reLine msg) as [lineMatch|];
    [|split; [exact Hsub | left; reflexivity]].
  destruct (group 1 (groups lineMatch)) as [digits|];
    [|split; [exact Hsub | left; reflexivity]].
  cbv zeta.
  destruct (ChatMessageView.parseInt digits) as [|lineNumber];
    [split; [exact Hsub | left; reflexivity]|].
  destruct (nth_error (ChatMessageView.split "010"%char script) lineNumber)
    as [line|] eqn:E; [|split; [exact Hsub | left; reflexivity]].
  apply nth_error_In in E. split.
  - exact (split_substring "010"%char script line E).
  - right. split; [exact E|].
    exact (split_lines_without_sep "010"%char script line E).
Qed.
